(** * Simplechatapp: the delivery protocol of the chat server and its client

    A shallow embedding of the chat server (DatabaseAdapter, SocketAdapter,
    MessageService and the socket.io connection handler of server.js, with
    the Message model) and of the browser client served from public/
    (optimistic rendering, acknowledgement handling, retry, typing signals),
    followed by the properties of the delivery protocol.

    JavaScript objects with a fixed shape become records; objects that are
    read field by field on the other side of the wire are finite maps from
    field names to values, so that an absent field reads as [undefined].
    [Map]s are [gmap]s.  Side effects are threaded through an explicit world
    (server) or state (client); exceptions are an error in the result.

    An [await] hands control back to the event loop.  In [Server] a handler
    is embedded as running to completion: the interleaving in which no other
    event is handled while the store answers.  [Await] splits the chat
    handler at its wait for the store and lets other turns of the event loop
    come in between: events, other chat handlers up to their wait, and
    waiting handlers that go on.

    An entry of the message list is embedded by what its own elements hold.
    The page writes the name of the sender into the entry as markup and
    finds the [.meta] and the [.status] of the entry by selector, so this is
    the entry of a sender whose name holds no markup ([Page.plain]); in a
    sender's name that holds elements of these classes the selectors find
    those instead.

    The start of the server, the health probe, the route and the loading
    of the history, the earlier server.js and the markup of a text are
    embedded after the client, each in a module of its own, with what the
    page and the server keep true in every state they reach.  The list of
    the page is the list of its [<li>] entries; the typing indicator, which
    the browser also hangs into that list, is kept apart.

    Left out: the connection indicator of the client, the socket-info route
    and the shutdown. *)

From stdpp Require Import gmap strings pretty list.
From Stdlib Require Import ZArith Ascii.

Local Open Scope Z_scope.

(** ** JavaScript strings and values *)

Module JS.

(** A string is its sequence of UTF-16 code units. *)
Definition jsstring := list N.

(** A source literal made of ASCII characters. *)
Fixpoint lit (s : string) : jsstring :=
  match s with
  | EmptyString => []
  | String a s' => N_of_ascii a :: lit s'
  end.

(** WhiteSpace and LineTerminator code units, the ones
    [String.prototype.trim] strips. *)
Definition isWhiteSpace (c : N) : bool :=
  ((9 <=? c) && (c <=? 13) || (c =? 32) || (c =? 160) || (c =? 0x1680)
   || (0x2000 <=? c) && (c <=? 0x200A)
   || (c =? 0x2028) || (c =? 0x2029) || (c =? 0x202F) || (c =? 0x205F)
   || (c =? 0x3000) || (c =? 0xFEFF))%N.

Fixpoint trimStart (s : jsstring) : jsstring :=
  match s with
  | [] => []
  | c :: s' => if isWhiteSpace c then trimStart s' else s
  end.

Definition trimEnd (s : jsstring) : jsstring := rev (trimStart (rev s)).

Definition trim (s : jsstring) : jsstring := trimEnd (trimStart s).

(** The values that travel in payloads.  Numbers are the integers the
    program uses (ids, counters); a [Date] is its epoch milliseconds. *)
Inductive jsval :=
| JUndefined
| JNull
| JBool (b : bool)
| JNum (z : Z)
| JStr (s : jsstring)
| JDate (ms : Z).

#[global] Instance jsval_eq_dec : EqDecision jsval.
Proof. solve_decision. Defined.

(** ToBoolean. *)
Definition truthy (v : jsval) : bool :=
  match v with
  | JUndefined | JNull => false
  | JBool b => b
  | JNum z => negb (z =? 0)
  | JStr s => match s with [] => false | _ => true end
  | JDate _ => true
  end.

(** [a || b] *)
Definition jsor (a b : jsval) : jsval := if truthy a then a else b.

(** [a === b]; a [Date] is an object and is only identical to itself,
    which no comparison of the program relies on. *)
Definition strict_eq (a b : jsval) : bool :=
  match a, b with
  | JUndefined, JUndefined | JNull, JNull => true
  | JBool x, JBool y => bool_decide (x = y)
  | JNum x, JNum y => bool_decide (x = y)
  | JStr x, JStr y => bool_decide (x = y)
  | _, _ => false
  end.

(** An object literal: field name to value.  Reading a missing field
    gives [undefined]. *)
Abbreviation obj := (gmap string jsval).

Definition field (o : obj) (k : string) : jsval := default JUndefined (o !! k).

(** The result of code that may throw; [Throw] carries [error.message]. *)
Inductive outcome (A : Type) :=
| Ret (a : A)
| Throw (message : jsstring).
Arguments Ret {A} a.
Arguments Throw {A} message.

End JS.

Import JS.

(** ** The server *)

Module Server.

Abbreviation SocketId := string.

(** A row of the Messages table (models/Message.js, [timestamps: true]).
    [username] is the value handed to [create], whatever its type. *)
Record Row := {
  id : Z;
  username : jsval;
  text : jsstring;
  createdAt : Z;
  updatedAt : Z
}.

(** What the server puts on the wire: an event with the set of sockets
    socket.io delivers it to, or the reply to one socket's acknowledgement
    callback. *)
Inductive Packet :=
| Event (audience : gset SocketId) (event : string) (payload : obj)
| Ack (to : SocketId) (payload : obj).

(** The server process and its collaborators.
    - [db_rows], [db_next_id]: the Messages table and its id sequence;
    - [db_fault]: [Some e] while the store rejects [Message.create] with an
      error whose message is [e] (database unreachable, statement refused);
      the environment sets it, so it decides the fate of each call;
    - [db_calls]: the arguments of every [Message.create] call so far;
    - [io_sockets]: the sockets socket.io holds as connected;
    - [clients]: [SocketAdapter.clients], socket id to [connectedAt]
      (the [socket] field of an entry is the socket of its key);
    - [wire]: the packets sent so far, oldest first. *)
Record World := {
  db_rows : list Row;
  db_next_id : Z;
  db_fault : option jsstring;
  db_calls : list (jsval * jsstring);
  clock : Z;
  io_sockets : gset SocketId;
  clients : gmap SocketId Z;
  wire : list Packet
}.

Definition set_wire (f : list Packet → list Packet) (w : World) : World :=
  {| db_rows := db_rows w; db_next_id := db_next_id w; db_fault := db_fault w;
     db_calls := db_calls w; clock := clock w; io_sockets := io_sockets w;
     clients := clients w; wire := f (wire w) |}.

(** Code that runs against the world and may throw. *)
Definition M (A : Type) : Type := World → outcome A * World.

Definition ret {A} (a : A) : M A := λ w, (Ret a, w).
Definition throw {A} (e : jsstring) : M A := λ w, (Throw e, w).
Definition bind {A B} (c : M A) (k : A → M B) : M B :=
  λ w, match c w with
       | (Ret a, w') => k a w'
       | (Throw e, w') => (Throw e, w')
       end.
Definition try_catch {A} (c : M A) (handler : jsstring → M A) : M A :=
  λ w, match c w with
       | (Ret a, w') => (Ret a, w')
       | (Throw e, w') => handler e w'
       end.
Definition effect (f : World → World) : M unit := λ w, (Ret tt, f w).

Notation "x <- c ;; k" := (bind c (λ x, k))
  (at level 100, c at next level, right associativity).
Notation "c ;;; k" := (bind c (λ _, k))
  (at level 100, right associativity).

(** *** The persistence store: [Message.create] *)

Definition Message_create (username : jsval) (text : jsstring) : M Row :=
  λ w,
    let w1 := {| db_rows := db_rows w; db_next_id := db_next_id w;
                 db_fault := db_fault w;
                 db_calls := db_calls w ++ [(username, text)];
                 clock := clock w; io_sockets := io_sockets w;
                 clients := clients w; wire := wire w |} in
    match db_fault w with
    | Some e => (Throw e, w1)
    | None =>
        let saved := {| id := db_next_id w; username := username; text := text;
                        createdAt := clock w; updatedAt := clock w |} in
        (Ret saved,
         {| db_rows := db_rows w1 ++ [saved]; db_next_id := db_next_id w1 + 1;
            db_fault := db_fault w1; db_calls := db_calls w1;
            clock := clock w1; io_sockets := io_sockets w1;
            clients := clients w1; wire := wire w1 |})
    end.

(** *** DatabaseAdapter *)

(** [{ success: true, data }] or [{ success: false, error }]. *)
Inductive DbResult :=
| DbOk (data : Row)
| DbErr (error : jsstring).

Definition saveMessage (username : jsval) (text : jsstring) : M DbResult :=
  try_catch
    (saved <- Message_create (jsor username (JStr (lit "Anonymous"))) text ;;
     ret (DbOk saved))
    (λ error_message, ret (DbErr error_message)).

(** *** SocketAdapter *)

Definition handleConnection (socketId : SocketId) (w : World) : World :=
  {| db_rows := db_rows w; db_next_id := db_next_id w; db_fault := db_fault w;
     db_calls := db_calls w; clock := clock w; io_sockets := io_sockets w;
     clients := <[socketId := clock w]> (clients w); wire := wire w |}.

Definition handleDisconnection (socketId : SocketId) (w : World) : World :=
  if decide (is_Some (clients w !! socketId)) then
    {| db_rows := db_rows w; db_next_id := db_next_id w; db_fault := db_fault w;
       db_calls := db_calls w; clock := clock w; io_sockets := io_sockets w;
       clients := delete socketId (clients w); wire := wire w |}
  else w.

(** socket.io: [io.emit] reaches every connected socket, [socket.emit] the
    socket itself while it is connected, [socket.broadcast.emit] every
    connected socket but the socket itself. *)
Definition io_emit (event : string) (data : obj) (w : World) : World :=
  set_wire (λ l, l ++ [Event (io_sockets w) event data]) w.

Definition socket_emit (s : SocketId) (event : string) (data : obj)
    (w : World) : World :=
  set_wire (λ l, l ++ [Event ({[s]} ∩ io_sockets w) event data]) w.

Definition socket_broadcast_emit (s : SocketId) (event : string) (data : obj)
    (w : World) : World :=
  set_wire (λ l, l ++ [Event (io_sockets w ∖ {[s]}) event data]) w.

Definition broadcast (event : string) (data : obj) (w : World) : World :=
  io_emit event data w.

Definition sendToClient (socketId : SocketId) (event : string) (data : obj)
    (w : World) : bool * World :=
  match clients w !! socketId with
  | Some _ => (true, socket_emit socketId event data w)
  | None => (false, w)
  end.

Definition broadcastExcept (senderSocketId : SocketId) (event : string)
    (data : obj) (w : World) : World :=
  match clients w !! senderSocketId with
  | Some _ => socket_broadcast_emit senderSocketId event data w
  | None => w
  end.

Definition getClientCount (w : World) : nat := size (clients w).

(** *** MessageService *)

(** [{ success: false, error, code }] or
    [{ success: true, data, broadcastData }]. *)
Inductive SendResult :=
| SendFailure (error : jsstring) (code : jsstring)
| SendSuccess (data : Row) (broadcastData : obj).

Definition VALIDATION_ERROR : jsstring := lit "VALIDATION_ERROR".
Definition DATABASE_ERROR : jsstring := lit "DATABASE_ERROR".

(** [messageData.f]: reading a property of [null] or [undefined] throws.
    The text of the error is the one for [undefined], for [null] it names
    [null]; the [catch] of the handler does not read it. *)
Definition prop (messageData : option obj) (f : string) : M jsval :=
  match messageData with
  | Some o => ret (field o f)
  | None =>
      throw (lit "Cannot read properties of undefined (reading '"
             ++ lit f ++ lit "')")
  end.

(** [v.trim()]: only strings have the method. *)
Definition call_trim (v : jsval) : M jsstring :=
  match v with
  | JStr s => ret (trim s)
  | _ => throw (lit "messageData.text.trim is not a function")
  end.

Definition broadcastDataOf (r : Row) : obj :=
  {[ "id" := JNum (id r); "sender" := username r; "text" := JStr (text r);
     "createdAt" := JDate (createdAt r); "isBroadcast" := JBool true ]}.

(** The sender's socket id is used when it is truthy. *)
Definition given (senderSocketId : option SocketId) : option SocketId :=
  match senderSocketId with
  | Some s => if decide (s = "") then None else Some s
  | None => None
  end.

Definition sendMessage (messageData : option obj)
    (senderSocketId : option SocketId) : M SendResult :=
  t <- prop messageData "text" ;;
  blank <- (if truthy t
            then (s <- call_trim t ;; ret (bool_decide (s = [])))
            else ret true) ;;
  if (blank : bool) then
    ret (SendFailure (lit "Message cannot be empty") VALIDATION_ERROR)
  else
    u <- prop messageData "username" ;;
    trimmed <- call_trim t ;;
    dbResult <- saveMessage (jsor u (JStr (lit "Anonymous"))) trimmed ;;
    match dbResult with
    | DbErr error =>
        ret (SendFailure
               (match error with
                | [] => lit "Failed to save message"
                | _ => error
                end)
               DATABASE_ERROR)
    | DbOk data =>
        let broadcastData := broadcastDataOf data in
        effect (match given senderSocketId with
                | Some s => broadcastExcept s "chat message" broadcastData
                | None => broadcast "chat message" broadcastData
                end) ;;;
        ret (SendSuccess data broadcastData)
    end.

(** *** The connection handler *)

Definition successAck (data : Row) : obj :=
  {[ "status" := JStr (lit "success"); "messageId" := JNum (id data);
     "sender" := username data; "text" := JStr (text data);
     "timestamp" := JDate (createdAt data);
     "code" := JStr (lit "MESSAGE_SENT") ]}.

Definition errorAck (message code : jsstring) : obj :=
  {[ "status" := JStr (lit "error"); "message" := JStr message;
     "code" := JStr code ]}.

Definition internalErrorAck : obj :=
  {[ "status" := JStr (lit "error");
     "message" := JStr (lit "Internal server error") ]}.

(** Calling the acknowledgement callback sends the reply to the socket. *)
Definition acknowledgementCallback (s : SocketId) (reply : obj) : M unit :=
  effect (set_wire (λ l, l ++ [Ack s reply])).

(** [clientSocket.on("chat message", async (data, acknowledgementCallback))];
    [hasCallback] tells whether the client passed a callback.  The handler
    is taken in one piece, the store answering before anything else is
    handled; [Await] has it in two, around the wait. *)
Definition on_chat_message (s : SocketId) (data : option obj)
    (hasCallback : bool) : M unit :=
  try_catch
    (result <- sendMessage data (Some s) ;;
     if hasCallback then
       match result with
       | SendSuccess rdata broadcastData =>
           acknowledgementCallback s (successAck rdata) ;;;
           effect (λ w, (sendToClient s "chat message"
                           (<["isOwnMessage" := JBool true]> broadcastData)
                           w).2)
       | SendFailure error code =>
           acknowledgementCallback s (errorAck error code)
       end
     else ret tt)
    (λ _,
       if hasCallback then acknowledgementCallback s internalErrorAck
       else ret tt).

(** [io.on("connection")]: socket.io has the socket as connected when the
    handler runs. *)
Definition on_connection (s : SocketId) (w : World) : World :=
  handleConnection s
    {| db_rows := db_rows w; db_next_id := db_next_id w; db_fault := db_fault w;
       db_calls := db_calls w; clock := clock w;
       io_sockets := io_sockets w ∪ {[s]};
       clients := clients w; wire := wire w |}.

(** [clientSocket.on("disconnect")]: socket.io has dropped the socket. *)
Definition on_disconnect (s : SocketId) (w : World) : World :=
  handleDisconnection s
    {| db_rows := db_rows w; db_next_id := db_next_id w; db_fault := db_fault w;
       db_calls := db_calls w; clock := clock w;
       io_sockets := io_sockets w ∖ {[s]};
       clients := clients w; wire := wire w |}.

(** A packet from a connected client is given to the listener registered
    for its event name; the connection handler registers one for
    "chat message" only. *)
Definition on_packet (s : SocketId) (event : string) (data : option obj)
    (hasCallback : bool) (w : World) : World :=
  if decide (s ∈ io_sockets w) then
    if decide (event = "chat message")
    then (on_chat_message s data hasCallback w).2
    else w
  else w.

(** What happens to the server. *)
Inductive ServerEvent :=
| Connection (s : SocketId)
| Disconnect (s : SocketId)
| Packet_in (s : SocketId) (event : string) (data : option obj)
    (hasCallback : bool)
| Database (fault : option jsstring)
| Elapse (ms : Z).

Definition server_step (w : World) (e : ServerEvent) : World :=
  match e with
  | Connection s => on_connection s w
  | Disconnect s => on_disconnect s w
  | Packet_in s event data hasCallback => on_packet s event data hasCallback w
  | Database fault =>
      {| db_rows := db_rows w; db_next_id := db_next_id w; db_fault := fault;
         db_calls := db_calls w; clock := clock w; io_sockets := io_sockets w;
         clients := clients w; wire := wire w |}
  | Elapse ms =>
      {| db_rows := db_rows w; db_next_id := db_next_id w;
         db_fault := db_fault w; db_calls := db_calls w;
         clock := clock w + Z.max 0 ms; io_sockets := io_sockets w;
         clients := clients w; wire := wire w |}
  end.

Definition boot : World :=
  {| db_rows := []; db_next_id := 1; db_fault := None; db_calls := [];
     clock := 0; io_sockets := ∅; clients := ∅; wire := [] |}.

Definition server_run (es : list ServerEvent) : World :=
  fold_left server_step es boot.

Definition reachable (w : World) : Prop := ∃ es, w = server_run es.

(** *** Observations on the wire *)

(** The events delivered to socket [s], oldest first. *)
Definition delivered (s : SocketId) (l : list Packet) : list (string * obj) :=
  omap (λ p, match p with
             | Event audience event payload =>
                 if decide (s ∈ audience) then Some (event, payload) else None
             | Ack _ _ => None
             end) l.

(** The acknowledgement replies sent to socket [s], oldest first. *)
Definition acks (s : SocketId) (l : list Packet) : list obj :=
  omap (λ p, match p with
             | Ack to payload => if decide (to = s) then Some payload else None
             | Event _ _ _ => None
             end) l.

End Server.

(** ** The browser client *)

Module Client.

(** The symbols in front of the status texts, as code units. *)
Definition HOURGLASS : jsstring := [0x23F3%N].
Definition CHECK_MARK : jsstring := [0x2713%N].
Definition BALLOT_X : jsstring := [0x2717%N].
Definition ENVELOPE : jsstring := [0xD83D%N; 0xDCE8%N].

(** ToString, as a template literal applies it; the text of a date is
    represented by its time value. *)
Definition toString (v : jsval) : jsstring :=
  match v with
  | JUndefined => lit "undefined"
  | JNull => lit "null"
  | JBool true => lit "true"
  | JBool false => lit "false"
  | JNum z => lit (pretty z)
  | JStr s => s
  | JDate ms => lit (pretty ms)
  end.

(** [new Date(v)]: the time value, [None] for an Invalid Date.  A timestamp
    that crossed the wire as an ISO string is a [JDate]; other strings are
    taken not to parse. *)
Definition newDate (v : jsval) : option Z :=
  match v with
  | JDate ms | JNum ms => Some ms
  | JNull | JBool false => Some 0
  | JBool true => Some 1
  | JUndefined | JStr _ => None
  end.

(** [d.toLocaleTimeString()]; the locale text of a valid date is
    represented by its time value. *)
Definition toLocaleTimeString (d : option Z) : jsstring :=
  match d with
  | Some ms => lit (pretty ms)
  | None => lit "Invalid Date"
  end.

(** The retry button of a failed entry; its click handler closes over the
    sender and text it was created with. *)
Record RetryButton := {
  btn : nat;
  disabled : bool;
  label : jsstring;
  bound_username : jsstring;
  bound_text : jsstring
}.

(** An [<li>] of the message list.  [node] is the identity of the element;
    [content] is the sender and text of its first [<div>]; [meta_text],
    [status] and [buttons] are the text, the [.status] span and the buttons
    of its [.meta] div.  The sender is markup in the first [<div>]: the
    [.meta] and [.status] that [querySelector] finds are these when the
    sender's name holds no element. *)
Record Li := {
  node : nat;
  messageId : jsval;
  classList : list string;
  content : jsval * jsval;
  meta_text : jsstring;
  status : option jsstring;
  buttons : list RetryButton
}.

(** An entry of [pendingMessages]: [{ li, username, text }]. *)
Record Pending := {
  li : nat;
  username : jsstring;
  text : jsstring
}.

(** The acknowledgement callbacks the client passes to [socket.emit]: the
    one of [sendMessage], closed over [tempId], and the one of a retry,
    closed over the entry and its button. *)
Inductive Callback :=
| AckOf (tempId : jsstring)
| RetryAckOf (li : nat) (b : nat).

(** A packet sent to the server. *)
Record Emit := {
  event : string;
  payload : obj;
  ack_id : option nat
}.

(** The page.
    - [typingTimeout]: the deadline of the debounce timer while it is
      armed;
    - [messagesEl]: the entries of the list, in document order;
    - [next_node]: the next fresh element identity;
    - [emitted]: the packets sent, oldest first;
    - [acks], [ack_ids]: the callbacks socket.io holds until their reply
      arrives, and its packet id counter;
    - [notifications]: the calls of [showNotification];
    - [indicator]: the typing indicator, its text and whether it shows. *)
Record State := {
  myName : jsstring;
  usernameInput : jsstring;
  msgInput : jsstring;
  pendingMessages : gmap jsstring Pending;
  tempIdCounter : N;
  isTyping : bool;
  typingTimeout : option Z;
  messagesEl : list Li;
  next_node : nat;
  emitted : list Emit;
  acks : gmap nat Callback;
  ack_ids : nat;
  notifications : list (jsstring * bool);
  indicator : option (jsstring * bool);
  now : Z
}.

Definition set_myName (v : jsstring) (s : State) : State :=
  {| myName := v; usernameInput := usernameInput s; msgInput := msgInput s;
     pendingMessages := pendingMessages s; tempIdCounter := tempIdCounter s;
     isTyping := isTyping s; typingTimeout := typingTimeout s;
     messagesEl := messagesEl s; next_node := next_node s;
     emitted := emitted s; acks := acks s; ack_ids := ack_ids s;
     notifications := notifications s; indicator := indicator s;
     now := now s |}.

Definition set_usernameInput (v : jsstring) (s : State) : State :=
  {| myName := myName s; usernameInput := v; msgInput := msgInput s;
     pendingMessages := pendingMessages s; tempIdCounter := tempIdCounter s;
     isTyping := isTyping s; typingTimeout := typingTimeout s;
     messagesEl := messagesEl s; next_node := next_node s;
     emitted := emitted s; acks := acks s; ack_ids := ack_ids s;
     notifications := notifications s; indicator := indicator s;
     now := now s |}.

Definition set_msgInput (v : jsstring) (s : State) : State :=
  {| myName := myName s; usernameInput := usernameInput s; msgInput := v;
     pendingMessages := pendingMessages s; tempIdCounter := tempIdCounter s;
     isTyping := isTyping s; typingTimeout := typingTimeout s;
     messagesEl := messagesEl s; next_node := next_node s;
     emitted := emitted s; acks := acks s; ack_ids := ack_ids s;
     notifications := notifications s; indicator := indicator s;
     now := now s |}.

Definition set_pendingMessages (v : gmap jsstring Pending) (s : State) :
    State :=
  {| myName := myName s; usernameInput := usernameInput s;
     msgInput := msgInput s; pendingMessages := v;
     tempIdCounter := tempIdCounter s; isTyping := isTyping s;
     typingTimeout := typingTimeout s; messagesEl := messagesEl s;
     next_node := next_node s; emitted := emitted s; acks := acks s;
     ack_ids := ack_ids s; notifications := notifications s;
     indicator := indicator s; now := now s |}.

Definition set_tempIdCounter (v : N) (s : State) : State :=
  {| myName := myName s; usernameInput := usernameInput s;
     msgInput := msgInput s; pendingMessages := pendingMessages s;
     tempIdCounter := v; isTyping := isTyping s;
     typingTimeout := typingTimeout s; messagesEl := messagesEl s;
     next_node := next_node s; emitted := emitted s; acks := acks s;
     ack_ids := ack_ids s; notifications := notifications s;
     indicator := indicator s; now := now s |}.

Definition set_isTyping (v : bool) (s : State) : State :=
  {| myName := myName s; usernameInput := usernameInput s;
     msgInput := msgInput s; pendingMessages := pendingMessages s;
     tempIdCounter := tempIdCounter s; isTyping := v;
     typingTimeout := typingTimeout s; messagesEl := messagesEl s;
     next_node := next_node s; emitted := emitted s; acks := acks s;
     ack_ids := ack_ids s; notifications := notifications s;
     indicator := indicator s; now := now s |}.

Definition set_typingTimeout (v : option Z) (s : State) : State :=
  {| myName := myName s; usernameInput := usernameInput s;
     msgInput := msgInput s; pendingMessages := pendingMessages s;
     tempIdCounter := tempIdCounter s; isTyping := isTyping s;
     typingTimeout := v; messagesEl := messagesEl s;
     next_node := next_node s; emitted := emitted s; acks := acks s;
     ack_ids := ack_ids s; notifications := notifications s;
     indicator := indicator s; now := now s |}.

Definition set_messagesEl (v : list Li) (s : State) : State :=
  {| myName := myName s; usernameInput := usernameInput s;
     msgInput := msgInput s; pendingMessages := pendingMessages s;
     tempIdCounter := tempIdCounter s; isTyping := isTyping s;
     typingTimeout := typingTimeout s; messagesEl := v;
     next_node := next_node s; emitted := emitted s; acks := acks s;
     ack_ids := ack_ids s; notifications := notifications s;
     indicator := indicator s; now := now s |}.

Definition set_next_node (v : nat) (s : State) : State :=
  {| myName := myName s; usernameInput := usernameInput s;
     msgInput := msgInput s; pendingMessages := pendingMessages s;
     tempIdCounter := tempIdCounter s; isTyping := isTyping s;
     typingTimeout := typingTimeout s; messagesEl := messagesEl s;
     next_node := v; emitted := emitted s; acks := acks s;
     ack_ids := ack_ids s; notifications := notifications s;
     indicator := indicator s; now := now s |}.

Definition set_emitted (v : list Emit) (s : State) : State :=
  {| myName := myName s; usernameInput := usernameInput s;
     msgInput := msgInput s; pendingMessages := pendingMessages s;
     tempIdCounter := tempIdCounter s; isTyping := isTyping s;
     typingTimeout := typingTimeout s; messagesEl := messagesEl s;
     next_node := next_node s; emitted := v; acks := acks s;
     ack_ids := ack_ids s; notifications := notifications s;
     indicator := indicator s; now := now s |}.

Definition set_acks (v : gmap nat Callback) (s : State) : State :=
  {| myName := myName s; usernameInput := usernameInput s;
     msgInput := msgInput s; pendingMessages := pendingMessages s;
     tempIdCounter := tempIdCounter s; isTyping := isTyping s;
     typingTimeout := typingTimeout s; messagesEl := messagesEl s;
     next_node := next_node s; emitted := emitted s; acks := v;
     ack_ids := ack_ids s; notifications := notifications s;
     indicator := indicator s; now := now s |}.

Definition set_ack_ids (v : nat) (s : State) : State :=
  {| myName := myName s; usernameInput := usernameInput s;
     msgInput := msgInput s; pendingMessages := pendingMessages s;
     tempIdCounter := tempIdCounter s; isTyping := isTyping s;
     typingTimeout := typingTimeout s; messagesEl := messagesEl s;
     next_node := next_node s; emitted := emitted s; acks := acks s;
     ack_ids := v; notifications := notifications s;
     indicator := indicator s; now := now s |}.

Definition set_notifications (v : list (jsstring * bool)) (s : State) : State :=
  {| myName := myName s; usernameInput := usernameInput s;
     msgInput := msgInput s; pendingMessages := pendingMessages s;
     tempIdCounter := tempIdCounter s; isTyping := isTyping s;
     typingTimeout := typingTimeout s; messagesEl := messagesEl s;
     next_node := next_node s; emitted := emitted s; acks := acks s;
     ack_ids := ack_ids s; notifications := v; indicator := indicator s;
     now := now s |}.

Definition set_indicator (v : option (jsstring * bool)) (s : State) : State :=
  {| myName := myName s; usernameInput := usernameInput s;
     msgInput := msgInput s; pendingMessages := pendingMessages s;
     tempIdCounter := tempIdCounter s; isTyping := isTyping s;
     typingTimeout := typingTimeout s; messagesEl := messagesEl s;
     next_node := next_node s; emitted := emitted s; acks := acks s;
     ack_ids := ack_ids s; notifications := notifications s; indicator := v;
     now := now s |}.

Definition set_now (v : Z) (s : State) : State :=
  {| myName := myName s; usernameInput := usernameInput s;
     msgInput := msgInput s; pendingMessages := pendingMessages s;
     tempIdCounter := tempIdCounter s; isTyping := isTyping s;
     typingTimeout := typingTimeout s; messagesEl := messagesEl s;
     next_node := next_node s; emitted := emitted s; acks := acks s;
     ack_ids := ack_ids s; notifications := notifications s;
     indicator := indicator s; now := v |}.

(** *** Elements *)

Definition class_add (c : string) (l : list string) : list string :=
  if decide (c ∈ l) then l else l ++ [c].

Definition class_remove (c : string) (l : list string) : list string :=
  filter (λ x, x ≠ c) l.

Definition set_classes (f : list string → list string) (e : Li) : Li :=
  {| node := node e; messageId := messageId e; classList := f (classList e);
     content := content e; meta_text := meta_text e; status := status e;
     buttons := buttons e |}.

Definition set_buttons (f : list RetryButton → list RetryButton) (e : Li) :
    Li :=
  {| node := node e; messageId := messageId e; classList := classList e;
     content := content e; meta_text := meta_text e; status := status e;
     buttons := f (buttons e) |}.

(** Mutating the element [n] wherever the list holds it. *)
Definition at_node (n : nat) (f : Li → Li) (e : Li) : Li :=
  if decide (node e = n) then f e else e.

Definition update_li (n : nat) (f : Li → Li) (s : State) : State :=
  set_messagesEl (map (at_node n f) (messagesEl s)) s.

Definition appendChild (e : Li) (s : State) : State :=
  set_messagesEl (messagesEl s ++ [e]) s.

Definition showNotification (message : jsstring) (isError : bool)
    (s : State) : State :=
  set_notifications (notifications s ++ [(message, isError)]) s.

(** The argument of [createMessageElement]; every caller passes a [Date] as
    [createdAt] and none passes [serverTime], so the element never gets a
    [.server-time] span. *)
Record MessageView := {
  m_id : jsval;
  m_sender : jsval;
  m_text : jsval;
  m_createdAt : option Z;
  m_isPending : bool;
  m_status : jsstring
}.

Definition createMessageElement (msg : MessageView) (s : State) : Li * State :=
  ({| node := next_node s;
      messageId := m_id msg;
      classList :=
        if m_isPending msg then ["pending"]
        else if strict_eq (m_sender msg) (JStr (myName s)) then ["me"]
        else [];
      content := (m_sender msg, m_text msg);
      meta_text := toLocaleTimeString (m_createdAt msg);
      status := match m_status msg with
                | [] => None
                | _ => Some (lit " " ++ m_status msg)
                end;
      buttons := [] |},
   set_next_node (S (next_node s)) s).

(** The fields of [updates] that [updateMessageElement] reads ([serverTime]
    and [code] are passed and ignored); an absent field is [undefined], an
    absent [createdAt] is [None]. *)
Record Updates := {
  u_id : jsval;
  u_sender : jsval;
  u_text : jsval;
  u_createdAt : option (option Z);
  u_status : jsval
}.

Definition statusOnly (st : jsstring) : Updates :=
  {| u_id := JUndefined; u_sender := JUndefined; u_text := JUndefined;
     u_createdAt := None; u_status := JStr st |}.

(** [updateMessageElement(li, updates)], on the entry's own [<div>],
    [.meta] and [.status]. *)
Definition updateMessageElement (updates : Updates) (e : Li) : Li :=
  let e1 :=
    if truthy (u_sender updates) && truthy (u_text updates)
    then {| node := node e; messageId := messageId e;
            classList := classList e;
            content := (u_sender updates, u_text updates);
            meta_text := meta_text e; status := status e;
            buttons := buttons e |}
    else e in
  let e2 :=
    match u_createdAt updates with
    | Some d =>
        (* assigning [meta.textContent] drops the children of [meta] *)
        {| node := node e1; messageId := messageId e1;
           classList := classList e1; content := content e1;
           meta_text := toLocaleTimeString d; status := None;
           buttons := [] |}
    | None => e1
    end in
  let e3 :=
    if truthy (u_status updates)
    then {| node := node e2; messageId := messageId e2;
            classList := classList e2; content := content e2;
            meta_text := meta_text e2;
            status := Some (lit " " ++ toString (u_status updates));
            buttons := buttons e2 |}
    else e2 in
  if truthy (u_id updates)
  then {| node := node e3; messageId := u_id updates;
          classList := classList e3; content := content e3;
          meta_text := meta_text e3; status := status e3;
          buttons := buttons e3 |}
  else e3.

(** *** The socket *)

Definition socket_emit (ev : string) (data : obj) (cb : option Callback)
    (s : State) : State :=
  match cb with
  | Some c =>
      set_emitted
        (emitted s ++ [{| event := ev; payload := data;
                          ack_id := Some (ack_ids s) |}])
        (set_acks (<[ack_ids s := c]> (acks s))
           (set_ack_ids (S (ack_ids s)) s))
  | None =>
      set_emitted
        (emitted s ++ [{| event := ev; payload := data; ack_id := None |}]) s
  end.

(** *** Typing signals *)

Definition typingPayload (s : State) : obj :=
  {[ "username" := JStr (myName s) ]}.

Definition handleTyping (s : State) : State :=
  match myName s with
  | [] => s
  | _ =>
      let s1 :=
        if isTyping s then s
        else
          socket_emit "typing" (typingPayload s) None (set_isTyping true s) in
      set_typingTimeout (Some (now s1 + 1000)) s1
  end.

(** The callback of the debounce timer. *)
Definition typingTimeout_fires (s : State) : State :=
  if isTyping s
  then socket_emit "stop_typing" (typingPayload s) None (set_isTyping false s)
  else s.

(** Time passes: the armed timer runs once its deadline is reached. *)
Definition wait (ms : Z) (s : State) : State :=
  let s1 := set_now (now s + Z.max 0 ms) s in
  match typingTimeout s1 with
  | Some deadline =>
      if deadline <=? now s1
      then typingTimeout_fires (set_typingTimeout None s1)
      else s1
  | None => s1
  end.

(** *** Sending *)

Definition tempId_of (n : N) : jsstring := lit "temp-" ++ lit (pretty n).

Definition chatPayload (username text : jsstring) : obj :=
  {[ "username" := JStr username; "text" := JStr text ]}.

(** [(myName || usernameInput.value || 'Anonymous').trim()] *)
Definition senderName (s : State) : jsstring :=
  trim (match myName s, usernameInput s with
        | [], [] => lit "Anonymous"
        | [], u => u
        | n, _ => n
        end).

Definition sendMessage (s : State) : State :=
  let text := trim (msgInput s) in
  let username := senderName s in
  match text with
  | [] => showNotification (lit "Please enter a message") true s
  | _ =>
      let s1 :=
        if isTyping s
        then set_typingTimeout None
               (socket_emit "stop_typing" (typingPayload s) None
                  (set_isTyping false s))
        else s in
      let tempId := tempId_of (tempIdCounter s1) in
      let s2 := set_tempIdCounter (tempIdCounter s1 + 1)%N s1 in
      let (e, s3) :=
        createMessageElement
          {| m_id := JStr tempId; m_sender := JStr username;
             m_text := JStr text; m_createdAt := Some (now s2);
             m_isPending := true;
             m_status := HOURGLASS ++ lit " Sending..." |} s2 in
      let s4 := appendChild e s3 in
      let s5 :=
        set_pendingMessages
          (<[tempId := {| li := node e; username := username; text := text |}]>
             (pendingMessages s4)) s4 in
      let s6 :=
        socket_emit "chat message" (chatPayload username text)
          (Some (AckOf tempId)) s5 in
      set_msgInput [] s6
  end.

(** [addRetryButton(li, username, text)]: the button is appended to the
    entry's own [.meta]. *)
Definition addRetryButton (n : nat) (username text : jsstring)
    (s : State) : State :=
  let retryBtn := {| btn := next_node s; disabled := false;
                     label := lit "Retry"; bound_username := username;
                     bound_text := text |} in
  update_li n (set_buttons (λ bs, bs ++ [retryBtn]))
    (set_next_node (S (next_node s)) s).

(** What [handleAcknowledgement] does with the entry it took out of the
    map: the rest of its body, after [pendingMessages.delete(tempId)]. *)
Definition acknowledged (pending : Pending) (acknowledgement : obj)
    (s1 : State) : State :=
  if strict_eq (field acknowledgement "status") (JStr (lit "success"))
  then
    let s2 :=
      update_li (li pending)
        (updateMessageElement
           {| u_id := field acknowledgement "messageId";
              u_sender := field acknowledgement "sender";
              u_text := field acknowledgement "text";
              u_createdAt :=
                Some (newDate (field acknowledgement "timestamp"));
              u_status := JStr (CHECK_MARK ++ lit " Delivered") |}) s1 in
    let s3 :=
      update_li (li pending) (set_classes (class_remove "pending")) s2 in
    let s4 := update_li (li pending) (set_classes (class_add "me")) s3 in
    showNotification
      (lit "Message sent at "
       ++ toLocaleTimeString (newDate (field acknowledgement "serverTime")))
      false s4
  else
    let reason :=
      toString (jsor (field acknowledgement "message")
                     (field acknowledgement "error")) in
    let s2 :=
      update_li (li pending) (set_classes (class_remove "pending")) s1 in
    let s3 := update_li (li pending) (set_classes (class_add "error")) s2 in
    let s4 :=
      update_li (li pending)
        (updateMessageElement (statusOnly (BALLOT_X ++ lit " " ++ reason)))
        s3 in
    let s5 := showNotification (lit "Failed to send: " ++ reason) true s4 in
    addRetryButton (li pending) (username pending) (text pending) s5.

Definition handleAcknowledgement (tempId : jsstring) (acknowledgement : obj)
    (s : State) : State :=
  match pendingMessages s !! tempId with
  | None => s
  | Some pending =>
      acknowledged pending acknowledgement
        (set_pendingMessages (delete tempId (pendingMessages s)) s)
  end.

(** *** Retry *)

Definition set_button (b : nat) (f : RetryButton → RetryButton) (e : Li) : Li :=
  set_buttons (map (λ r, if decide (btn r = b) then f r else r)) e.

Definition remove_button (b : nat) (e : Li) : Li :=
  set_buttons (filter (λ r, btn r ≠ b)) e.

Definition button_state (d : bool) (l : jsstring) (r : RetryButton) :
    RetryButton :=
  {| btn := btn r; disabled := d; label := l;
     bound_username := bound_username r; bound_text := bound_text r |}.

(** [retryBtn.onclick], for the button [r] of the entry [n]. *)
Definition retry_onclick (n : nat) (r : RetryButton) (s : State) : State :=
  let s1 :=
    update_li n
      (set_button (btn r) (button_state true (lit "Retrying..."))) s in
  let s2 := update_li n (set_classes (class_remove "error")) s1 in
  let s3 := update_li n (set_classes (class_add "pending")) s2 in
  let s4 :=
    update_li n
      (updateMessageElement (statusOnly (HOURGLASS ++ lit " Retrying...")))
      s3 in
  socket_emit "chat message" (chatPayload (bound_username r) (bound_text r))
    (Some (RetryAckOf n (btn r))) s4.

(** The acknowledgement callback of a retry. *)
Definition retry_acknowledged (n b : nat) (acknowledgement : obj)
    (s : State) : State :=
  if strict_eq (field acknowledgement "status") (JStr (lit "success"))
  then
    let s1 :=
      update_li n
        (updateMessageElement
           (statusOnly (CHECK_MARK ++ lit " Delivered (Retried)"))) s in
    let s2 := update_li n (set_classes (class_remove "pending")) s1 in
    let s3 := update_li n (set_classes (class_add "me")) s2 in
    update_li n (remove_button b) s3
  else
    let s1 := update_li n (set_classes (class_remove "pending")) s in
    let s2 := update_li n (set_classes (class_add "error")) s1 in
    let s3 :=
      update_li n
        (updateMessageElement
           (statusOnly
              (BALLOT_X ++ lit " "
               ++ toString (field acknowledgement "message")))) s2 in
    update_li n (set_button b (button_state false (lit "Retry"))) s3.

(** The button [b] of the entry [n], when the list shows it. *)
Definition find_button (n b : nat) (s : State) : option RetryButton :=
  e ← list_find (λ e, node e = n) (messagesEl s);
  r ← list_find (λ r, btn r = b) (buttons e.2);
  Some r.2.

(** A click on a retry button; the browser gives a disabled button no
    click. *)
Definition click_retry (n b : nat) (s : State) : State :=
  match find_button n b s with
  | Some r => if disabled r then s else retry_onclick n r s
  | None => s
  end.

(** *** Incoming events *)

Definition handleIncomingMessage (msg : obj) (s : State) : State :=
  if strict_eq (field msg "sender") (JStr (myName s))
     && truthy (field msg "isBroadcast")
     && negb (truthy (field msg "isOwnMessage"))
  then s
  else
    let (e, s1) :=
      createMessageElement
        {| m_id := field msg "id"; m_sender := field msg "sender";
           m_text := field msg "text";
           m_createdAt := newDate (field msg "createdAt");
           m_isPending := false;
           m_status :=
             if truthy (field msg "isOwnMessage")
             then CHECK_MARK ++ lit " Sent"
             else ENVELOPE ++ lit " Received" |} s in
    let e' :=
      if strict_eq (field msg "sender") (JStr (myName s))
      then set_classes (class_add "me") e else e in
    appendChild e' s1.

Definition showTypingIndicator (user : jsval) (typing : jsval)
    (s : State) : State :=
  if truthy typing
  then set_indicator (Some (toString user ++ lit " is typing...", true)) s
  else match indicator s with
       | Some (t, _) => set_indicator (Some (t, false)) s
       | None => s
       end.

Definition on_user_typing (data : obj) (s : State) : State :=
  if strict_eq (field data "user") (JStr (myName s)) then s
  else showTypingIndicator (field data "user") (field data "isTyping") s.

Definition setUsername (s : State) : State :=
  match trim (usernameInput s) with
  | [] => showNotification (lit "Please enter a name.") true s
  | name =>
      showNotification (lit "Name set to: " ++ name) false (set_myName name s)
  end.

(** The reply to the packet [i] arrives: socket.io runs its callback and
    forgets it. *)
Definition on_ack (i : nat) (reply : obj) (s : State) : State :=
  match acks s !! i with
  | Some cb =>
      let s1 := set_acks (delete i (acks s)) s in
      match cb with
      | AckOf tempId => handleAcknowledgement tempId reply s1
      | RetryAckOf n b => retry_acknowledged n b reply s1
      end
  | None => s
  end.

(** What happens to the page. *)
Inductive ClientEvent :=
| Input (value : jsstring)
| EditUsername (value : jsstring)
| ClickSetUsername
| ClickSend
| KeyPress (key : jsstring)
| ClickRetry (n b : nat)
| Wait (ms : Z)
| AckIn (i : nat) (reply : obj)
| ChatMessageIn (msg : obj)
| UserTypingIn (data : obj).

Definition client_step (s : State) (e : ClientEvent) : State :=
  match e with
  | Input value => handleTyping (set_msgInput value s)
  | EditUsername value => set_usernameInput value s
  | ClickSetUsername => setUsername s
  | ClickSend => sendMessage s
  | KeyPress key => if decide (key = lit "Enter") then sendMessage s else s
  | ClickRetry n b => click_retry n b s
  | Wait ms => wait ms s
  | AckIn i reply => on_ack i reply s
  | ChatMessageIn msg => handleIncomingMessage msg s
  | UserTypingIn data => on_user_typing data s
  end.

Definition client_run (es : list ClientEvent) (s : State) : State :=
  fold_left client_step es s.

(** The page as it loads, with the stored name. *)
Definition load (stored_name : jsstring) : State :=
  {| myName := stored_name; usernameInput := stored_name; msgInput := [];
     pendingMessages := ∅; tempIdCounter := 1; isTyping := false;
     typingTimeout := None; messagesEl := []; next_node := 0; emitted := [];
     acks := ∅; ack_ids := 0; notifications := []; indicator := None;
     now := 0 |}.

(** *** Observations *)

(** The typing signals among the packets sent, oldest first. *)
Definition signals (l : list Emit) : list string :=
  filter (λ ev, ev = "typing" ∨ ev = "stop_typing") (map event l).

(** The state of an entry's attempt, as its classes show it. *)
Inductive AttemptState := Pending_ | Delivered | Failed.

Definition attemptState (e : Li) : option AttemptState :=
  if decide ("pending" ∈ classList e) then Some Pending_
  else if decide ("error" ∈ classList e) then Some Failed
  else if decide ("me" ∈ classList e) then Some Delivered
  else None.

End Client.

(** ** The statements of the delivery protocol *)

Module Protocol.

Import Server.

(** An inbound message whose text is a string that is not blank. *)
Definition has_text (o : obj) (t : jsstring) : Prop :=
  o !! "text" = Some (JStr t) ∧ trim t ≠ [].

(** An inbound message whose text is absent or blank. *)
Definition has_no_text (o : obj) : Prop :=
  o !! "text" = None ∨ ∃ t, o !! "text" = Some (JStr t) ∧ trim t = [].

(** Handling the message [o] of socket [s], whose text is [t], in the world
    [w] persists exactly one record, the one of this message, through
    exactly one [create], and the reply to the sender reports success with
    the id of that record. *)
Definition persists_and_acknowledges (w : World) (s : SocketId) (o : obj)
    (t : jsstring) : Prop :=
  ∃ row w1,
    sendMessage (Some o) (Some s) w
    = (Ret (SendSuccess row (broadcastDataOf row)), w1)
    ∧ db_rows w1 = db_rows w ++ [row]
    ∧ db_calls w1 = db_calls w ++ [(username row, text row)]
    ∧ id row = db_next_id w
    ∧ text row = trim t
    ∧ username row = jsor (field o "username") (JStr (lit "Anonymous"))
    ∧ let w' := (on_chat_message s (Some o) true w).2 in
      db_rows w' = db_rows w ++ [row]
      ∧ db_calls w' = db_calls w ++ [(username row, text row)]
      ∧ ∃ reply,
          acks s (wire w') = acks s (wire w) ++ [reply]
          ∧ field reply "status" = JStr (lit "success")
          ∧ field reply "messageId" = JNum (id row).

(** [sendMessage] fails with the persistence code and the error text [e],
    having sent nothing. *)
Definition fails_with_store_error (w : World) (sid : option SocketId)
    (o : obj) (e : jsstring) : Prop :=
  ∃ w1,
    sendMessage (Some o) sid w = (Ret (SendFailure e DATABASE_ERROR), w1)
    ∧ wire w1 = wire w
    ∧ db_rows w1 = db_rows w.

(** The row [Message.create] makes in [w]. *)
Definition new_row (w : World) (u : jsval) (t : jsstring) : Row :=
  {| id := db_next_id w; username := jsor u (JStr (lit "Anonymous"));
     text := t; createdAt := clock w; updatedAt := clock w |}.

(** [w'] is [w] with more events sent: the store, the registry and the
    replies are the same. *)
Definition same_but_events (w w' : World) : Prop :=
  db_rows w' = db_rows w ∧ db_calls w' = db_calls w
  ∧ db_next_id w' = db_next_id w ∧ db_fault w' = db_fault w
  ∧ clients w' = clients w ∧ io_sockets w' = io_sockets w
  ∧ ∀ s, acks s (wire w') = acks s (wire w).

(** The registry and socket.io agree on who is connected. *)
Definition registry_in_step (w : World) : Prop :=
  dom (clients w) = io_sockets w.

(** Code that leaves the registry and the connected sockets as they are. *)
Definition keeps_registry {A} (c : M A) : Prop :=
  ∀ w, clients (c w).2 = clients w ∧ io_sockets (c w).2 = io_sockets w.

(** Every event on the wire is a "chat message". *)
Definition chat_only (l : list Packet) : Prop :=
  Forall (λ p, match p with
               | Event _ ev _ => ev = "chat message"
               | Ack _ _ => True
               end) l.

(** Code that sends no other event than "chat message". *)
Definition keeps_chat_only {A} (c : M A) : Prop :=
  ∀ w, chat_only (wire w) → chat_only (wire (c w).2).

(** *** Scenarios *)

Definition ann_hi : obj :=
  {[ "username" := JStr (lit "Ann"); "text" := JStr (lit "hi") ]}.

Definition bob_blank : obj :=
  {[ "username" := JStr (lit "Bob"); "text" := JStr (lit "   ") ]}.

Definition ann_typing : obj := {[ "username" := JStr (lit "Ann") ]}.

(** Two clients are connected. *)
Definition two_clients : World :=
  server_run [Connection "s1"; Connection "s2"].

(** Two clients are connected and the database rejects writes with [e]. *)
Definition store_down (e : jsstring) : World :=
  server_run [Connection "s1"; Connection "s2"; Database (Some e)].

End Protocol.

(** ** The statements of the client outbox and of the typing signals *)

Module Outbox.

Import Client.

(** The acknowledgement reports success. *)
Definition is_success (a : obj) : Prop :=
  field a "status" = JStr (lit "success").

(** The temporary id [t] was handed out by an earlier [sendMessage]. *)
Definition issued (t : jsstring) (s : State) : Prop :=
  ∃ k, t = tempId_of k ∧ (k < tempIdCounter s)%N.

(** [t] was handed out and its acknowledgement has been processed. *)
Definition settled (t : jsstring) (s : State) : Prop :=
  issued t s ∧ pendingMessages s !! t = None.

(** [s'] has the pending map and the temporary-id counter of [s]. *)
Definition same_outbox (s s' : State) : Prop :=
  pendingMessages s' = pendingMessages s ∧ tempIdCounter s' = tempIdCounter s.

(** Element identities are allocated in order: the entries of the list are
    older than the next element. *)
Definition wf (s : State) : Prop :=
  Forall (λ e, (node e < next_node s)%nat) (messagesEl s).

(** [f] mutates an element, which stays the same element. *)
Definition keeps_node (f : Li → Li) : Prop := ∀ e, node (f e) = node e.

(** The list shows the entry [e] once, between [pre] and [post]. *)
Definition shown (s : State) (pre : list Li) (e : Li) (post : list Li) : Prop :=
  messagesEl s = pre ++ e :: post
  ∧ Forall (λ x, node x ≠ node e) pre
  ∧ Forall (λ x, node x ≠ node e) post.

(** [r] is the button [b], bound to the sender [u] and the text [t]. *)
Definition the_button (b : nat) (dis : bool) (u t : jsstring)
    (r : RetryButton) : Prop :=
  btn r = b ∧ disabled r = dis ∧ bound_username r = u ∧ bound_text r = t.

(** A failed entry offers its one retry button. *)
Definition failed_entry (e : Li) (b : nat) (u t : jsstring) : Prop :=
  classList e = ["error"]
  ∧ ∃ r, buttons e = [r] ∧ the_button b false u t r.

(** An entry whose retry is in flight has its button disabled. *)
Definition retrying_entry (e : Li) (b : nat) (u t : jsstring) : Prop :=
  classList e = ["pending"]
  ∧ ∃ r, buttons e = [r] ∧ the_button b true u t r.

(** The click handler as one mutation of the entry and one packet. *)
Definition retrying (b : nat) : Li → Li :=
  updateMessageElement (statusOnly (HOURGLASS ++ lit " Retrying..."))
  ∘ set_classes (class_add "pending")
  ∘ set_classes (class_remove "error")
  ∘ set_button b (button_state true (lit "Retrying...")).

(** The failed reply [a] to a retry, as one mutation of the entry. *)
Definition failed_again (b : nat) (a : obj) : Li → Li :=
  set_button b (button_state false (lit "Retry"))
  ∘ updateMessageElement
      (statusOnly (BALLOT_X ++ lit " " ++ toString (field a "message")))
  ∘ set_classes (class_add "error")
  ∘ set_classes (class_remove "pending").

(** The successful reply to a retry, as one mutation of the entry. *)
Definition delivered_by_retry (b : nat) : Li → Li :=
  remove_button b
  ∘ set_classes (class_add "me")
  ∘ set_classes (class_remove "pending")
  ∘ updateMessageElement
      (statusOnly (CHECK_MARK ++ lit " Delivered (Retried)")).

(** The failed reply [a] to the first send, as one mutation of the entry;
    [nn] is the identity the new button gets. *)
Definition failed_first (a : obj) (nn : nat) (u t : jsstring) : Li → Li :=
  set_buttons (λ bs, bs ++ [{| btn := nn; disabled := false;
                               label := lit "Retry"; bound_username := u;
                               bound_text := t |}])
  ∘ updateMessageElement
      (statusOnly
         (BALLOT_X ++ lit " "
          ++ toString (jsor (field a "message") (field a "error"))))
  ∘ set_classes (class_add "error")
  ∘ set_classes (class_remove "pending").

(** A retry: the click and the reply [a] to the send it makes. *)
Definition retry_round (n b : nat) (s : State) (a : obj) : State :=
  retry_acknowledged n b a (click_retry n b s).

(** The "chat message" packets among those sent, oldest first. *)
Definition chat_payloads (l : list Emit) : list obj :=
  map payload (filter (λ p, event p = "chat message") l).

(** The incoming message is appended to the list as a new entry that was
    never pending, and the pending map is left alone. *)
Definition rendered_directly (msg : obj) (s : State) : Prop :=
  ∃ e,
    messagesEl (handleIncomingMessage msg s) = messagesEl s ++ [e]
    ∧ content e = (field msg "sender", field msg "text")
    ∧ ("pending" ∉ classList e)
    ∧ (field msg "sender" = JStr (myName s) → "me" ∈ classList e)
    ∧ pendingMessages (handleIncomingMessage msg s) = pendingMessages s.

(** A broadcast of somebody else's send: the broadcast marker without the
    own-message marker. *)
Definition foreign_broadcast (msg : obj) : Prop :=
  truthy (field msg "isBroadcast") = true
  ∧ truthy (field msg "isOwnMessage") = false.

(** *** Bursts of input *)

(** Keystrokes, each after a pause and leaving the box with a value. *)
Definition keystrokes (l : list (Z * jsstring)) : list ClientEvent :=
  flat_map (λ gv, [Wait gv.1; Input gv.2]) l.

(** A burst: a first keystroke and the ones that follow it. *)
Definition burst (v0 : jsstring) (l : list (Z * jsstring)) : list ClientEvent :=
  Input v0 :: keystrokes l.

(** The burst is unbroken: every keystroke comes before the debounce
    interval after the previous one has elapsed. *)
Definition unbroken (l : list (Z * jsstring)) : Prop :=
  Forall (λ gv, 0 ≤ gv.1 < 1000) l.

(** Nobody is typing and no timer is armed. *)
Definition idle (s : State) : Prop :=
  isTyping s = false ∧ typingTimeout s = None.

(** The typing flag is set and the timer is armed for a full interval. *)
Definition typing_armed (s : State) : Prop :=
  isTyping s = true ∧ typingTimeout s = Some (now s + 1000).

(** The value of the box after a burst. *)
Definition final_value (v0 : jsstring) (l : list (Z * jsstring)) : jsstring :=
  default v0 (last (map snd l)).

(** The typing signals sent while [es] happen to [s]. *)
Definition signals_during (es : list ClientEvent) (s : State) : list string :=
  drop (length (signals (emitted s))) (signals (emitted (client_run es s))).

Definition count_signal (ev : string) (l : list string) : nat :=
  length (filter (λ x, x = ev) l).

(** At most one typing-start and exactly one typing-stop are sent while
    [es] happen to [s]. *)
Definition start_and_stop_once (es : list ClientEvent) (s : State) : Prop :=
  (count_signal "typing" (signals_during es s) ≤ 1)%nat
  ∧ count_signal "stop_typing" (signals_during es s) = 1%nat.

(** *** Scenarios *)

(** The broadcast of a message that another client sent under the name
    "Ann". *)
Definition from_another_ann : obj :=
  {[ "id" := JNum 7; "sender" := JStr (lit "Ann"); "text" := JStr (lit "hi");
     "createdAt" := JDate 1000; "isBroadcast" := JBool true ]}.

(** Ann has typed "hi" into the box. *)
Definition ann_ready : State := set_msgInput (lit "hi") (load (lit "Ann")).

Definition error_reply : obj :=
  {[ "status" := JStr (lit "error");
     "message" := JStr (lit "connect ECONNREFUSED");
     "code" := JStr (lit "DATABASE_ERROR") ]}.

Definition success_reply : obj :=
  {[ "status" := JStr (lit "success"); "messageId" := JNum 1;
     "sender" := JStr (lit "Ann"); "text" := JStr (lit "hi");
     "timestamp" := JDate 1000; "code" := JStr (lit "MESSAGE_SENT") ]}.

End Outbox.

(** ** Starting the server *)

Module Startup.

(** What the process does while it starts, oldest first: a call of
    [sequelize.authenticate()], a pause of [setTimeout], [sequelize.sync()],
    [app.listen()] and [process.exit(code)]. *)
Inductive Step :=
| Authenticate
| Sleep (ms : Z)
| Sync
| Listen
| Exit (code : Z).

#[global] Instance Step_eq_dec : EqDecision Step.
Proof. solve_decision. Defined.

(** The loop of [connectDatabaseWithRetry] from the iteration [i] on, with
    [todo] iterations left.  [authenticate k] is the outcome of the call
    number [k] of [sequelize.authenticate()], counted from 0. *)
Fixpoint attempts (authenticate : nat → outcome unit) (retries : nat)
    (delay : Z) (i todo : nat) : outcome bool * list Step :=
  match todo with
  | O => (Throw (lit "Failed to connect to database"), [])
  | S todo' =>
      match authenticate i with
      | Ret _ => (Ret true, [Authenticate])
      | Throw _ =>
          let rest := attempts authenticate retries delay (S i) todo' in
          (rest.1,
           Authenticate
           :: (if (i <? retries - 1)%nat then [Sleep delay] else [])
           ++ rest.2)
      end
  end.

Definition connectDatabaseWithRetry (authenticate : nat → outcome unit)
    (retries : nat) (delay : Z) : outcome bool * list Step :=
  attempts authenticate retries delay 0 retries.

(** [start], which calls [connectDatabaseWithRetry()] with its defaults;
    [sync] and [listen] are the outcomes of [sequelize.sync()] and
    [app.listen()]. *)
Definition start (authenticate : nat → outcome unit)
    (sync listen : outcome unit) : list Step :=
  match connectDatabaseWithRetry authenticate 3 2000 with
  | (Ret _, l) =>
      l ++ Sync
        :: match sync with
           | Ret _ =>
               Listen :: match listen with
                         | Ret _ => []
                         | Throw _ => [Exit 1]
                         end
           | Throw _ => [Exit 1]
           end
  | (Throw _, l) => l ++ [Exit 1]
  end.

(** The database refuses the calls from number [i] up to, not including,
    number [j]. *)
Definition refused (authenticate : nat → outcome unit) (i j : nat) : Prop :=
  ∀ k, (i ≤ k < j)%nat → ∃ e, authenticate k = Throw e.

(** [n] attempts, each but the last followed by a pause. *)
Definition paced (n : nat) (delay : Z) : list Step :=
  match n with
  | O => []
  | S m => concat (replicate m [Authenticate; Sleep delay]) ++ [Authenticate]
  end.

(** A database that comes up at the call number [k]. *)
Definition up_from (k : nat) (i : nat) : outcome unit :=
  if (i <? k)%nat then Throw (lit "connect ECONNREFUSED") else Ret tt.

End Startup.

(** ** The health probe *)

Module Health.

(** The result of [DatabaseAdapter.checkHealth]. *)
Record DbHealth := {
  healthy : bool;
  message : jsstring
}.

(** [authenticate] is the outcome of [this.db.authenticate()]. *)
Definition checkHealth (authenticate : outcome unit) : outcome DbHealth :=
  match authenticate with
  | Ret _ => Ret {| healthy := true; message := lit "Database connected" |}
  | Throw error_message =>
      Ret {| healthy := false; message := error_message |}
  end.

(** [{ healthy: true, connectedClients }] or
    [{ healthy: false, message: 'Not initialized' }]. *)
Inductive SocketInfo :=
| SocketHealthy (connectedClients : nat)
| SocketNotInitialized.

(** The answer of the route: its status code and its body,
    [{ status: 'healthy', services: { database, websocket } }] or
    [{ status: 'unhealthy', error }]. *)
Inductive Reply :=
| Healthy (database : DbHealth) (websocket : SocketInfo)
| Unhealthy (error : jsstring).

Definition code (r : Reply) : Z :=
  match r with
  | Healthy _ _ => 200
  | Unhealthy _ => 503
  end.

Definition status (r : Reply) : jsstring :=
  match r with
  | Healthy _ _ => lit "healthy"
  | Unhealthy _ => lit "unhealthy"
  end.

(** [app.get('/health')].  [databaseAdapter] is [None] while the variable
    is [null] and otherwise holds the outcome [authenticate] would have;
    [socketAdapter] is [None] while the variable is [null] and otherwise the
    world whose registry the adapter keeps. *)
Definition health (databaseAdapter : option (outcome unit))
    (socketAdapter : option Server.World) : Reply :=
  match
    match databaseAdapter with
    | Some authenticate => checkHealth authenticate
    | None => Ret {| healthy := false; message := lit "Not initialized" |}
    end
  with
  | Ret dbHealth =>
      let socketInfo :=
        match socketAdapter with
        | Some w => SocketHealthy (Server.getClientCount w)
        | None => SocketNotInitialized
        end in
      Healthy dbHealth socketInfo
  | Throw error_message => Unhealthy error_message
  end.

(** The connection status element of the page: [textContent],
    [style.backgroundColor] and [style.display]. *)
Record StatusDiv := {
  textContent : jsstring;
  backgroundColor : jsstring;
  display : jsstring
}.

Definition updateConnectionStatus (text color : jsstring) (d : StatusDiv) :
    StatusDiv :=
  {| textContent := text; backgroundColor := color; display := lit "block" |}.

(** [fetch('/health')] as the page sees it: no answer, or the [status]
    field of the body. *)
Inductive Fetched :=
| Unreachable
| Body (status : jsval).

Definition CROSS_MARK : jsstring := [0x274C%N].

Definition checkServerHealth (r : Fetched) (d : StatusDiv) : StatusDiv :=
  match r with
  | Body st =>
      if strict_eq st (JStr (lit "healthy"))
      then updateConnectionStatus (lit " Healthy") (lit "#28a745") d
      else updateConnectionStatus (lit " Issues Detected") (lit "#ffc107") d
  | Unreachable =>
      updateConnectionStatus (CROSS_MARK ++ lit " Server Unreachable")
        (lit "#dc3545") d
  end.

(** The probe of a page against a server that answers. *)
Definition probe (databaseAdapter : option (outcome unit))
    (socketAdapter : option Server.World) (d : StatusDiv) : StatusDiv :=
  checkServerHealth
    (Body (JStr (status (health databaseAdapter socketAdapter)))) d.

End Health.

(** ** The server before the adapters (the earlier server.js) *)

Module Legacy.

Import Server.

(** [(v || d).trim()]: only strings have the method. *)
Definition or_trim (v : jsval) (d : jsstring) : M jsstring :=
  match jsor v (JStr d) with
  | JStr s => ret (trim s)
  | _ => throw (lit "(intermediate value).trim is not a function")
  end.

(** The event sent for a saved row. *)
Definition chatEvent (saved : Row) : obj :=
  {[ "sender" := username saved; "text" := JStr (text saved);
     "createdAt" := JDate (createdAt saved) ]}.

(** [socket.on("chat message", async (data) => ...)]; [data || {}] reads
    an absent payload as the empty object. *)
Definition on_chat_message (data : option obj) : M unit :=
  try_catch
    (let o := default ∅ data in
     name <- or_trim (field o "username") (lit "Anonymous") ;;
     msgText <- or_trim (field o "text") [] ;;
     match msgText with
     | [] => ret tt
     | _ =>
         saved <- Message_create (JStr name) msgText ;;
         effect (io_emit "chat message" (chatEvent saved))
     end)
    (λ _, ret tt).


End Legacy.

(** ** The chat handler around its wait for the store *)

Module Await.

Import Server.

(** The handler gives control back once, while [Message.create] works:
    the other [await]s resume in the same turn of the event loop.  Events
    that arrive in between (connections, disconnections, other packets,
    whose handlers wait in their turn) are handled before the handler goes
    on, so the registry it then looks into is the one of that later moment.
    The store is taken to have the row from the call on. *)

(** [sendMessage] up to [await this.databaseAdapter.saveMessage(...)]:
    [None] when it returns the validation failure before the call, else the
    arguments of the call. *)
Definition before_save (messageData : option obj) :
    M (option (jsval * jsstring)) :=
  t <- prop messageData "text" ;;
  blank <- (if truthy t
            then (s <- call_trim t ;; ret (bool_decide (s = [])))
            else ret true) ;;
  if (blank : bool) then ret None
  else
    u <- prop messageData "username" ;;
    trimmed <- call_trim t ;;
    ret (Some (jsor u (JStr (lit "Anonymous")), trimmed)).

(** [sendMessage] from the answer of the store on. *)
Definition after_save (senderSocketId : option SocketId)
    (dbResult : DbResult) : M SendResult :=
  match dbResult with
  | DbErr error =>
      ret (SendFailure
             (match error with
              | [] => lit "Failed to save message"
              | _ => error
              end)
             DATABASE_ERROR)
  | DbOk data =>
      let broadcastData := broadcastDataOf data in
      effect (match given senderSocketId with
              | Some s => broadcastExcept s "chat message" broadcastData
              | None => broadcast "chat message" broadcastData
              end) ;;;
      ret (SendSuccess data broadcastData)
  end.

(** The handler from the result of [await messageService.sendMessage(...)]
    on, its [catch] included. *)
Definition finish (s : SocketId) (hasCallback : bool)
    (result : outcome SendResult) : M unit :=
  match result with
  | Ret (SendSuccess rdata broadcastData) =>
      if hasCallback then
        acknowledgementCallback s (successAck rdata) ;;;
        effect (λ w, (sendToClient s "chat message"
                        (<["isOwnMessage" := JBool true]> broadcastData) w).2)
      else ret tt
  | Ret (SendFailure error code) =>
      if hasCallback then acknowledgementCallback s (errorAck error code)
      else ret tt
  | Throw _ =>
      if hasCallback then acknowledgementCallback s internalErrorAck
      else ret tt
  end.

(** Where the handler stands when it gives control back: it has run to its
    end, or it waits for the store, whose answer will be [dbResult]. *)
Inductive Paused :=
| Finished (w : World)
| AwaitingStore (dbResult : DbResult) (w : World).

Definition start_chat_message (s : SocketId) (data : option obj)
    (hasCallback : bool) (w : World) : Paused :=
  match before_save data w with
  | (Ret None, w0) =>
      Finished
        (finish s hasCallback
           (Ret (SendFailure (lit "Message cannot be empty")
                   VALIDATION_ERROR)) w0).2
  | (Ret (Some (u, t)), w0) =>
      match saveMessage u t w0 with
      | (Ret dbResult, w1) => AwaitingStore dbResult w1
      | (Throw e, w1) => Finished (finish s hasCallback (Throw e) w1).2
      end
  | (Throw e, w0) => Finished (finish s hasCallback (Throw e) w0).2
  end.

(** The handler goes on in the world [w] of the moment the store
    answers. *)
Definition resume_chat_message (s : SocketId) (hasCallback : bool)
    (dbResult : DbResult) (w : World) : World :=
  match after_save (Some s) dbResult w with
  | (result, w1) => (finish s hasCallback result w1).2
  end.

(** The world in which the handler gives control back. *)
Definition paused_world (p : Paused) : World :=
  match p with
  | Finished w => w
  | AwaitingStore _ w => w
  end.

(** A handler that waits for the store: the socket of its packet, whether
    the client asked for a reply, and the answer the store will give. *)
Record Waiting := {
  waiting_socket : SocketId;
  waiting_callback : bool;
  waiting_result : DbResult
}.

(** The server between two turns of the event loop: its world, and the
    handlers that wait for the store. *)
Definition Loop : Type := World * list Waiting.

(** A turn of the event loop.  An event is handled in one piece (for a
    "chat message" this is the handler whose store answers before anything
    else happens); or the handler of a "chat message" packet runs up to its
    wait; or the [k]-th of the waiting handlers goes on, in any order. *)
Inductive Turn :=
| Handle (e : ServerEvent)
| Start (s : SocketId) (data : option obj) (hasCallback : bool)
| Resume (k : nat).

Definition turn (st : Loop) (t : Turn) : Loop :=
  match t with
  | Handle e => (server_step st.1 e, st.2)
  | Start s data hasCallback =>
      if decide (s ∈ io_sockets st.1) then
        match start_chat_message s data hasCallback st.1 with
        | Finished w1 => (w1, st.2)
        | AwaitingStore dbResult w1 =>
            (w1, st.2 ++ [{| waiting_socket := s;
                             waiting_callback := hasCallback;
                             waiting_result := dbResult |}])
        end
      else st
  | Resume k =>
      match st.2 !! k with
      | Some h =>
          (resume_chat_message (waiting_socket h) (waiting_callback h)
             (waiting_result h) st.1,
           delete k st.2)
      | None => st
      end
  end.

Definition turns (l : list Turn) (st : Loop) : Loop := fold_left turn l st.

(** The server after the turns [l], from its start. *)
Definition event_loop (l : list Turn) : Loop := turns l (boot, []).

(** The registry agrees with socket.io, and the store numbers its rows
    from 1. *)
Definition loop_in_step (st : Loop) : Prop :=
  Protocol.registry_in_step st.1 ∧ 1 ≤ db_next_id st.1.

(** The handler of one packet, with the turns [mid] taken while the store
    works on its message. *)
Definition on_chat_message_during (s : SocketId) (data : option obj)
    (hasCallback : bool) (mid : list Turn) (st : Loop) : Loop :=
  match start_chat_message s data hasCallback st.1 with
  | Finished w1 => turns mid (w1, st.2)
  | AwaitingStore dbResult w1 =>
      let st2 := turns mid (w1, st.2) in
      (resume_chat_message s hasCallback dbResult st2.1, st2.2)
  end.

End Await.

(** ** What the server keeps true of its store and of the wire *)

Module Ledger.

Import Server.

(** A stored message has a text that is not empty and carries no blanks
    at its ends, and a sender whose name is truthy. *)
Definition well_formed_row (r : Row) : Prop :=
  text r ≠ [] ∧ trim (text r) = text r ∧ truthy (username r) = true.

(** The payload announces the row: it is its broadcast data, with or
    without the own-message marker. *)
Definition announces (r : Row) (p : obj) : Prop :=
  p = broadcastDataOf r
  ∨ p = <["isOwnMessage" := JBool true]> (broadcastDataOf r).

(** The packet tells of a row of [rows]: an event announces one, a reply
    that reports success acknowledges one. *)
Definition from_store (rows : list Row) (p : Packet) : Prop :=
  match p with
  | Event _ ev payload =>
      ev = "chat message" ∧ ∃ r, r ∈ rows ∧ announces r payload
  | Ack _ reply =>
      field reply "status" = JStr (lit "success") →
      ∃ r, r ∈ rows ∧ reply = successAck r
  end.

(** The payload is absent, or its text is a truthy value that is not a
    string. *)
Definition malformed (d : option obj) : Prop :=
  d = None
  ∨ ∃ o v, d = Some o ∧ o !! "text" = Some v ∧ truthy v = true
           ∧ ∀ x, v ≠ JStr x.

(** What the socket [s'] is sent when the message of the connected socket
    [s] has been stored as [row]; [hasCallback] tells whether the sender
    asked for a reply. *)
Definition share (w : World) (s : SocketId) (hasCallback : bool) (row : Row)
    (s' : SocketId) : list (string * obj) :=
  if decide (s' = s) then
    if hasCallback
    then [("chat message",
           <["isOwnMessage" := JBool true]> (broadcastDataOf row))]
    else []
  else if decide (s' ∈ io_sockets w)
       then [("chat message", broadcastDataOf row)]
       else [].

(** A payload whose text is the number 42. *)
Definition numeric_text : obj :=
  {[ "username" := JStr (lit "Ann"); "text" := JNum 42 ]}.

End Ledger.

(** ** The history of the page *)

Module History.

Import Client.

(** A row of the answer of [/api/messages], as the page reads it; the time
    of a stored row is a date. *)
Record Item := {
  id : jsval;
  username : jsval;
  text : jsval;
  createdAt : Z
}.

(** What [fetch('/api/messages')] comes to: no answer, an answer that is
    not [ok], or the rows of the body. *)
Inductive Fetched :=
| Unreachable
| NotOk
| Items (items : list Item).

(** [items.sort((a, b) => new Date(a.createdAt) - new Date(b.createdAt))]:
    ascending by time; [Array.prototype.sort] is stable. *)
Fixpoint insert_by_date (m : Item) (l : list Item) : list Item :=
  match l with
  | [] => [m]
  | x :: l' =>
      if createdAt m <=? createdAt x then m :: l else x :: insert_by_date m l'
  end.

Definition sort (items : list Item) : list Item :=
  foldr insert_by_date [] items.

(** The body of [items.forEach]. *)
Definition render (m : Item) (s : State) : State :=
  let (e, s1) :=
    createMessageElement
      {| m_id := id m; m_sender := username m; m_text := text m;
         m_createdAt := Some (createdAt m); m_isPending := false;
         m_status :=
           if strict_eq (username m) (JStr (myName s))
           then CHECK_MARK ++ lit " Delivered"
           else ENVELOPE ++ lit " Received" |} s in
  let e' :=
    if strict_eq (username m) (JStr (myName s))
    then set_classes (class_add "me") e else e in
  appendChild e' s1.

Definition loadPreviousMessages (r : Fetched) (s : State) : State :=
  match r with
  | Items items => fold_left (λ s m, render m s) (sort items) s
  | Unreachable | NotOk =>
      showNotification (lit "Could not load previous messages") true s
  end.

(** The entry the page makes of the row [m] as the element [n], for a user
    named [name]. *)
Definition entry_of (name : jsstring) (n : nat) (m : Item) : Li :=
  {| node := n; messageId := id m;
     classList :=
       if strict_eq (username m) (JStr name) then ["me"] else [];
     content := (username m, text m);
     meta_text := toLocaleTimeString (Some (createdAt m));
     status :=
       Some (lit " "
             ++ (if strict_eq (username m) (JStr name)
                 then CHECK_MARK ++ lit " Delivered"
                 else ENVELOPE ++ lit " Received"));
     buttons := [] |}.

(** [entry_of] for the rows [l], as the elements from [n] on. *)
Fixpoint entries_of (name : jsstring) (n : nat) (l : list Item) : list Li :=
  match l with
  | [] => []
  | m :: l' => entry_of name n m :: entries_of name (S n) l'
  end.

(** The times of the rows do not decrease along the list. *)
Fixpoint ascending (l : list Item) : Prop :=
  match l with
  | [] => True
  | x :: l' => Forall (λ y, createdAt x ≤ createdAt y) l' ∧ ascending l'
  end.

(** The rows with the time [t], in the order of the list. *)
Definition at_time (t : Z) (l : list Item) : list Item :=
  filter (λ m, createdAt m = t) l.

End History.

(** ** What the page keeps true *)

Module Page.

Import Client Outbox.

(** What happens to the page: the events of the client and the arrival of
    the history. *)
Inductive PageEvent :=
| Ui (e : ClientEvent)
| HistoryIn (r : History.Fetched).

Definition page_step (s : State) (e : PageEvent) : State :=
  match e with
  | Ui e => client_step s e
  | HistoryIn r => History.loadPreviousMessages r s
  end.

Definition page_run (es : list PageEvent) (s : State) : State :=
  fold_left page_step es s.

(** A name that holds no markup: no [<].  The page writes the sender into
    the markup of an entry as it is, and finds the [.meta] and the [.status]
    of an entry by selector; for such a name they are the entry's own. *)
Definition plain (name : jsstring) : bool :=
  forallb (λ c, negb (c =? 60)%N) name.

(** A text the server will take: not empty, no blanks at its ends. *)
Definition sendable (t : jsstring) : Prop := t ≠ [] ∧ trim t = t.

(** An entry has at most one retry button, and the button re-sends the
    sender and the text that the entry shows. *)
Definition entry_ok (e : Li) : Prop :=
  (length (buttons e) ≤ 1)%nat
  ∧ Forall (λ r, sendable (bound_text r)
                 ∧ content e = (JStr (bound_username r), JStr (bound_text r)))
      (buttons e).

(** The entry of a message that awaits its reply. *)
Definition awaits (p : Pending) (e : Li) : Prop :=
  node e = li p ∧ classList e = ["pending"] ∧ buttons e = []
  ∧ content e = (JStr (username p), JStr (text p)).

(** The invariant, on the list [l], the next element identity [k], the
    pending map [P], the callbacks [A] socket.io holds and the "chat
    message" payloads [C] sent so far. *)
Record page_inv (l : list Li) (k : nat) (P : gmap jsstring Pending)
    (A : gmap nat Callback) (C : list obj) : Prop := {
  nodes_distinct : NoDup (map node l);
  nodes_allocated : Forall (λ e, (node e < k)%nat) l;
  entries_ok : Forall entry_ok l;
  pending_shown :
    ∀ t p, P !! t = Some p →
           sendable (text p) ∧ ∃ e, e ∈ l ∧ awaits p e;
  pending_apart :
    ∀ t t' p p', P !! t = Some p → P !! t' = Some p' → li p = li p' →
                 t = t';
  retries_apart :
    ∀ i n b, A !! i = Some (RetryAckOf n b) →
             (n < k)%nat ∧ ∀ t p, P !! t = Some p → li p ≠ n;
  sent_sendable :
    Forall (λ c, ∃ u t, c = chatPayload u t ∧ sendable t) C
}.

Definition page_ok (s : State) : Prop :=
  page_inv (messagesEl s) (next_node s) (pendingMessages s) (acks s)
    (chat_payloads (emitted s)).

(** [s'] differs from [s] in nothing the invariant reads. *)
Definition same_page (s s' : State) : Prop :=
  messagesEl s' = messagesEl s ∧ next_node s' = next_node s
  ∧ pendingMessages s' = pendingMessages s ∧ acks s' = acks s
  ∧ chat_payloads (emitted s') = chat_payloads (emitted s).

(** What the typing signals sent so far say: [Some true] after a start,
    [Some false] after a stop or before any signal, [None] when a start
    follows a start or a stop does not follow a start. *)
Definition said (l : list string) : option bool :=
  fold_left
    (λ st ev,
       match st with
       | Some false => if decide (ev = "typing") then Some true else None
       | Some true => if decide (ev = "stop_typing") then Some false else None
       | None => None
       end) l (Some false).

(** The debounce timer is armed exactly while the typing flag is set, and
    its deadline is at most one interval away. *)
Definition debounced (s : State) : Prop :=
  match typingTimeout s with
  | Some deadline => isTyping s = true ∧ deadline ≤ now s + 1000
  | None => isTyping s = false
  end.

(** [s'] differs from [s] in nothing the typing signals depend on. *)
Definition same_typing (s s' : State) : Prop :=
  isTyping s' = isTyping s ∧ typingTimeout s' = typingTimeout s
  ∧ now s' = now s ∧ signals (emitted s') = signals (emitted s).

End Page.

(** ** The route of the history *)

Module Routes.

Import Server.

(** The result of [DatabaseAdapter.getMessages]:
    [{ success: true, data }] or [{ success: false, error }]. *)
Inductive Messages :=
| MessagesOk (data : list Row)
| MessagesErr (error : jsstring).

(** [findAll] is the outcome of
    [Message.findAll({ order: [["createdAt", "DESC"]], limit })]. *)
Definition getMessages (findAll : outcome (list Row)) : Messages :=
  match findAll with
  | Ret messages => MessagesOk messages
  | Throw error_message => MessagesErr error_message
  end.

(** The answer of [app.get('/api/messages')]: the rows, or a status code
    with [{ error }]. *)
Inductive Answer :=
| Rows (data : list Row)
| Refused (code : Z) (error : jsstring).

(** [databaseAdapter] is [None] while the variable is [null] and otherwise
    holds the outcome [findAll] would have. *)
Definition api_messages (databaseAdapter : option (outcome (list Row))) :
    Answer :=
  match databaseAdapter with
  | None => Refused 503 (lit "Database adapter not ready")
  | Some findAll =>
      match getMessages findAll with
      | MessagesOk data => Rows data
      | MessagesErr error => Refused 500 error
      end
  end.

(** A row as the page reads it from the body. *)
Definition item_of (r : Row) : History.Item :=
  {| History.id := JNum (id r); History.username := username r;
     History.text := JStr (text r); History.createdAt := createdAt r |}.

(** What [fetch] makes of the answer: an answer with a status of 200 is
    [ok], one with 500 or 503 is not. *)
Definition fetched (a : Answer) : History.Fetched :=
  match a with
  | Rows data => History.Items (map item_of data)
  | Refused _ _ => History.NotOk
  end.

End Routes.

(** ** Markup *)

Module Html.

(** The serialisation of one code unit of a text node: the ampersand, the
    angle brackets and the no-break space become character references. *)
Definition escape_unit (c : N) : jsstring :=
  if (c =? 38)%N then lit "&amp;"
  else if (c =? 60)%N then lit "&lt;"
  else if (c =? 62)%N then lit "&gt;"
  else if (c =? 160)%N then lit "&nbsp;"
  else [c].

(** [escapeHtml(text)] for a string: the [innerHTML] of an element whose
    [textContent] is [text]. *)
Definition escapeHtml (text : jsstring) : jsstring :=
  flat_map escape_unit text.

End Html.

(** ** The page and the server, one fed with what the other sends *)

Module Replay.

(** What the page last sent as a "chat message". *)
Definition last_sent (p : Client.State) : option obj :=
  last (Outbox.chat_payloads (Client.emitted p)).

(** The last reply of the server to the socket [s]. *)
Definition last_reply (s : string) (w : Server.World) : obj :=
  default ∅ (last (Server.acks s (Server.wire w))).

(** The payload of the last event the server sent to the socket [s]. *)
Definition last_event (s : string) (w : Server.World) : obj :=
  default ∅ (snd <$> last (Server.delivered s (Server.wire w))).

(** Ann, on the socket "s1", sends "hi" while the store is down, and
    retries once it is up again. *)
Definition page_sent : Client.State :=
  Client.client_step Outbox.ann_ready Client.ClickSend.

Definition server_failed : Server.World :=
  Server.server_step (Protocol.store_down (lit "connect ECONNREFUSED"))
    (Server.Packet_in "s1" "chat message" (last_sent page_sent) true).

Definition page_failed : Client.State :=
  Client.client_step page_sent
    (Client.AckIn 0 (last_reply "s1" server_failed)).

Definition page_retrying : Client.State :=
  Client.client_step page_failed (Client.ClickRetry 0 1).

Definition server_stored : Server.World :=
  Server.server_step
    (Server.server_step server_failed (Server.Database None))
    (Server.Packet_in "s1" "chat message" (last_sent page_retrying) true).

Definition page_acknowledged : Client.State :=
  Client.client_step page_retrying
    (Client.AckIn 1 (last_reply "s1" server_stored)).

Definition page_final : Client.State :=
  Client.client_step page_acknowledged
    (Client.ChatMessageIn (last_event "s1" server_stored)).

(** Two users named Ann, on the sockets "s1" and "s2": the first sends
    "hi". *)
Definition ann_sent : Server.World :=
  Server.server_step Protocol.two_clients
    (Server.Packet_in "s1" "chat message" (Some Protocol.ann_hi) true).

End Replay.

(** * Properties of the server *)

Set Warnings "-clear-no-such-hyp".

Section Examples.

Import Server Protocol.

Example trim_strips_both_ends :
  trim (lit "  hi there ") = lit "hi there"
  ∧ trim (lit "   ") = []
  ∧ trim [9; 160; 0x3000; 104; 0xFEFF]%N = [104%N].
Proof. repeat split. Qed.

Example or_takes_the_first_truthy :
  jsor (JStr []) (JStr (lit "Anonymous")) = JStr (lit "Anonymous")
  ∧ jsor JUndefined (JStr (lit "Anonymous")) = JStr (lit "Anonymous")
  ∧ jsor (JStr (lit "Ann")) (JStr (lit "Anonymous")) = JStr (lit "Ann").
Proof. repeat split. Qed.

Example first_temporary_id : Client.tempId_of 1 = lit "temp-1".
Proof. reflexivity. Qed.

(** Ann, on socket "s1", says "hi" while "s2" is connected: one row, the
    broadcast to "s2", the reply and the own-message copy to "s1". *)
Example ann_says_hi :
  let row := {| id := 1; username := JStr (lit "Ann"); text := lit "hi";
                createdAt := 0; updatedAt := 0 |} in
  let w' := server_step two_clients
              (Packet_in "s1" "chat message" (Some ann_hi) true) in
  db_rows w' = [row]
  ∧ delivered "s2" (wire w') = [("chat message", broadcastDataOf row)]
  ∧ acks "s1" (wire w') = [successAck row]
  ∧ delivered "s1" (wire w')
    = [("chat message",
        <["isOwnMessage" := JBool true]> (broadcastDataOf row))].
Proof. repeat split; vm_compute; reflexivity. Qed.

(** Bob sends blanks: nothing is stored or broadcast, and he is told so. *)
Example bob_sends_blanks :
  let w' := server_step two_clients
              (Packet_in "s1" "chat message" (Some bob_blank) true) in
  db_rows w' = [] ∧ db_calls w' = []
  ∧ delivered "s2" (wire w') = [] ∧ delivered "s1" (wire w') = []
  ∧ acks "s1" (wire w')
    = [errorAck (lit "Message cannot be empty") VALIDATION_ERROR].
Proof. repeat split; vm_compute; reflexivity. Qed.

End Examples.

Section ServerFacts.

Import Server Protocol.

Lemma field_lookup (o : obj) (k : string) (v : jsval) :
  o !! k = Some v → field o k = v.
Proof. unfold field. by intros ->. Qed.

Lemma field_absent (o : obj) (k : string) :
  o !! k = None → field o k = JUndefined.
Proof. unfold field. by intros ->. Qed.

Lemma trim_nil : trim [] = [].
Proof. reflexivity. Qed.

Lemma not_blank_truthy (t : jsstring) : trim t ≠ [] → truthy (JStr t) = true.
Proof. destruct t; [by rewrite trim_nil | done]. Qed.

Lemma jsor_idemp (u d : jsval) : jsor (jsor u d) d = jsor u d.
Proof.
  unfold jsor. destruct (truthy u) eqn:Hu; [by rewrite Hu |].
  by destruct (truthy d).
Qed.

Lemma codes_distinct : VALIDATION_ERROR ≠ DATABASE_ERROR.
Proof. discriminate. Qed.

Lemma saveMessage_up (w : World) (u : jsval) (t : jsstring) :
  db_fault w = None →
  ∃ w1, saveMessage u t w = (Ret (DbOk (new_row w u t)), w1)
        ∧ db_rows w1 = db_rows w ++ [new_row w u t]
        ∧ db_calls w1 = db_calls w ++ [(jsor u (JStr (lit "Anonymous")), t)]
        ∧ wire w1 = wire w ∧ clients w1 = clients w
        ∧ io_sockets w1 = io_sockets w.
Proof.
  intros Hup. unfold saveMessage, try_catch, bind, Message_create, ret.
  rewrite Hup. simpl. eexists. split; [reflexivity |]. simpl. done.
Qed.

Lemma saveMessage_down (w : World) (u : jsval) (t e : jsstring) :
  db_fault w = Some e →
  ∃ w1, saveMessage u t w = (Ret (DbErr e), w1)
        ∧ db_rows w1 = db_rows w
        ∧ db_calls w1 = db_calls w ++ [(jsor u (JStr (lit "Anonymous")), t)]
        ∧ wire w1 = wire w ∧ clients w1 = clients w
        ∧ io_sockets w1 = io_sockets w.
Proof.
  intros Hdown. unfold saveMessage, try_catch, bind, Message_create, ret.
  rewrite Hdown. simpl. eexists. split; [reflexivity |]. simpl. done.
Qed.

(** [sendMessage] on a message with text, up to the store's answer. *)
Lemma sendMessage_with_text (w : World) (o : obj) (t : jsstring)
    (sid : option SocketId) :
  has_text o t →
  sendMessage (Some o) sid w
  = match saveMessage (jsor (field o "username") (JStr (lit "Anonymous")))
            (trim t) w with
    | (Ret (DbErr error), w1) =>
        (Ret (SendFailure
                (match error with
                 | [] => lit "Failed to save message"
                 | _ => error
                 end) DATABASE_ERROR), w1)
    | (Ret (DbOk data), w1) =>
        (Ret (SendSuccess data (broadcastDataOf data)),
         match given sid with
         | Some s => broadcastExcept s "chat message" (broadcastDataOf data) w1
         | None => broadcast "chat message" (broadcastDataOf data) w1
         end)
    | (Throw e, w1) => (Throw e, w1)
    end.
Proof.
  intros [Ho Ht]. unfold sendMessage, bind at 1, prop, ret at 1.
  rewrite (field_lookup _ _ _ Ho), (not_blank_truthy _ Ht).
  unfold bind at 1, bind at 1, call_trim, ret at 1 2.
  rewrite bool_decide_eq_false_2 by done.
  unfold bind at 1, ret at 1, bind at 1, ret at 1, bind at 1.
  destruct (saveMessage _ _ w) as [[[data | error] | e] w1]; try reflexivity.
  unfold bind, effect, ret. by destruct (given sid).
Qed.

Lemma acks_snoc_event (s : SocketId) (l : list Packet) (a : gset SocketId)
    (ev : string) (p : obj) :
  acks s (l ++ [Event a ev p]) = acks s l.
Proof. unfold acks. rewrite omap_app. simpl. by rewrite app_nil_r. Qed.

Lemma acks_snoc_ack (s : SocketId) (l : list Packet) (p : obj) :
  acks s (l ++ [Ack s p]) = acks s l ++ [p].
Proof. unfold acks. rewrite omap_app. simpl. by rewrite decide_True. Qed.

Lemma broadcastExcept_events (w : World) (s : SocketId) (ev : string)
    (p : obj) :
  same_but_events w (broadcastExcept s ev p w).
Proof.
  unfold broadcastExcept, same_but_events.
  destruct (clients w !! s); simpl; repeat split; auto.
  intros s'. apply acks_snoc_event.
Qed.

Lemma broadcast_events (w : World) (ev : string) (p : obj) :
  same_but_events w (broadcast ev p w).
Proof.
  unfold same_but_events; simpl; repeat split; auto.
  intros s'. apply acks_snoc_event.
Qed.

Lemma sendToClient_events (w : World) (s : SocketId) (ev : string) (p : obj) :
  same_but_events w (sendToClient s ev p w).2.
Proof.
  unfold sendToClient, same_but_events.
  destruct (clients w !! s); simpl; repeat split; auto.
  intros s'. apply acks_snoc_event.
Qed.

Lemma announce_events (w : World) (sid : option SocketId) (p : obj) :
  same_but_events w
    match given sid with
    | Some s => broadcastExcept s "chat message" p w
    | None => broadcast "chat message" p w
    end.
Proof.
  destruct (given sid); [apply broadcastExcept_events | apply broadcast_events].
Qed.

(** [sendMessage] on a message without text. *)
Lemma sendMessage_blank (w : World) (o : obj) (sid : option SocketId) :
  has_no_text o →
  sendMessage (Some o) sid w
  = (Ret (SendFailure (lit "Message cannot be empty") VALIDATION_ERROR), w).
Proof.
  intros [Ho | (t & Ho & Ht)]; unfold sendMessage, bind at 1, prop, ret at 1.
  - by rewrite (field_absent _ _ Ho).
  - rewrite (field_lookup _ _ _ Ho).
    destruct t as [| c t']; [done |].
    cbn [truthy]. unfold bind, call_trim, ret.
    by rewrite Ht.
Qed.

(** The handler, by the result of [sendMessage]. *)
Lemma on_chat_message_success (w w2 : World) (s : SocketId) (d : option obj)
    (row : Row) (bd : obj) :
  sendMessage d (Some s) w = (Ret (SendSuccess row bd), w2) →
  (on_chat_message s d true w).2
  = (sendToClient s "chat message" (<["isOwnMessage" := JBool true]> bd)
       (set_wire (λ l, l ++ [Ack s (successAck row)]) w2)).2.
Proof.
  intros H. unfold on_chat_message, try_catch, bind. rewrite H. reflexivity.
Qed.

Lemma on_chat_message_failure (w w2 : World) (s : SocketId) (d : option obj)
    (e c : jsstring) :
  sendMessage d (Some s) w = (Ret (SendFailure e c), w2) →
  (on_chat_message s d true w).2
  = set_wire (λ l, l ++ [Ack s (errorAck e c)]) w2.
Proof.
  intros H. unfold on_chat_message, try_catch, bind. rewrite H. reflexivity.
Qed.

Lemma on_chat_message_thrown (w w2 : World) (s : SocketId) (d : option obj)
    (e : jsstring) :
  sendMessage d (Some s) w = (Throw e, w2) →
  (on_chat_message s d true w).2
  = set_wire (λ l, l ++ [Ack s internalErrorAck]) w2.
Proof.
  intros H. unfold on_chat_message, try_catch, bind. rewrite H. reflexivity.
Qed.

Lemma on_chat_message_silent (w : World) (s : SocketId) (d : option obj) :
  (on_chat_message s d false w).2 = (sendMessage d (Some s) w).2.
Proof.
  unfold on_chat_message, try_catch, bind.
  by destruct (sendMessage d (Some s) w) as [[r | e] w2].
Qed.

Lemma delivered_snoc_ack (s to : SocketId) (l : list Packet) (p : obj) :
  delivered s (l ++ [Ack to p]) = delivered s l.
Proof. unfold delivered. rewrite omap_app. simpl. by rewrite app_nil_r. Qed.

Lemma delivered_snoc_event (s : SocketId) (l : list Packet)
    (a : gset SocketId) (ev : string) (p : obj) :
  delivered s (l ++ [Event a ev p])
  = delivered s l ++ (if decide (s ∈ a) then [(ev, p)] else []).
Proof. unfold delivered. rewrite omap_app. simpl. by destruct (decide _). Qed.

(** *** The registry is only touched by connects and disconnects *)

Lemma keeps_ret {A} (a : A) : keeps_registry (ret a).
Proof. done. Qed.

Lemma keeps_throw {A} (e : jsstring) : keeps_registry (@throw A e).
Proof. done. Qed.

Lemma keeps_bind {A B} (c : M A) (k : A → M B) :
  keeps_registry c → (∀ a, keeps_registry (k a)) → keeps_registry (bind c k).
Proof.
  intros Hc Hk w. unfold bind. specialize (Hc w).
  destruct (c w) as [[a | e] w1]; simpl in *; [| done].
  destruct (Hk a w1) as [-> ->]. done.
Qed.

Lemma keeps_try_catch {A} (c : M A) (h : jsstring → M A) :
  keeps_registry c → (∀ e, keeps_registry (h e)) →
  keeps_registry (try_catch c h).
Proof.
  intros Hc Hh w. unfold try_catch. specialize (Hc w).
  destruct (c w) as [[a | e] w1]; simpl in *; [done |].
  destruct (Hh e w1) as [-> ->]. done.
Qed.

Lemma keeps_effect (f : World → World) :
  (∀ w, clients (f w) = clients w ∧ io_sockets (f w) = io_sockets w) →
  keeps_registry (effect f).
Proof. intros Hf w. apply Hf. Qed.

Lemma keeps_saveMessage (u : jsval) (t : jsstring) :
  keeps_registry (saveMessage u t).
Proof.
  intros w. unfold saveMessage, try_catch, bind, Message_create, ret.
  by destruct (db_fault w).
Qed.

Lemma keeps_prop (d : option obj) (f : string) : keeps_registry (prop d f).
Proof. destruct d; [apply keeps_ret | apply keeps_throw]. Qed.

Lemma keeps_call_trim (v : jsval) : keeps_registry (call_trim v).
Proof. destruct v; first [apply keeps_ret | apply keeps_throw]. Qed.

Lemma keeps_sendMessage (d : option obj) (sid : option SocketId) :
  keeps_registry (sendMessage d sid).
Proof.
  unfold sendMessage.
  apply keeps_bind; [apply keeps_prop | intros t].
  apply keeps_bind.
  { destruct (truthy t); [| apply keeps_ret].
    apply keeps_bind; [apply keeps_call_trim | intros; apply keeps_ret]. }
  intros [|]; [apply keeps_ret |].
  apply keeps_bind; [apply keeps_prop | intros u].
  apply keeps_bind; [apply keeps_call_trim | intros trimmed].
  apply keeps_bind; [apply keeps_saveMessage | intros [data | error]].
  - apply keeps_bind; [| intros; apply keeps_ret].
    apply keeps_effect. intros w.
    destruct (given sid) as [s |];
      [pose proof (broadcastExcept_events w s "chat message"
                     (broadcastDataOf data)) as H
      | pose proof (broadcast_events w "chat message"
                      (broadcastDataOf data)) as H];
      destruct H as (_ & _ & _ & _ & Hc & Hi & _); done.
  - apply keeps_ret.
Qed.

Lemma keeps_acknowledgementCallback (s : SocketId) (reply : obj) :
  keeps_registry (acknowledgementCallback s reply).
Proof. by apply keeps_effect. Qed.

Lemma keeps_on_chat_message (s : SocketId) (d : option obj) (cb : bool) :
  keeps_registry (on_chat_message s d cb).
Proof.
  unfold on_chat_message. apply keeps_try_catch.
  - apply keeps_bind; [apply keeps_sendMessage | intros result].
    destruct cb; [| apply keeps_ret].
    destruct result as [e c | data bd].
    + apply keeps_acknowledgementCallback.
    + apply keeps_bind; [apply keeps_acknowledgementCallback | intros _].
      apply keeps_effect. intros w.
      pose proof (sendToClient_events w s "chat message"
                    (<["isOwnMessage" := JBool true]> bd))
        as (_ & _ & _ & _ & Hc & Hi & _).
      done.
  - intros e.
    destruct cb; [apply keeps_acknowledgementCallback | apply keeps_ret].
Qed.

Lemma server_step_in_step (w : World) (e : ServerEvent) :
  registry_in_step w → registry_in_step (server_step w e).
Proof.
  unfold registry_in_step. intros Hw.
  destruct e as [s | s | s ev d cb | f | ms]; simpl; try done.
  - rewrite dom_insert_L, Hw. apply set_eq. intros x.
    rewrite !elem_of_union, elem_of_singleton. tauto.
  - unfold on_disconnect, handleDisconnection. simpl.
    destruct (decide _) as [Hin | Hout]; simpl.
    + rewrite dom_delete_L. by rewrite Hw.
    + rewrite <- Hw. rewrite <- elem_of_dom in Hout.
      apply set_eq. intros x.
      rewrite elem_of_difference, elem_of_singleton.
      split; [intros Hx; split; [done | by intros ->] | tauto].
  - unfold on_packet. destruct (decide _); [| done].
    destruct (decide _); [| done].
    destruct (keeps_on_chat_message s d cb w) as [-> ->]. done.
Qed.

Lemma reachable_in_step (w : World) : reachable w → registry_in_step w.
Proof.
  intros [es ->]. unfold server_run.
  assert (H : ∀ w0, registry_in_step w0 →
                    registry_in_step (fold_left server_step es w0)).
  { induction es as [| e es IH]; intros w0 Hw0; simpl; [done |].
    apply IH. by apply server_step_in_step. }
  apply H. unfold registry_in_step. simpl. set_solver.
Qed.

(** *** The only event the server sends is "chat message" *)

Lemma chat_only_snoc_event (l : list Packet) (a : gset SocketId) (p : obj) :
  chat_only l → chat_only (l ++ [Event a "chat message" p]).
Proof. intros Hl. apply Forall_app. split; [done |]. by constructor. Qed.

Lemma chat_only_snoc_ack (l : list Packet) (s : SocketId) (p : obj) :
  chat_only l → chat_only (l ++ [Ack s p]).
Proof. intros Hl. apply Forall_app. split; [done |]. by constructor. Qed.

Lemma chat_ret {A} (a : A) : keeps_chat_only (ret a).
Proof. by intros w. Qed.

Lemma chat_throw {A} (e : jsstring) : keeps_chat_only (@throw A e).
Proof. by intros w. Qed.

Lemma chat_bind {A B} (c : M A) (k : A → M B) :
  keeps_chat_only c → (∀ a, keeps_chat_only (k a)) →
  keeps_chat_only (bind c k).
Proof.
  intros Hc Hk w Hw. unfold bind. specialize (Hc w Hw).
  destruct (c w) as [[a | e] w1]; simpl in *; [| done].
  by apply Hk.
Qed.

Lemma chat_try_catch {A} (c : M A) (h : jsstring → M A) :
  keeps_chat_only c → (∀ e, keeps_chat_only (h e)) →
  keeps_chat_only (try_catch c h).
Proof.
  intros Hc Hh w Hw. unfold try_catch. specialize (Hc w Hw).
  destruct (c w) as [[a | e] w1]; simpl in *; [done |].
  by apply Hh.
Qed.

Lemma chat_effect (f : World → World) :
  (∀ w, chat_only (wire w) → chat_only (wire (f w))) →
  keeps_chat_only (effect f).
Proof. intros Hf w. apply Hf. Qed.

Lemma chat_sendMessage (d : option obj) (sid : option SocketId) :
  keeps_chat_only (sendMessage d sid).
Proof.
  unfold sendMessage.
  apply chat_bind; [destruct d; [apply chat_ret | apply chat_throw] |].
  intros t. apply chat_bind.
  { destruct (truthy t); [| apply chat_ret].
    apply chat_bind; [| intros; apply chat_ret].
    destruct t; first [apply chat_ret | apply chat_throw]. }
  intros [|]; [apply chat_ret |].
  apply chat_bind; [destruct d; [apply chat_ret | apply chat_throw] |].
  intros u. apply chat_bind.
  { destruct t; first [apply chat_ret | apply chat_throw]. }
  intros trimmed. apply chat_bind.
  { intros w Hw. unfold saveMessage, try_catch, bind, Message_create, ret.
    by destruct (db_fault w). }
  intros [data | error]; [| apply chat_ret].
  apply chat_bind; [| intros; apply chat_ret].
  apply chat_effect. intros w Hw.
  destruct (given sid) as [s |]; [unfold broadcastExcept |].
  - destruct (clients w !! s); [| done]. by apply chat_only_snoc_event.
  - by apply chat_only_snoc_event.
Qed.

Lemma chat_on_chat_message (s : SocketId) (d : option obj) (cb : bool) :
  keeps_chat_only (on_chat_message s d cb).
Proof.
  unfold on_chat_message. apply chat_try_catch.
  - apply chat_bind; [apply chat_sendMessage | intros result].
    destruct cb; [| apply chat_ret].
    destruct result as [e c | data bd].
    + apply chat_effect. intros w Hw. by apply chat_only_snoc_ack.
    + apply chat_bind; [| intros _].
      * apply chat_effect. intros w Hw. by apply chat_only_snoc_ack.
      * apply chat_effect. intros w Hw. unfold sendToClient.
        destruct (clients w !! s); [| done]. by apply chat_only_snoc_event.
  - intros e. destruct cb; [| apply chat_ret].
    apply chat_effect. intros w Hw. by apply chat_only_snoc_ack.
Qed.

Lemma server_run_chat_only (es : list ServerEvent) :
  chat_only (wire (server_run es)).
Proof.
  unfold server_run.
  assert (H : ∀ w, chat_only (wire w) →
                   chat_only (wire (fold_left server_step es w))).
  { induction es as [| e es IH]; intros w Hw; simpl; [done |].
    apply IH. destruct e as [s | s | s ev d cb | f | ms]; simpl; try done.
    - unfold on_disconnect, handleDisconnection. simpl.
      by destruct (decide _).
    - unfold on_packet. destruct (decide _); [| done].
      destruct (decide _); [| done]. by apply chat_on_chat_message. }
  apply H. constructor.
Qed.

Lemma chat_only_delivered (s : SocketId) (l : list Packet) :
  chat_only l → Forall (λ ep, ep.1 = "chat message") (delivered s l).
Proof.
  induction 1 as [| p l Hp _ IH]; simpl; [constructor |].
  destruct p as [a ev pl | to pl]; [| done].
  destruct (decide (s ∈ a)); [| done]. by constructor.
Qed.

End ServerFacts.

Section Delivery.

Import Server Protocol.

(** C1 (as amended).  For every inbound chat message whose text is a string
    that is not blank, and provided the store accepts the record,
    [sendMessage] persists exactly one record through exactly one [create],
    and the reply to the sender's callback reports success with [messageId]
    equal to the id the store assigned to that record. *)
Theorem sendMessage_persists_one_record (w : World) (s : SocketId) (o : obj)
    (t : jsstring) :
  has_text o t → db_fault w = None → persists_and_acknowledges w s o t.
Proof.
  intros Ho Hup.
  set (u := jsor (field o "username") (JStr (lit "Anonymous"))).
  destruct (saveMessage_up w u (trim t) Hup)
    as (w1 & Hsave & Hrows & Hcalls & Hwire & _).
  set (row := new_row w u (trim t)) in *.
  pose proof (announce_events w1 (Some s) (broadcastDataOf row))
    as (Ar & Ac & _ & _ & _ & _ & Aa).
  assert (Hsend : sendMessage (Some o) (Some s) w
                  = (Ret (SendSuccess row (broadcastDataOf row)),
                     match given (Some s) with
                     | Some s' =>
                         broadcastExcept s' "chat message"
                           (broadcastDataOf row) w1
                     | None => broadcast "chat message" (broadcastDataOf row) w1
                     end)).
  { rewrite (sendMessage_with_text _ _ _ _ Ho). fold u. by rewrite Hsave. }
  eexists row, _. split; [exact Hsend |].
  split; [by rewrite Ar |]. split; [by rewrite Ac |]. split; [done |].
  split; [done |]. split; [apply jsor_idemp |].
  cbv zeta. rewrite (on_chat_message_success _ _ _ _ _ _ Hsend).
  match goal with
  | |- context [sendToClient s ?ev ?p ?w0] =>
      pose proof (sendToClient_events w0 s ev p)
        as (Sr & Sc & _ & _ & _ & _ & Sa)
  end.
  rewrite Sr, Sc, Sa. cbn [set_wire db_rows db_calls wire].
  rewrite Ar, Ac, acks_snoc_ack, Aa, Hwire.
  split; [done |]. split; [done |].
  by exists (successAck row).
Qed.

(** At this input C1 as the specification words it fails: the text is not
    blank, the database refuses the write, and no record is persisted. *)
Lemma sendMessage_store_down_persists_nothing :
  has_text ann_hi (lit "hi")
  ∧ ¬ persists_and_acknowledges (store_down (lit "connect ECONNREFUSED"))
        "s1" ann_hi (lit "hi").
Proof.
  split; [split; [reflexivity | discriminate] |].
  intros (row & w1 & Hsend & _). vm_compute in Hsend. discriminate.
Qed.

Lemma sendMessage_persists_one_record_witness :
  persists_and_acknowledges two_clients "s1" ann_hi (lit "hi").
Proof.
  apply (sendMessage_persists_one_record two_clients "s1" ann_hi (lit "hi")).
  - split; [reflexivity | vm_compute; discriminate].
  - reflexivity.
Defined.

(** C2.  For every inbound message whose text is absent or trims to the
    empty string, [sendMessage] returns the validation failure, whose code
    differs from the persistence code, in an unchanged world: [create] is not
    called, nothing is persisted and no event is delivered to any session,
    also when the connection handler runs it. *)
Theorem sendMessage_rejects_blank_text (w : World) (o : obj)
    (sid : option SocketId) :
  has_no_text o →
  sendMessage (Some o) sid w
  = (Ret (SendFailure (lit "Message cannot be empty") VALIDATION_ERROR), w)
  ∧ VALIDATION_ERROR ≠ DATABASE_ERROR
  ∧ ∀ s cb,
      let w' := (on_chat_message s (Some o) cb w).2 in
      db_calls w' = db_calls w ∧ db_rows w' = db_rows w
      ∧ ∀ s', delivered s' (wire w') = delivered s' (wire w).
Proof.
  intros Ho.
  pose proof (λ sid', sendMessage_blank w o sid' Ho) as Hsend.
  split; [apply Hsend |]. split; [apply codes_distinct |].
  intros s [|]; cbv zeta.
  - rewrite (on_chat_message_failure _ _ _ _ _ _ (Hsend (Some s))).
    cbn [set_wire db_calls db_rows wire]. repeat split.
    intros s'. apply delivered_snoc_ack.
  - by rewrite on_chat_message_silent, Hsend.
Qed.

Lemma sendMessage_rejects_blank_text_witness :
  sendMessage (Some bob_blank) (Some "s1") two_clients
  = (Ret (SendFailure (lit "Message cannot be empty") VALIDATION_ERROR),
     two_clients).
Proof.
  apply (sendMessage_rejects_blank_text two_clients bob_blank (Some "s1")).
  right. exists (lit "   "). split; reflexivity.
Defined.

(** C3 (as amended).  Whenever the store's [create] fails, [sendMessage]
    returns a failure whose code differs from the validation code and which
    carries the store's error text when that text is not empty, and the
    fixed text "Failed to save message" when it is; nothing is persisted
    and no event is delivered to any session. *)
Theorem sendMessage_reports_store_failure (w : World) (o : obj)
    (t : jsstring) (sid : option SocketId) (e : jsstring) :
  has_text o t → db_fault w = Some e →
  fails_with_store_error w sid o
    (match e with [] => lit "Failed to save message" | _ => e end)
  ∧ DATABASE_ERROR ≠ VALIDATION_ERROR
  ∧ ∀ s cb s',
      delivered s' (wire (on_chat_message s (Some o) cb w).2)
      = delivered s' (wire w).
Proof.
  intros Ho Hdown.
  set (u := jsor (field o "username") (JStr (lit "Anonymous"))).
  destruct (saveMessage_down w u (trim t) e Hdown)
    as (w1 & Hsave & Hrows & Hcalls & Hwire & _).
  assert (Hsend : ∀ sid', sendMessage (Some o) sid' w
            = (Ret (SendFailure
                      (match e with
                       | [] => lit "Failed to save message"
                       | _ => e
                       end) DATABASE_ERROR), w1)).
  { intros sid'. rewrite (sendMessage_with_text _ _ _ _ Ho). fold u.
    by rewrite Hsave. }
  split; [by exists w1 |]. split; [done |].
  intros s [|] s'.
  - rewrite (on_chat_message_failure _ _ _ _ _ _ (Hsend (Some s))).
    cbn [set_wire wire]. by rewrite delivered_snoc_ack, Hwire.
  - rewrite on_chat_message_silent, Hsend. cbn [snd]. by rewrite Hwire.
Qed.

(** At this input C3 as the specification words it fails: the store's error
    has an empty message, and the failure carries another text. *)
Lemma sendMessage_replaces_empty_store_error :
  has_text ann_hi (lit "hi")
  ∧ db_fault (store_down []) = Some []
  ∧ ¬ fails_with_store_error (store_down []) (Some "s1") ann_hi [].
Proof.
  split; [split; [reflexivity | discriminate] |]. split; [reflexivity |].
  intros (w1 & Hsend & _). vm_compute in Hsend. discriminate.
Qed.

Lemma sendMessage_reports_store_failure_witness :
  fails_with_store_error (store_down (lit "connect ECONNREFUSED"))
    (Some "s1") ann_hi (lit "connect ECONNREFUSED").
Proof.
  apply (sendMessage_reports_store_failure
           (store_down (lit "connect ECONNREFUSED")) ann_hi (lit "hi")
           (Some "s1") (lit "connect ECONNREFUSED")).
  - split; [reflexivity | vm_compute; discriminate].
  - reflexivity.
Defined.

(** C4.  In every state the server reaches, [broadcastExcept] delivers the
    event to exactly the registered sessions other than [originId] when
    [originId] is registered, and to nobody when it is not (the call then
    changes nothing); so it delivers to nobody when [originId] is the only
    registered session. *)
Theorem broadcastExcept_reaches_the_others (w : World) (originId : SocketId)
    (ev : string) (data : obj) :
  reachable w →
  (∀ s, delivered s (wire (broadcastExcept originId ev data w))
        = delivered s (wire w)
          ++ (if decide (originId ∈ dom (clients w) ∧ s ∈ dom (clients w)
                         ∧ s ≠ originId)
              then [(ev, data)] else []))
  ∧ (originId ∉ dom (clients w) → broadcastExcept originId ev data w = w)
  ∧ (dom (clients w) = {[originId]} →
     ∀ s, delivered s (wire (broadcastExcept originId ev data w))
          = delivered s (wire w)).
Proof.
  intros Hw. apply reachable_in_step in Hw. unfold registry_in_step in Hw.
  assert (Hall : ∀ s, delivered s (wire (broadcastExcept originId ev data w))
        = delivered s (wire w)
          ++ (if decide (originId ∈ dom (clients w) ∧ s ∈ dom (clients w)
                         ∧ s ≠ originId)
              then [(ev, data)] else [])).
  { intros s. unfold broadcastExcept.
    destruct (clients w !! originId) as [c |] eqn:Ho.
    - cbn [socket_broadcast_emit set_wire wire].
      rewrite delivered_snoc_event, <- Hw. f_equal.
      assert (Hin : originId ∈ dom (clients w)) by (apply elem_of_dom; eauto).
      destruct (decide (s ∈ dom (clients w) ∖ {[originId]})) as [Hs | Hs];
        rewrite elem_of_difference, elem_of_singleton in Hs.
      + case_decide; [done | tauto].
      + case_decide; [tauto | done].
    - apply not_elem_of_dom in Ho.
      case_decide; [tauto | by rewrite app_nil_r]. }
  split; [exact Hall |]. split.
  - intros Ho. apply not_elem_of_dom in Ho. unfold broadcastExcept.
    by rewrite Ho.
  - intros Honly s. rewrite Hall.
    destruct (decide _) as [(_ & Hs & Hne) | _]; [| by rewrite app_nil_r].
    rewrite Honly, elem_of_singleton in Hs. done.
Qed.

Lemma broadcastExcept_reaches_the_others_witness :
  delivered "s2" (wire (broadcastExcept "s1" "chat message" ann_hi two_clients))
  = [("chat message", ann_hi)]
  ∧ delivered "s1"
      (wire (broadcastExcept "s1" "chat message" ann_hi two_clients))
    = [].
Proof.
  destruct (broadcastExcept_reaches_the_others two_clients "s1"
              "chat message" ann_hi) as (H & _).
  - exists [Connection "s1"; Connection "s2"]. reflexivity.
  - split; rewrite H; vm_compute; reflexivity.
Defined.

(** C6 (the code at the failing input).  The connection handler registers
    no listener for "typing" or "stop_typing": such a packet changes
    nothing, whatever the state of the server.  With two clients connected
    the other one receives nothing, and in no run does the server deliver a
    "user_typing" event to anyone. *)
Theorem typing_packets_are_dropped :
  (∀ w s data cb,
     on_packet s "typing" data cb w = w
     ∧ on_packet s "stop_typing" data cb w = w)
  ∧ delivered "s2"
      (wire (server_step two_clients
               (Packet_in "s1" "typing" (Some ann_typing) false)))
    = []
  ∧ ∀ es s payload,
      ("user_typing", payload) ∉ delivered s (wire (server_run es)).
Proof.
  split; [| split; [vm_compute; reflexivity |]].
  - intros w s data cb. unfold on_packet.
    destruct (decide (s ∈ io_sockets w)); [| done].
    by rewrite !decide_False.
  - intros es s payload Hin.
    pose proof (chat_only_delivered s _ (server_run_chat_only es)) as Hall.
    rewrite Forall_forall in Hall. specialize (Hall _ Hin). done.
Qed.

End Delivery.

(** * Properties of the client *)

Section ClientFacts.

Import Client Outbox.

Lemma strict_eq_str (v : jsval) (x : jsstring) :
  strict_eq v (JStr x) = true ↔ v = JStr x.
Proof.
  destruct v; simpl; try (split; [discriminate | discriminate]).
  rewrite bool_decide_eq_true. split; [by intros -> | by intros [= ->]].
Qed.

Lemma lit_inj (a b : string) : lit a = lit b → a = b.
Proof.
  revert b. induction a as [| c a IH]; intros [| d b]; simpl; try done.
  intros [= Hc Hab]. f_equal; [| by apply IH].
  rewrite <- (ascii_N_embedding c), <- (ascii_N_embedding d). by rewrite Hc.
Qed.

Lemma tempId_of_inj (j k : N) : tempId_of j = tempId_of k → j = k.
Proof.
  unfold tempId_of. intros H. apply app_inv_head in H.
  apply lit_inj in H. by apply (inj pretty) in H.
Qed.

Lemma elem_of_class_add (x c : string) (l : list string) :
  x ∈ class_add c l ↔ x = c ∨ x ∈ l.
Proof.
  unfold class_add. destruct (decide (c ∈ l)) as [Hin | Hout].
  - split; [by right | by intros [-> | ?]].
  - rewrite elem_of_app, list_elem_of_singleton. tauto.
Qed.

(** *** Incoming messages *)

Lemma handleIncomingMessage_dropped (msg : obj) (s : State) :
  field msg "sender" = JStr (myName s) → foreign_broadcast msg →
  handleIncomingMessage msg s = s.
Proof.
  intros Hs [Hb Ho]. unfold handleIncomingMessage.
  apply strict_eq_str in Hs. by rewrite Hs, Hb, Ho.
Qed.

Lemma handleIncomingMessage_shown (msg : obj) (s : State) :
  field msg "sender" ≠ JStr (myName s)
  ∨ truthy (field msg "isBroadcast") = false
  ∨ truthy (field msg "isOwnMessage") = true →
  rendered_directly msg s.
Proof.
  intros Hcase. unfold rendered_directly, handleIncomingMessage.
  destruct (strict_eq (field msg "sender") (JStr (myName s))) eqn:Hs.
  - assert (Hguard : truthy (field msg "isBroadcast")
                     && negb (truthy (field msg "isOwnMessage")) = false).
    { apply strict_eq_str in Hs.
      destruct Hcase as [Hc | [-> | ->]]; [done | done |].
      by rewrite andb_false_r. }
    cbn [andb]. rewrite Hguard. cbn [createMessageElement m_isPending m_sender].
    rewrite Hs. eexists. split; [reflexivity |].
    cbn. split; [done |]. split; [| split; [| done]].
    + rewrite elem_of_class_add, list_elem_of_singleton. by intros [? | ?].
    + intros _. apply elem_of_class_add. by left.
  - cbn [andb createMessageElement m_isPending m_sender]. rewrite Hs.
    eexists. split; [reflexivity |]. cbn.
    split; [done |]. split; [apply not_elem_of_nil |].
    split; [| done].
    intros Heq. apply strict_eq_str in Heq. congruence.
Qed.

(** The message the server sends back to the sender after a success is
    rendered as an entry of its own. *)
Lemma handleIncomingMessage_own (msg : obj) (s : State) :
  truthy (field msg "isOwnMessage") = true →
  ∃ e,
    messagesEl (handleIncomingMessage msg s) = messagesEl s ++ [e]
    ∧ node e = next_node s
    ∧ status e = Some (lit " " ++ CHECK_MARK ++ lit " Sent")
    ∧ buttons e = [].
Proof.
  intros Hown. unfold handleIncomingMessage.
  rewrite Hown, andb_false_r. cbn [createMessageElement].
  destruct (strict_eq _ _); eexists; repeat split.
Qed.

(** *** The pending map *)

Lemma handleAcknowledgement_absent (t : jsstring) (a : obj) (s : State) :
  pendingMessages s !! t = None → handleAcknowledgement t a s = s.
Proof. intros H. unfold handleAcknowledgement, acknowledged. by rewrite H. Qed.

Lemma handleAcknowledgement_outbox (t : jsstring) (a : obj) (s : State) :
  pendingMessages (handleAcknowledgement t a s) = delete t (pendingMessages s)
  ∧ tempIdCounter (handleAcknowledgement t a s) = tempIdCounter s.
Proof.
  unfold handleAcknowledgement, acknowledged.
  destruct (pendingMessages s !! t) as [p |] eqn:Hp.
  - by destruct (strict_eq _ _).
  - split; [| done]. symmetry. by apply delete_id.
Qed.

Lemma acknowledged_outbox (p : Pending) (a : obj) (s : State) :
  same_outbox s (acknowledged p a s).
Proof. unfold acknowledged. by destruct (strict_eq _ _). Qed.

Lemma handleTyping_outbox (s : State) : same_outbox s (handleTyping s).
Proof.
  unfold handleTyping. destruct (myName s); [done |].
  by destruct (isTyping s).
Qed.

Lemma wait_outbox (ms : Z) (s : State) : same_outbox s (wait ms s).
Proof.
  unfold wait, typingTimeout_fires. simpl.
  destruct (typingTimeout s) as [d |]; [| done].
  destruct (d <=? _); [| done]. simpl.
  by destruct (isTyping s).
Qed.

Lemma setUsername_outbox (s : State) : same_outbox s (setUsername s).
Proof. unfold setUsername. by destruct (trim (usernameInput s)). Qed.

Lemma click_retry_outbox (n b : nat) (s : State) :
  same_outbox s (click_retry n b s).
Proof.
  unfold click_retry. destruct (find_button n b s) as [r |]; [| done].
  by destruct (disabled r).
Qed.

Lemma retry_acknowledged_outbox (n b : nat) (a : obj) (s : State) :
  same_outbox s (retry_acknowledged n b a s).
Proof. unfold retry_acknowledged. by destruct (strict_eq _ _). Qed.

Lemma handleIncomingMessage_outbox (msg : obj) (s : State) :
  same_outbox s (handleIncomingMessage msg s).
Proof.
  unfold handleIncomingMessage.
  destruct (_ && _); [done |]. by destruct (strict_eq _ _).
Qed.

Lemma on_user_typing_outbox (data : obj) (s : State) :
  same_outbox s (on_user_typing data s).
Proof.
  unfold on_user_typing, showTypingIndicator.
  destruct (strict_eq _ _); [done |]. destruct (truthy _); [done |].
  by destruct (indicator s) as [[? ?] |].
Qed.

(** [sendMessage] either sends nothing or hands out the next id. *)
Lemma sendMessage_outbox (s : State) :
  same_outbox s (sendMessage s)
  ∨ ∃ p, pendingMessages (sendMessage s)
         = <[tempId_of (tempIdCounter s) := p]> (pendingMessages s)
         ∧ tempIdCounter (sendMessage s) = (tempIdCounter s + 1)%N.
Proof.
  unfold sendMessage. destruct (trim (msgInput s)); [by left |].
  right. destruct (isTyping s); eexists; split; reflexivity.
Qed.

Lemma sendMessage_settled (t : jsstring) (s : State) :
  settled t s → settled t (sendMessage s).
Proof.
  intros [(k & -> & Hk) Hnone].
  destruct (sendMessage_outbox s) as [[Hp Hc] | (p & Hp & Hc)];
    (split; [exists k; split; [done | rewrite Hc; lia] |]); rewrite Hp.
  - done.
  - rewrite lookup_insert_ne; [done |].
    intros Heq. apply tempId_of_inj in Heq. lia.
Qed.

Lemma same_outbox_settled (t : jsstring) (s s' : State) :
  same_outbox s s' → settled t s → settled t s'.
Proof.
  intros [Hp Hc] [(k & -> & Hk) Hnone].
  split; [exists k; by rewrite Hc | by rewrite Hp].
Qed.

Lemma handleAcknowledgement_settled (t t' : jsstring) (a : obj) (s : State) :
  settled t s → settled t (handleAcknowledgement t' a s).
Proof.
  intros [(k & -> & Hk) Hnone].
  destruct (handleAcknowledgement_outbox t' a s) as [Hp Hc].
  split; [exists k; by rewrite Hc |]. rewrite Hp.
  destruct (decide (t' = tempId_of k)) as [-> | Hne].
  - apply lookup_delete_eq.
  - by rewrite lookup_delete_ne.
Qed.

Lemma client_step_settled (t : jsstring) (s : State) (e : ClientEvent) :
  settled t s → settled t (client_step s e).
Proof.
  intros Hs.
  destruct e as [v | v | | | key | n b | ms | i reply | msg | data]; simpl.
  - apply (same_outbox_settled t (set_msgInput v s)); [| done].
    apply handleTyping_outbox.
  - done.
  - by apply (same_outbox_settled t s); [apply setUsername_outbox |].
  - by apply sendMessage_settled.
  - destruct (decide _); [by apply sendMessage_settled | done].
  - by apply (same_outbox_settled t s); [apply click_retry_outbox |].
  - by apply (same_outbox_settled t s); [apply wait_outbox |].
  - unfold on_ack. destruct (acks s !! i) as [[t' | n b] |]; [| | done].
    + by apply handleAcknowledgement_settled.
    + apply (same_outbox_settled t (set_acks (delete i (acks s)) s)); [| done].
      apply retry_acknowledged_outbox.
  - by apply (same_outbox_settled t s); [apply handleIncomingMessage_outbox |].
  - by apply (same_outbox_settled t s); [apply on_user_typing_outbox |].
Qed.

Lemma client_run_settled (t : jsstring) (es : list ClientEvent) (s : State) :
  settled t s → settled t (client_run es s).
Proof.
  revert s. induction es as [| e es IH]; intros s Hs; simpl; [done |].
  apply IH. by apply client_step_settled.
Qed.

(** *** Typing signals *)

Lemma signals_snoc (l : list Emit) (e : Emit) :
  signals (l ++ [e])
  = signals l
    ++ (if decide (event e = "typing" ∨ event e = "stop_typing")
        then [event e] else []).
Proof.
  unfold signals. rewrite map_app, filter_app. reflexivity.
Qed.

Lemma signals_during_app (es : list ClientEvent) (s : State) (l : list string) :
  signals (emitted (client_run es s)) = signals (emitted s) ++ l →
  signals_during es s = l.
Proof. unfold signals_during. intros ->. by rewrite drop_app_length. Qed.

Lemma client_run_app (es1 es2 : list ClientEvent) (s : State) :
  client_run (es1 ++ es2) s = client_run es2 (client_run es1 s).
Proof. unfold client_run. apply fold_left_app. Qed.

Lemma first_keystroke (v : jsstring) (s : State) :
  myName s ≠ [] → idle s →
  let s' := client_step s (Input v) in
  typing_armed s' ∧ myName s' = myName s ∧ msgInput s' = v
  ∧ signals (emitted s') = signals (emitted s) ++ ["typing"].
Proof.
  intros Hname [Hidle Htimer]. destruct s; simpl in *; subst.
  unfold handleTyping. simpl.
  destruct myName0 as [| c name]; [done |]. simpl.
  repeat split. apply signals_snoc.
Qed.

Lemma next_keystroke (g : Z) (v : jsstring) (s : State) :
  myName s ≠ [] → typing_armed s → 0 ≤ g < 1000 →
  let s' := client_run [Wait g; Input v] s in
  typing_armed s' ∧ myName s' = myName s ∧ msgInput s' = v
  ∧ emitted s' = emitted s.
Proof.
  intros Hname [Htyping Htimer] Hg. destruct s; simpl in *; subst.
  unfold wait. simpl.
  replace (now0 + 1000 <=? now0 + Z.max 0 g) with false
    by (symmetry; apply Z.leb_gt; lia).
  unfold handleTyping. simpl.
  destruct myName0 as [| c name]; [done |]. simpl. done.
Qed.

Lemma keystrokes_armed (l : list (Z * jsstring)) (v0 : jsstring) (s : State) :
  myName s ≠ [] → typing_armed s → msgInput s = v0 → unbroken l →
  let s' := client_run (keystrokes l) s in
  typing_armed s' ∧ myName s' = myName s ∧ msgInput s' = final_value v0 l
  ∧ emitted s' = emitted s.
Proof.
  revert v0 s. induction l as [| [g v] l IH]; intros v0 s Hname Harmed Hv Hl.
  - done.
  - apply Forall_cons in Hl as [Hg Hl].
    destruct (next_keystroke g v s Hname Harmed Hg) as (Ha & Hn & Hm & He).
    change (client_run (keystrokes ((g, v) :: l)) s)
      with (client_run (keystrokes l) (client_run [Wait g; Input v] s)).
    destruct (IH v (client_run [Wait g; Input v] s)) as (Ha' & Hn' & Hm' & He');
      [by rewrite Hn | done | done | done |].
    cbv zeta. rewrite Hn', Hn, He', He. repeat split; [apply Ha' | apply Ha' |].
    rewrite Hm'. unfold final_value. simpl.
    by destruct (last (map snd l)) eqn:Hlast; rewrite ?last_cons, Hlast.
Qed.

Lemma burst_armed (v0 : jsstring) (l : list (Z * jsstring)) (s : State) :
  myName s ≠ [] → idle s → unbroken l →
  let s' := client_run (burst v0 l) s in
  typing_armed s' ∧ myName s' = myName s ∧ msgInput s' = final_value v0 l
  ∧ signals (emitted s') = signals (emitted s) ++ ["typing"].
Proof.
  intros Hname Hidle Hl.
  destruct (first_keystroke v0 s Hname Hidle) as (Ha & Hn & Hm & He).
  change (client_run (burst v0 l) s)
    with (client_run (keystrokes l) (client_step s (Input v0))).
  destruct (keystrokes_armed l v0 (client_step s (Input v0)))
    as (Ha' & Hn' & Hm' & He'); [by rewrite Hn | done | done | done |].
  cbv zeta. by rewrite Hn', Hn, He', He.
Qed.

Lemma quiet_fires (d : Z) (s : State) :
  typing_armed s → 1000 ≤ d →
  idle (wait d s)
  ∧ signals (emitted (wait d s)) = signals (emitted s) ++ ["stop_typing"].
Proof.
  intros [Htyping Htimer] Hd. destruct s; simpl in *; subst.
  unfold wait. simpl.
  replace (now0 + 1000 <=? now0 + Z.max 0 d) with true
    by (symmetry; apply Z.leb_le; lia).
  unfold typingTimeout_fires. simpl. split; [done |]. apply signals_snoc.
Qed.

Lemma send_stops (d : Z) (s : State) :
  typing_armed s → d < 1000 → trim (msgInput s) ≠ [] →
  idle (sendMessage (wait d s))
  ∧ signals (emitted (sendMessage (wait d s)))
    = signals (emitted s) ++ ["stop_typing"].
Proof.
  intros [Htyping Htimer] Hd Htext. destruct s; simpl in *; subst.
  unfold wait. simpl.
  replace (now0 + 1000 <=? now0 + Z.max 0 d) with false
    by (symmetry; apply Z.leb_gt; lia).
  unfold sendMessage. simpl.
  destruct (trim msgInput0) as [| c text]; [done |]. simpl.
  split; [done |].
  by rewrite signals_snoc, signals_snoc, app_nil_r.
Qed.

Lemma idle_wait (d : Z) (s : State) :
  idle s → idle (wait d s) ∧ emitted (wait d s) = emitted s.
Proof.
  intros [Htyping Htimer]. destruct s; simpl in *; subst. done.
Qed.

(** Without a name nothing is sent by typing. *)
Lemma nameless_keystroke (v : jsstring) (s : State) :
  myName s = [] → idle s →
  let s' := client_step s (Input v) in
  myName s' = [] ∧ idle s' ∧ emitted s' = emitted s.
Proof.
  intros Hname [Htyping Htimer]. destruct s; simpl in *; subst. done.
Qed.

Lemma nameless_keystrokes (l : list (Z * jsstring)) (s : State) :
  myName s = [] → idle s →
  let s' := client_run (keystrokes l) s in
  myName s' = [] ∧ idle s' ∧ emitted s' = emitted s.
Proof.
  revert s. induction l as [| [g v] l IH]; intros s Hname Hidle; [done |].
  change (client_run (keystrokes ((g, v) :: l)) s)
    with (client_run (keystrokes l) (client_step (wait g s) (Input v))).
  destruct (idle_wait g s Hidle) as [Hi He].
  assert (Hn : myName (wait g s) = []).
  { destruct Hidle as [_ Ht]. unfold wait. simpl. rewrite Ht. done. }
  destruct (nameless_keystroke v (wait g s) Hn Hi) as (Hn' & Hi' & He').
  destruct (IH _ Hn' Hi') as (Hn'' & Hi'' & He'').
  cbv zeta. by rewrite He'', He', He.
Qed.

(** *** Entries of the list and their retry button *)

Lemma keeps_node_set_classes (g : list string → list string) :
  keeps_node (set_classes g).
Proof. done. Qed.

Lemma keeps_node_set_buttons (g : list RetryButton → list RetryButton) :
  keeps_node (set_buttons g).
Proof. done. Qed.

Lemma keeps_node_update (u : Updates) : keeps_node (updateMessageElement u).
Proof.
  intros e. unfold updateMessageElement.
  destruct (_ && _), (u_createdAt u), (truthy (u_status u)),
    (truthy (u_id u)); done.
Qed.

Lemma keeps_node_compose (f g : Li → Li) :
  keeps_node f → keeps_node g → keeps_node (f ∘ g).
Proof. intros Hf Hg e. simpl. by rewrite Hf, Hg. Qed.

Lemma update_li_compose (n : nat) (f g : Li → Li) (s : State) :
  keeps_node g → update_li n f (update_li n g s) = update_li n (f ∘ g) s.
Proof.
  intros Hg. unfold update_li, set_messagesEl. simpl. f_equal.
  rewrite map_map. apply map_ext. intros e. unfold at_node.
  destruct (decide (node e = n)) as [He | He].
  - by rewrite decide_True by (by rewrite Hg).
  - by rewrite decide_False.
Qed.

Lemma map_at_node_others (n : nat) (f : Li → Li) (l : list Li) :
  Forall (λ x, node x ≠ n) l → map (at_node n f) l = l.
Proof.
  induction 1 as [| x l Hx _ IH]; simpl; [done |].
  unfold at_node at 1. rewrite decide_False by done. by rewrite IH.
Qed.

Lemma update_li_shown (s : State) (pre post : list Li) (e : Li) (f : Li → Li) :
  shown s pre e post →
  messagesEl (update_li (node e) f s) = pre ++ f e :: post.
Proof.
  intros (Hl & Hpre & Hpost). unfold update_li. simpl.
  rewrite Hl, map_app. simpl.
  rewrite !map_at_node_others by done.
  unfold at_node. by rewrite decide_True.
Qed.

Lemma shown_update (s : State) (pre post : list Li) (e : Li) (f : Li → Li) :
  shown s pre e post → keeps_node f →
  shown (update_li (node e) f s) pre (f e) post.
Proof.
  intros Hs Hf. split; [by apply update_li_shown |].
  destruct Hs as (_ & Hpre & Hpost). by rewrite Hf.
Qed.

Lemma list_find_node (pre post : list Li) (e : Li) :
  Forall (λ x, node x ≠ node e) pre →
  ∃ i, list_find (λ x, node x = node e) (pre ++ e :: post) = Some (i, e).
Proof.
  induction 1 as [| x l Hx _ [i IH]]; simpl.
  - exists 0%nat. by rewrite decide_True.
  - exists (S i). rewrite decide_False by done. by rewrite IH.
Qed.

Lemma find_button_shown (s : State) (pre post : list Li) (e : Li)
    (r : RetryButton) :
  shown s pre e post → buttons e = [r] →
  find_button (node e) (btn r) s = Some r.
Proof.
  intros (Hl & Hpre & _) Hb. unfold find_button. rewrite Hl.
  destruct (list_find_node pre post e Hpre) as [i ->]. simpl.
  rewrite Hb. simpl. by rewrite decide_True.
Qed.

Lemma is_success_false (a : obj) :
  ¬ is_success a →
  strict_eq (field a "status") (JStr (lit "success")) = false.
Proof.
  intros Ha. destruct (strict_eq _ _) eqn:Heq; [| done].
  by apply strict_eq_str in Heq.
Qed.

Lemma is_success_true (a : obj) :
  is_success a → strict_eq (field a "status") (JStr (lit "success")) = true.
Proof. intros Ha. by apply strict_eq_str. Qed.

Lemma retry_onclick_once (n : nat) (r : RetryButton) (s : State) :
  retry_onclick n r s
  = socket_emit "chat message" (chatPayload (bound_username r) (bound_text r))
      (Some (RetryAckOf n (btn r))) (update_li n (retrying (btn r)) s).
Proof.
  unfold retry_onclick, retrying.
  by rewrite !update_li_compose
    by (repeat apply keeps_node_compose;
        first [apply keeps_node_set_classes | apply keeps_node_set_buttons
              | apply keeps_node_update]).
Qed.

Ltac keeps_node_tac :=
  repeat apply keeps_node_compose;
  first [apply keeps_node_set_classes | apply keeps_node_set_buttons
        | apply keeps_node_update].

Lemma keeps_node_retrying (b : nat) : keeps_node (retrying b).
Proof. unfold retrying. keeps_node_tac. Qed.

Lemma keeps_node_failed_again (b : nat) (a : obj) :
  keeps_node (failed_again b a).
Proof. unfold failed_again. keeps_node_tac. Qed.

Lemma keeps_node_delivered_by_retry (b : nat) :
  keeps_node (delivered_by_retry b).
Proof. unfold delivered_by_retry. keeps_node_tac. Qed.

Lemma keeps_node_failed_first (a : obj) (nn : nat) (u t : jsstring) :
  keeps_node (failed_first a nn u t).
Proof. unfold failed_first. keeps_node_tac. Qed.

Lemma retry_acknowledged_failure_once (n b : nat) (a : obj) (s : State) :
  ¬ is_success a →
  retry_acknowledged n b a s = update_li n (failed_again b a) s.
Proof.
  intros Ha. unfold retry_acknowledged, failed_again.
  rewrite (is_success_false _ Ha).
  by rewrite !update_li_compose by keeps_node_tac.
Qed.

Lemma retry_acknowledged_success_once (n b : nat) (a : obj) (s : State) :
  is_success a →
  retry_acknowledged n b a s = update_li n (delivered_by_retry b) s.
Proof.
  intros Ha. unfold retry_acknowledged, delivered_by_retry.
  rewrite (is_success_true _ Ha).
  by rewrite !update_li_compose by keeps_node_tac.
Qed.

Lemma shown_socket_emit (s : State) (pre post : list Li) (e : Li)
    (ev : string) (p : obj) (cb : option Callback) :
  shown s pre e post → shown (socket_emit ev p cb s) pre e post.
Proof. unfold shown. by destruct cb. Qed.

Lemma socket_emit_outbox (s : State) (ev : string) (p : obj)
    (cb : option Callback) :
  same_outbox s (socket_emit ev p cb s).
Proof. by destruct cb. Qed.

Lemma update_li_outbox (n : nat) (f : Li → Li) (s : State) :
  same_outbox s (update_li n f s).
Proof. done. Qed.

(** Clicking the button of a failed entry. *)
Lemma click_retry_failed (s : State) (pre post : list Li) (e : Li) (b : nat)
    (u t : jsstring) :
  shown s pre e post → failed_entry e b u t →
  ∃ e',
    shown (click_retry (node e) b s) pre e' post
    ∧ node e' = node e
    ∧ retrying_entry e' b u t
    ∧ emitted (click_retry (node e) b s)
      = emitted s ++ [{| event := "chat message"; payload := chatPayload u t;
                         ack_id := Some (ack_ids s) |}]
    ∧ acks (click_retry (node e) b s) !! ack_ids s
      = Some (RetryAckOf (node e) b).
Proof.
  intros Hs (Hcl & r & Hb & <- & Hdis & <- & <-).
  unfold click_retry. rewrite (find_button_shown _ _ _ _ _ Hs Hb), Hdis.
  rewrite retry_onclick_once.
  exists (retrying (btn r) e). split; [| split; [| split; [| split]]].
  - apply shown_socket_emit, shown_update; [done |].
    apply keeps_node_retrying.
  - apply keeps_node_retrying.
  - unfold retrying_entry, retrying. simpl. rewrite Hcl, Hb. simpl.
    split; [done |]. eexists. split; [by rewrite decide_True |]. done.
  - done.
  - simpl. apply lookup_insert_eq.
Qed.

(** Clicking while the retry is in flight does nothing. *)
Lemma click_retry_in_flight (s : State) (pre post : list Li) (e : Li) (b : nat)
    (u t : jsstring) :
  shown s pre e post → retrying_entry e b u t →
  click_retry (node e) b s = s.
Proof.
  intros Hs (Hcl & r & Hb & <- & Hdis & <- & <-).
  unfold click_retry. by rewrite (find_button_shown _ _ _ _ _ Hs Hb), Hdis.
Qed.

(** A failed reply to a retry: the entry fails again and offers the same
    button. *)
Lemma retry_acknowledged_failed (s : State) (pre post : list Li) (e : Li)
    (b : nat) (u t : jsstring) (a : obj) :
  shown s pre e post → retrying_entry e b u t → ¬ is_success a →
  ∃ e',
    shown (retry_acknowledged (node e) b a s) pre e' post
    ∧ node e' = node e
    ∧ failed_entry e' b u t
    ∧ emitted (retry_acknowledged (node e) b a s) = emitted s.
Proof.
  intros Hs (Hcl & r & Hb & <- & Hdis & <- & <-) Ha.
  rewrite (retry_acknowledged_failure_once _ _ _ _ Ha).
  exists (failed_again (btn r) a e). split; [| split; [| split]].
  - apply shown_update; [done |]. apply keeps_node_failed_again.
  - apply keeps_node_failed_again.
  - unfold failed_entry, failed_again. simpl. rewrite Hcl, Hb. simpl.
    split; [done |]. eexists. split; [by rewrite decide_True |]. done.
  - done.
Qed.

(** A successful reply to a retry: the entry is marked as delivered and
    loses the button. *)
Lemma retry_acknowledged_delivered (s : State) (pre post : list Li) (e : Li)
    (b : nat) (u t : jsstring) (a : obj) :
  shown s pre e post → retrying_entry e b u t → is_success a →
  ∃ e',
    shown (retry_acknowledged (node e) b a s) pre e' post
    ∧ node e' = node e
    ∧ attemptState e' = Some Delivered
    ∧ buttons e' = []
    ∧ emitted (retry_acknowledged (node e) b a s) = emitted s.
Proof.
  intros Hs (Hcl & r & Hb & <- & Hdis & <- & <-) Ha.
  rewrite (retry_acknowledged_success_once _ _ _ _ Ha).
  exists (delivered_by_retry (btn r) e).
  split; [| split; [| split; [| split]]].
  - apply shown_update; [done |]. apply keeps_node_delivered_by_retry.
  - apply keeps_node_delivered_by_retry.
  - unfold attemptState, delivered_by_retry. simpl. rewrite Hcl.
    reflexivity.
  - unfold delivered_by_retry. simpl. rewrite Hb, filter_cons.
    by destruct (decide (btn r ≠ btn r)).
  - done.
Qed.

Lemma chat_payloads_snoc (l : list Emit) (x : Emit) :
  chat_payloads (l ++ [x])
  = chat_payloads l
    ++ (if decide (event x = "chat message") then [payload x] else []).
Proof.
  unfold chat_payloads. rewrite filter_app, map_app. f_equal.
  rewrite filter_cons, filter_nil. by destruct (decide _).
Qed.

Lemma at_node_compose (n : nat) (f g : Li → Li) (e : Li) :
  keeps_node g → at_node n f (at_node n g e) = at_node n (f ∘ g) e.
Proof.
  intros Hg. unfold at_node.
  destruct (decide (node e = n)) as [He | He].
  - by rewrite decide_True by (by rewrite Hg).
  - by rewrite decide_False.
Qed.

(** A round of retry that fails leaves a failed entry in the same place. *)
Lemma retry_round_failed (s : State) (pre post : list Li) (e : Li) (b : nat)
    (u t : jsstring) (a : obj) :
  shown s pre e post → failed_entry e b u t → ¬ is_success a →
  ∃ e',
    shown (retry_round (node e) b s a) pre e' post
    ∧ node e' = node e
    ∧ failed_entry e' b u t
    ∧ same_outbox s (retry_round (node e) b s a)
    ∧ chat_payloads (emitted (retry_round (node e) b s a))
      = chat_payloads (emitted s) ++ [chatPayload u t].
Proof.
  intros Hs He Ha. unfold retry_round.
  destruct (click_retry_failed s pre post e b u t Hs He)
    as (e1 & Hs1 & Hn1 & He1 & Hem1 & _).
  destruct (retry_acknowledged_failed _ pre post e1 b u t a Hs1 He1 Ha)
    as (e2 & Hs2 & Hn2 & He2 & Hem2).
  rewrite Hn1 in Hs2, Hem2.
  exists e2. split; [done |]. split; [congruence |]. split; [done |]. split.
  - destruct (retry_acknowledged_outbox (node e) b a
                (click_retry (node e) b s)) as [Hp Hc].
    destruct (click_retry_outbox (node e) b s) as [Hp' Hc'].
    split; congruence.
  - rewrite Hem2, Hem1. apply chat_payloads_snoc.
Qed.

Lemma retry_rounds_failed (fails : list obj) (s : State) (pre post : list Li)
    (e : Li) (b : nat) (u t : jsstring) :
  shown s pre e post → failed_entry e b u t →
  Forall (λ a, ¬ is_success a) fails →
  let s' := fold_left (retry_round (node e) b) fails s in
  ∃ e',
    shown s' pre e' post
    ∧ node e' = node e
    ∧ failed_entry e' b u t
    ∧ same_outbox s s'
    ∧ chat_payloads (emitted s')
      = chat_payloads (emitted s) ++ replicate (length fails) (chatPayload u t).
Proof.
  revert s e. induction fails as [| a fails IH]; intros s e Hs He Hf.
  - exists e. simpl. by rewrite app_nil_r.
  - apply Forall_cons in Hf as [Ha Hf]. simpl.
    destruct (retry_round_failed s pre post e b u t a Hs He Ha)
      as (e1 & Hs1 & Hn1 & He1 & [Hp1 Hc1] & Hem1).
    destruct (IH _ e1 Hs1 He1 Hf) as (e2 & Hs2 & Hn2 & He2 & [Hp2 Hc2] & Hem2).
    rewrite Hn1 in Hs2, Hp2, Hc2, Hem2.
    exists e2. split; [done |]. split; [congruence |]. split; [done |]. split.
    + split; congruence.
    + rewrite Hem2, Hem1, <- app_assoc. done.
Qed.

(** [sendMessage] with text in the box. *)
Lemma sendMessage_sends (s : State) :
  trim (msgInput s) ≠ [] →
  ∃ e0,
    messagesEl (sendMessage s) = messagesEl s ++ [e0]
    ∧ node e0 = next_node s
    ∧ classList e0 = ["pending"]
    ∧ buttons e0 = []
    ∧ next_node (sendMessage s) = S (next_node s)
    ∧ pendingMessages (sendMessage s)
      = <[tempId_of (tempIdCounter s) :=
            {| li := next_node s; username := senderName s;
               text := trim (msgInput s) |}]> (pendingMessages s)
    ∧ tempIdCounter (sendMessage s) = (tempIdCounter s + 1)%N
    ∧ chat_payloads (emitted (sendMessage s))
      = chat_payloads (emitted s)
        ++ [chatPayload (senderName s) (trim (msgInput s))].
Proof.
  intros Htext. unfold sendMessage.
  destruct (trim (msgInput s)) as [| c text] eqn:Ht; [done |].
  destruct (isTyping s); cbn -[chatPayload tempId_of senderName];
    eexists; do 7 (split; [reflexivity |]);
    unfold chat_payloads; rewrite !filter_app, !map_app, <- ?app_assoc;
    reflexivity.
Qed.

(** A failed reply to the first send. *)
Lemma handleAcknowledgement_failure (t : jsstring) (a : obj) (s : State)
    (p : Pending) :
  pendingMessages s !! t = Some p → ¬ is_success a →
  messagesEl (handleAcknowledgement t a s)
  = map (at_node (li p)
           (failed_first a (next_node s) (username p) (text p)))
      (messagesEl s)
  ∧ emitted (handleAcknowledgement t a s) = emitted s.
Proof.
  intros Hp Ha. unfold handleAcknowledgement, acknowledged.
  rewrite Hp, (is_success_false _ Ha).
  split; [| done].
  unfold addRetryButton, update_li. cbn [messagesEl set_messagesEl
    set_next_node showNotification set_notifications set_pendingMessages
    next_node].
  rewrite !map_map. apply map_ext. intros e.
  rewrite !at_node_compose by keeps_node_tac. done.
Qed.

(** *** The elements of the list are older than the next one *)

Lemma Forall_at_node (k n : nat) (f : Li → Li) (l : list Li) :
  keeps_node f →
  Forall (λ e, (node e < k)%nat) l →
  Forall (λ e, (node e < k)%nat) (map (at_node n f) l).
Proof.
  intros Hf Hl. apply Forall_map. eapply Forall_impl; [exact Hl |].
  intros e He. simpl. unfold at_node.
  destruct (decide (node e = n)); [by rewrite Hf | done].
Qed.

Lemma Forall_older (k : nat) (l : list Li) :
  Forall (λ e, (node e < k)%nat) l → Forall (λ e, (node e < S k)%nat) l.
Proof.
  intros Hl. eapply Forall_impl; [exact Hl |].
  intros e He. simpl in He. lia.
Qed.

Lemma wf_update_li (n : nat) (f : Li → Li) (s : State) :
  keeps_node f → wf s → wf (update_li n f s).
Proof. intros Hf Hs. unfold wf. simpl. by apply Forall_at_node. Qed.

Lemma wf_socket_emit (ev : string) (p : obj) (cb : option Callback)
    (s : State) :
  wf s → wf (socket_emit ev p cb s).
Proof. by destruct cb. Qed.

Lemma wf_handleTyping (s : State) : wf s → wf (handleTyping s).
Proof.
  unfold handleTyping. destruct (myName s); [done |].
  by destruct (isTyping s).
Qed.

Lemma wf_wait (ms : Z) (s : State) : wf s → wf (wait ms s).
Proof.
  unfold wait, typingTimeout_fires. simpl.
  destruct (typingTimeout s) as [d |]; [| done].
  destruct (d <=? _); [| done]. simpl.
  by destruct (isTyping s).
Qed.

Lemma wf_sendMessage (s : State) : wf s → wf (sendMessage s).
Proof.
  intros Hs. unfold sendMessage.
  destruct (trim (msgInput s)); [done |].
  destruct (isTyping s); unfold wf; simpl;
    (apply Forall_app; split; [by apply Forall_older |]);
    repeat constructor.
Qed.

Lemma wf_handleAcknowledgement (t : jsstring) (a : obj) (s : State) :
  wf s → wf (handleAcknowledgement t a s).
Proof.
  intros Hs. unfold handleAcknowledgement, acknowledged.
  destruct (pendingMessages s !! t) as [p |]; [| done].
  destruct (strict_eq _ _); unfold wf; simpl.
  - repeat (apply Forall_at_node; [keeps_node_tac |]). done.
  - repeat (apply Forall_at_node; [keeps_node_tac |]).
    by apply Forall_older.
Qed.

Lemma wf_click_retry (n b : nat) (s : State) : wf s → wf (click_retry n b s).
Proof.
  intros Hs. unfold click_retry.
  destruct (find_button n b s) as [r |]; [| done].
  destruct (disabled r); [done |].
  rewrite retry_onclick_once. apply wf_socket_emit, wf_update_li; [| done].
  apply keeps_node_retrying.
Qed.

Lemma wf_retry_acknowledged (n b : nat) (a : obj) (s : State) :
  wf s → wf (retry_acknowledged n b a s).
Proof.
  intros Hs. unfold retry_acknowledged.
  destruct (strict_eq _ _); unfold wf; simpl;
    repeat (apply Forall_at_node; [keeps_node_tac |]); done.
Qed.

Lemma wf_handleIncomingMessage (msg : obj) (s : State) :
  wf s → wf (handleIncomingMessage msg s).
Proof.
  intros Hs. unfold handleIncomingMessage.
  destruct (_ && _); [done |].
  cbn [createMessageElement].
  destruct (strict_eq _ _); unfold wf; simpl;
    (apply Forall_app; split; [by apply Forall_older |]);
    repeat constructor.
Qed.

Lemma wf_client_step (s : State) (e : ClientEvent) :
  wf s → wf (client_step s e).
Proof.
  intros Hs.
  destruct e as [v | v | | | key | n b | ms | i reply | msg | data]; simpl.
  - by apply wf_handleTyping.
  - done.
  - unfold setUsername. by destruct (trim (usernameInput s)).
  - by apply wf_sendMessage.
  - destruct (decide _); [by apply wf_sendMessage | done].
  - by apply wf_click_retry.
  - by apply wf_wait.
  - unfold on_ack. destruct (acks s !! i) as [[t | n b] |]; [| | done].
    + by apply wf_handleAcknowledgement.
    + by apply wf_retry_acknowledged.
  - by apply wf_handleIncomingMessage.
  - unfold on_user_typing, showTypingIndicator.
    destruct (strict_eq _ _); [done |]. destruct (truthy _); [done |].
    by destruct (indicator s) as [[? ?] |].
Qed.

(** Every state the page reaches allocates its elements in order. *)
Lemma wf_client_run (es : list ClientEvent) (name : jsstring) :
  wf (client_run es (load name)).
Proof.
  assert (H : ∀ s, wf s → wf (client_run es s)).
  { induction es as [| e es IH]; intros s Hs; simpl; [done |].
    apply IH. by apply wf_client_step. }
  apply H. constructor.
Qed.

End ClientFacts.

Section OutboxTheorems.

Import Client Outbox.

(** C10.  For each temporary id that was handed out, the first call of
    [handleAcknowledgement] takes it out of the pending map and only then
    updates the page, by steps that leave the map alone; any later call with
    the same id, whatever happened to the page in between, returns at once:
    the state, and so the pending map and the message list, are left as
    they were. *)
Theorem acknowledgement_processed_at_most_once (t : jsstring) (a : obj)
    (s : State) :
  issued t s →
  pendingMessages (handleAcknowledgement t a s) = delete t (pendingMessages s)
  ∧ (∀ p, pendingMessages s !! t = Some p →
       handleAcknowledgement t a s
       = acknowledged p a
           (set_pendingMessages (delete t (pendingMessages s)) s)
       ∧ ∀ x, same_outbox x (acknowledged p a x))
  ∧ ∀ es a',
      let s' := client_run es (handleAcknowledgement t a s) in
      handleAcknowledgement t a' s' = s'
      ∧ pendingMessages (handleAcknowledgement t a' s') = pendingMessages s'
      ∧ messagesEl (handleAcknowledgement t a' s') = messagesEl s'.
Proof.
  intros Hissued.
  destruct (handleAcknowledgement_outbox t a s) as [Hp Hc].
  split; [done |]. split.
  { intros p Hlookup. split; [| intros x; apply acknowledged_outbox].
    unfold handleAcknowledgement. by rewrite Hlookup. }
  intros es a' s'.
  assert (Hs' : settled t s').
  { apply client_run_settled. split.
    - destruct Hissued as (k & -> & Hk). exists k. by rewrite Hc.
    - rewrite Hp. apply lookup_delete_eq. }
  destruct Hs' as [_ Hnone].
  by rewrite (handleAcknowledgement_absent _ _ _ Hnone).
Qed.

Lemma acknowledgement_processed_at_most_once_witness :
  pendingMessages
    (handleAcknowledgement (tempId_of 1) error_reply (sendMessage ann_ready))
  = delete (tempId_of 1) (pendingMessages (sendMessage ann_ready)).
Proof.
  destruct (acknowledgement_processed_at_most_once (tempId_of 1) error_reply
              (sendMessage ann_ready)) as (H & _).
  - exists 1%N. split; [reflexivity | vm_compute; reflexivity].
  - exact H.
Defined.

(** C7 (as amended).  While a name is set, an unbroken burst of input
    starting from rest sends typing-start exactly once, at its first
    keystroke, and typing-stop exactly once: when 1000 ms pass with no
    further input, or at once when a message is sent before that, which
    also cancels the timer so that no second stop follows.  While no name is
    set, typing sends neither signal. *)
Theorem typing_signals_once_per_burst (v0 : jsstring)
    (l : list (Z * jsstring)) (s : State) :
  idle s → unbroken l →
  (myName s ≠ [] →
   signals_during (burst v0 l) s = ["typing"]
   ∧ (∀ d, 1000 ≤ d →
        signals_during (burst v0 l ++ [Wait d]) s = ["typing"; "stop_typing"]
        ∧ start_and_stop_once (burst v0 l ++ [Wait d]) s
        ∧ idle (client_run (burst v0 l ++ [Wait d]) s))
   ∧ (∀ d, d < 1000 → trim (final_value v0 l) ≠ [] →
        signals_during (burst v0 l ++ [Wait d; ClickSend]) s
        = ["typing"; "stop_typing"]
        ∧ start_and_stop_once (burst v0 l ++ [Wait d; ClickSend]) s
        ∧ idle (client_run (burst v0 l ++ [Wait d; ClickSend]) s)
        ∧ ∀ d', signals_during (burst v0 l ++ [Wait d; ClickSend; Wait d']) s
                = ["typing"; "stop_typing"]))
  ∧ (myName s = [] →
     ∀ d, signals_during (burst v0 l ++ [Wait d]) s = []).
Proof.
  intros Hidle Hl. split.
  - intros Hname.
    destruct (burst_armed v0 l s Hname Hidle Hl) as (Ha & Hn & Hm & He).
    split; [by apply signals_during_app |]. split.
    + intros d Hd.
      destruct (quiet_fires d _ Ha Hd) as [Hi Hs].
      assert (Hsig : signals_during (burst v0 l ++ [Wait d]) s
                     = ["typing"; "stop_typing"]).
      { apply signals_during_app. rewrite client_run_app.
        change (client_run [Wait d] ?x) with (wait d x).
        by rewrite Hs, He, <- app_assoc. }
      split; [done |]. split; [unfold start_and_stop_once; by rewrite Hsig |].
      rewrite client_run_app. exact Hi.
    + intros d Hd Htext. rewrite <- Hm in Htext.
      destruct (send_stops d _ Ha Hd Htext) as [Hi Hs].
      assert (Hsig : signals_during (burst v0 l ++ [Wait d; ClickSend]) s
                     = ["typing"; "stop_typing"]).
      { apply signals_during_app. rewrite client_run_app.
        change (client_run [Wait d; ClickSend] ?x)
          with (sendMessage (wait d x)).
        by rewrite Hs, He, <- app_assoc. }
      split; [done |]. split; [unfold start_and_stop_once; by rewrite Hsig |].
      split; [rewrite client_run_app; exact Hi |].
      intros d'. apply signals_during_app. rewrite client_run_app.
      change (client_run [Wait d; ClickSend; Wait d'] ?x)
        with (wait d' (sendMessage (wait d x))).
      destruct (idle_wait d' _ Hi) as [_ Hsame].
      by rewrite Hsame, Hs, He, <- app_assoc.
  - intros Hname d. apply signals_during_app. rewrite client_run_app.
    destruct (nameless_keystroke v0 s Hname Hidle) as (Hn & Hi & He).
    destruct (nameless_keystrokes l _ Hn Hi) as (Hn' & Hi' & He').
    change (client_run (burst v0 l) s)
      with (client_run (keystrokes l) (client_step s (Input v0))).
    change (client_run [Wait d] ?x) with (wait d x).
    destruct (idle_wait d _ Hi') as [_ Hsame].
    by rewrite Hsame, He', He, app_nil_r.
Qed.

(** At this input C7 as the specification words it fails: no name is set,
    the user types a burst and pauses, and no typing-stop is sent. *)
Lemma nameless_burst_sends_no_stop :
  idle (load []) ∧ unbroken [(100, lit "hi")]
  ∧ ¬ start_and_stop_once (burst (lit "h") [(100, lit "hi")] ++ [Wait 1000])
        (load []).
Proof.
  split; [done |]. split.
  - repeat constructor; simpl; lia.
  - intros [_ Hstop]. vm_compute in Hstop. discriminate.
Qed.

Lemma typing_signals_once_per_burst_witness :
  signals_during (burst (lit "h") [(100, lit "hi")] ++ [Wait 1000])
    (load (lit "Ann"))
  = ["typing"; "stop_typing"].
Proof.
  destruct (typing_signals_once_per_burst (lit "h") [(100, lit "hi")]
              (load (lit "Ann"))) as (Hnamed & _).
  - split; reflexivity.
  - repeat constructor; simpl; lia.
  - destruct Hnamed as (_ & Hquiet & _); [discriminate |].
    apply (Hquiet 1000). lia.
Defined.

End OutboxTheorems.

Section EndToEnd.

Import Protocol Outbox.

(** C5 (the code at the failing input).  The acknowledgement of a successful
    send has the fields status, messageId, sender, text, timestamp and code,
    and no serverTime.  Whatever the world, a message with a string sender
    and a string text gets exactly one reply, either a success with code
    "MESSAGE_SENT" or an error with a message and a code, and in that reply
    serverTime reads as undefined.  A packet without a payload makes
    [sendMessage] throw, and the reply then has a status and a message only.
    When Ann sends "hi" with two clients connected, her reply reports
    success, and her page, which renders its serverTime, announces an
    invalid date. *)
Theorem success_acknowledgement_lacks_serverTime :
  (∀ row, dom (Server.successAck row)
          = {[ "status"; "messageId"; "sender"; "text"; "timestamp"; "code" ]}
          ∧ field (Server.successAck row) "serverTime" = JUndefined)
  ∧ (∀ (w : Server.World) (s : string) (u t : jsstring),
       ∃ reply,
         Server.acks s
           (Server.wire
              (Server.on_chat_message s (Some (Client.chatPayload u t)) true
                 w).2)
         = Server.acks s (Server.wire w) ++ [reply]
         ∧ field reply "serverTime" = JUndefined
         ∧ (field reply "status" = JStr (lit "success")
            ∧ field reply "code" = JStr (lit "MESSAGE_SENT")
            ∨ field reply "status" = JStr (lit "error")
              ∧ ∃ m c, field reply "message" = JStr m
                       ∧ field reply "code" = JStr c))
  ∧ (∀ (w : Server.World) (s : string),
       Server.acks s
         (Server.wire (Server.on_chat_message s None true w).2)
       = Server.acks s (Server.wire w) ++ [Server.internalErrorAck]
       ∧ dom Server.internalErrorAck = {[ "status"; "message" ]})
  ∧ ∃ reply,
      Server.acks "s1"
        (Server.wire
           (Server.on_chat_message "s1" (Some ann_hi) true two_clients).2)
      = [reply]
      ∧ field reply "status" = JStr (lit "success")
      ∧ field reply "serverTime" = JUndefined
      ∧ Client.notifications
          (Client.handleAcknowledgement (Client.tempId_of 1) reply
             (Client.sendMessage ann_ready))
        = [(lit "Message sent at Invalid Date", false)].
Proof.
  split; [| split; [| split]]; cycle 2.
  - intros w s. split.
    + assert (Hsend : ∃ e, Server.sendMessage None (Some s) w = (Throw e, w))
        by (by eexists).
      destruct Hsend as [e Hsend].
      rewrite (on_chat_message_thrown _ _ _ _ _ Hsend).
      apply acks_snoc_ack.
    + unfold Server.internalErrorAck. rewrite dom_insert_L, dom_singleton_L.
      set_solver.
  - eexists. split; [vm_compute; reflexivity |].
    repeat split; vm_compute; reflexivity.
  - intros row. split; [| reflexivity].
    unfold Server.successAck. rewrite !dom_insert_L, dom_singleton_L.
    set_solver.
  - intros w s u t.
    assert (Htext : Client.chatPayload u t !! "text" = Some (JStr t))
      by reflexivity.
    destruct (decide (trim t = [])) as [Hblank | Hfull].
    + pose proof (sendMessage_blank w _ (Some s)
                    (or_intror (ex_intro _ t (conj Htext Hblank)))) as Hsend.
      rewrite (on_chat_message_failure _ _ _ _ _ _ Hsend).
      eexists. split; [apply acks_snoc_ack |].
      split; [reflexivity |]. right. split; [reflexivity |]. by eexists _, _.
    + pose proof (sendMessage_with_text w _ t (Some s) (conj Htext Hfull))
        as Hsend.
      destruct (Server.db_fault w) as [e |] eqn:Hfault.
      * destruct (saveMessage_down w
                    (jsor (field (Client.chatPayload u t) "username")
                       (JStr (lit "Anonymous"))) (trim t) e Hfault)
          as (w1 & Hsave & _ & _ & Hwire & _).
        rewrite Hsave in Hsend.
        rewrite (on_chat_message_failure _ _ _ _ _ _ Hsend).
        cbn [Server.set_wire Server.wire]. rewrite acks_snoc_ack, Hwire.
        eexists. split; [reflexivity |].
        split; [reflexivity |]. right. split; [reflexivity |]. by eexists _, _.
      * destruct (saveMessage_up w
                    (jsor (field (Client.chatPayload u t) "username")
                       (JStr (lit "Anonymous"))) (trim t) Hfault)
          as (w1 & Hsave & _ & _ & Hwire & _).
        rewrite Hsave in Hsend.
        rewrite (on_chat_message_success _ _ _ _ _ _ Hsend).
        match goal with
        | |- context [Server.sendToClient s ?ev ?p ?w0] =>
            pose proof (sendToClient_events w0 s ev p)
              as (_ & _ & _ & _ & _ & _ & Sa)
        end.
        rewrite Sa. cbn [Server.set_wire Server.wire].
        rewrite acks_snoc_ack.
        match goal with
        | |- context [Server.acks s (Server.wire ?w0)] =>
            pose proof (announce_events w1 (Some s)
                          (Server.broadcastDataOf
                             (new_row w
                                (jsor (field (Client.chatPayload u t)
                                         "username")
                                   (JStr (lit "Anonymous"))) (trim t))))
              as (_ & _ & _ & _ & _ & _ & Aa)
        end.
        rewrite Aa, Hwire.
        eexists. split; [reflexivity |].
        split; [reflexivity |]. left. split; reflexivity.
Qed.

End EndToEnd.

(** * Further properties of the server *)

Section TrimFacts.

Lemma trimStart_head (s : jsstring) (c : N) :
  head (trimStart s) = Some c → isWhiteSpace c = false.
Proof.
  induction s as [| a s IH]; simpl; [done |].
  destruct (isWhiteSpace a) eqn:Ha; [done |].
  simpl. by intros [= <-].
Qed.

Lemma trimStart_fixed (l : jsstring) :
  (∀ c, head l = Some c → isWhiteSpace c = false) → trimStart l = l.
Proof.
  destruct l as [| a l]; simpl; [done |].
  intros H. by rewrite (H a eq_refl).
Qed.

Lemma trimStart_idemp (s : jsstring) : trimStart (trimStart s) = trimStart s.
Proof. apply trimStart_fixed, trimStart_head. Qed.

Lemma trimStart_snoc (l : jsstring) (c : N) :
  isWhiteSpace c = false → trimStart (l ++ [c]) = trimStart l ++ [c].
Proof.
  intros Hc. induction l as [| a l IH]; simpl.
  - by rewrite Hc.
  - by destruct (isWhiteSpace a).
Qed.

Lemma trimEnd_head (c : N) (l : jsstring) :
  isWhiteSpace c = false → trimEnd (c :: l) = c :: trimEnd l.
Proof.
  intros Hc. unfold trimEnd. simpl.
  rewrite trimStart_snoc by done.
  by rewrite rev_app_distr.
Qed.

Lemma trimEnd_idemp (l : jsstring) : trimEnd (trimEnd l) = trimEnd l.
Proof.
  unfold trimEnd. rewrite rev_involutive. by rewrite trimStart_idemp.
Qed.

(** Trimming twice is trimming once. *)
Lemma trim_idemp (s : jsstring) : trim (trim s) = trim s.
Proof.
  unfold trim.
  destruct (trimStart s) as [| c a] eqn:Ha; [done |].
  assert (Hc : isWhiteSpace c = false).
  { apply (trimStart_head s). by rewrite Ha. }
  rewrite (trimEnd_head c a Hc).
  simpl. rewrite Hc.
  rewrite <- (trimEnd_head c a Hc). apply trimEnd_idemp.
Qed.

Lemma jsor_truthy (u d : jsval) : truthy d = true → truthy (jsor u d) = true.
Proof. intros Hd. unfold jsor. by destruct (truthy u) eqn:Hu. Qed.

End TrimFacts.

Section ServerCoverage.

Import Server Protocol Ledger.

(** *** [sendMessage], by the shape of the payload *)

Lemma sendMessage_falsy (w : World) (o : obj) (sid : option SocketId) :
  truthy (field o "text") = false →
  sendMessage (Some o) sid w
  = (Ret (SendFailure (lit "Message cannot be empty") VALIDATION_ERROR), w).
Proof.
  intros H. unfold sendMessage, bind at 1, prop, ret at 1.
  by rewrite H.
Qed.

Lemma sendMessage_malformed (w : World) (d : option obj)
    (sid : option SocketId) :
  malformed d → ∃ e, sendMessage d sid w = (Throw e, w).
Proof.
  intros [-> | (o & v & -> & Ho & Hv & Hs)].
  - eexists. reflexivity.
  - unfold sendMessage, bind at 1, prop, ret at 1.
    rewrite (field_lookup _ _ _ Ho), Hv.
    destruct v; try done; try (eexists; reflexivity).
    by destruct (Hs s).
Qed.

Lemma payload_cases (d : option obj) :
  malformed d
  ∨ (∃ o, d = Some o ∧ (has_no_text o ∨ truthy (field o "text") = false))
  ∨ ∃ o t, d = Some o ∧ has_text o t.
Proof.
  destruct d as [o |]; [| left; by left].
  destruct (o !! "text") as [v |] eqn:Ho.
  - destruct (truthy v) eqn:Hv.
    + destruct v as [| | b | z | x | ms];
        try (left; right; exists o; eexists; repeat split; done).
      destruct (decide (trim x = [])) as [Hx | Hx].
      * right; left. exists o. split; [done |]. left. right. by exists x.
      * right; right. by exists o, x.
    + right; left. exists o. split; [done |]. right.
      by rewrite (field_lookup _ _ _ Ho).
  - right; left. exists o. split; [done |]. left. by left.
Qed.

Lemma saveMessage_next_id (w : World) (u : jsval) (t : jsstring) :
  db_next_id (saveMessage u t w).2
  = match db_fault w with
    | Some _ => db_next_id w
    | None => db_next_id w + 1
    end.
Proof.
  unfold saveMessage, try_catch, bind, Message_create, ret.
  by destruct (db_fault w).
Qed.

(** The packets a handled message puts on the wire tell of the row [row],
    or are a reply to [s] that reports an error. *)
Lemma on_chat_message_outcome (s : SocketId) (d : option obj) (cb : bool)
    (w : World) :
  let w' := (on_chat_message s d cb w).2 in
  (db_rows w' = db_rows w ∧ db_next_id w' = db_next_id w
   ∧ ∃ l, wire w' = wire w ++ l
          ∧ Forall (λ p, ∃ a, p = Ack s a
                           ∧ field a "status" = JStr (lit "error")) l)
  ∨ (∃ o t, d = Some o ∧ has_text o t ∧ db_fault w = None
     ∧ let row := new_row w (field o "username") (trim t) in
       db_rows w' = db_rows w ++ [row]
       ∧ db_next_id w' = db_next_id w + 1
       ∧ ∃ l, wire w' = wire w ++ l
              ∧ Forall (λ p, (∃ a p', p = Event a "chat message" p'
                                     ∧ announces row p')
                             ∨ p = Ack s (successAck row)) l).
Proof.
  cbv zeta.
  assert (Hquiet : ∀ e c,
    sendMessage d (Some s) w = (Ret (SendFailure e c), w) →
    db_rows (on_chat_message s d cb w).2 = db_rows w
    ∧ db_next_id (on_chat_message s d cb w).2 = db_next_id w
    ∧ ∃ l, wire (on_chat_message s d cb w).2 = wire w ++ l
           ∧ Forall (λ p, ∃ a, p = Ack s a
                            ∧ field a "status" = JStr (lit "error")) l).
  { intros e c H. destruct cb.
    - rewrite (on_chat_message_failure _ _ _ _ _ _ H). simpl.
      repeat split; try done. eexists. split; [done |].
      constructor; [| done]. by eexists.
    - rewrite on_chat_message_silent, H. simpl.
      repeat split; try done. exists []. by rewrite app_nil_r. }
  destruct (payload_cases d) as [Hd | [(o & -> & Ho) | (o & t & -> & Ho)]].
  - left. destruct (sendMessage_malformed w d (Some s) Hd) as [e H].
    destruct cb.
    + rewrite (on_chat_message_thrown _ _ _ _ _ H). simpl.
      repeat split; try done. eexists. split; [done |].
      constructor; [| done]. by eexists.
    + rewrite on_chat_message_silent, H. simpl.
      repeat split; try done. exists []. by rewrite app_nil_r.
  - left. destruct Ho as [Ho | Ho].
    + eapply Hquiet. by apply sendMessage_blank.
    + eapply Hquiet. by apply sendMessage_falsy.
  - pose proof (sendMessage_with_text w o t (Some s) Ho) as Hs.
    pose proof (saveMessage_next_id w
                  (jsor (field o "username") (JStr (lit "Anonymous")))
                  (trim t)) as Hid.
    destruct (db_fault w) as [e |] eqn:Hf.
    + left.
      destruct (saveMessage_down w
                  (jsor (field o "username") (JStr (lit "Anonymous")))
                  (trim t) e Hf)
        as (w1 & Hsave & Hrows & _ & Hwire & _).
      rewrite Hsave in Hs, Hid. simpl in Hid.
      destruct cb.
      * rewrite (on_chat_message_failure _ _ _ _ _ _ Hs). simpl.
        repeat split; try done. rewrite Hwire. eexists. split; [done |].
        constructor; [| done]. by eexists.
      * rewrite on_chat_message_silent, Hs. simpl.
        repeat split; try done. exists []. by rewrite app_nil_r.
    + right. exists o, t. split; [done |]. split; [done |].
      split; [done |]. cbv zeta.
      destruct (saveMessage_up w
                  (jsor (field o "username") (JStr (lit "Anonymous")))
                  (trim t) Hf)
        as (w1 & Hsave & Hrows & _ & Hwire & Hcl & Hio).
      rewrite Hsave in Hs, Hid. simpl in Hid.
      unfold new_row in Hs, Hrows. rewrite jsor_idemp in Hs, Hrows.
      fold (new_row w (field o "username") (trim t)) in Hs, Hrows.
      set (row := new_row w (field o "username") (trim t)) in *.
      set (w2 := match given (Some s) with
                 | Some s0 =>
                     broadcastExcept s0 "chat message" (broadcastDataOf row) w1
                 | None => broadcast "chat message" (broadcastDataOf row) w1
                 end) in *.
      assert (Hw2 : db_rows w2 = db_rows w1 ∧ db_next_id w2 = db_next_id w1
                    ∧ ∃ l, wire w2 = wire w1 ++ l
                           ∧ Forall (λ p, (∃ a p', p = Event a "chat message" p'
                                                   ∧ announces row p')
                                          ∨ p = Ack s (successAck row)) l).
      { subst w2. destruct (given (Some s)) as [s0 |].
        - unfold broadcastExcept. destruct (clients w1 !! s0).
          + simpl. repeat split; try done. eexists. split; [done |].
            constructor; [| done]. left. do 2 eexists. split; [done |].
            by left.
          + repeat split; try done. exists []. by rewrite app_nil_r.
        - simpl. repeat split; try done. eexists. split; [done |].
          constructor; [| done]. left. do 2 eexists. split; [done |].
          by left. }
      destruct Hw2 as (Hr2 & Hn2 & l2 & Hl2 & Hall2).
      destruct cb.
      * rewrite (on_chat_message_success _ _ _ _ _ _ Hs).
        unfold sendToClient. simpl.
        destruct (clients w2 !! s); simpl.
        -- rewrite Hr2, Hrows, Hn2, Hid. repeat split; try done.
           rewrite Hl2, Hwire. rewrite <- !app_assoc.
           eexists. split; [done |].
           apply Forall_app. split; [done |].
           constructor; [by right |].
           constructor; [| done]. left. do 2 eexists. split; [done |].
           by right.
        -- rewrite Hr2, Hrows, Hn2, Hid. repeat split; try done.
           rewrite Hl2, Hwire. rewrite <- !app_assoc.
           eexists. split; [done |].
           apply Forall_app. split; [done |].
           constructor; [by right | done].
      * rewrite on_chat_message_silent, Hs. simpl.
        rewrite Hr2, Hrows, Hn2, Hid. repeat split; try done.
        rewrite Hl2, Hwire. by eexists.
Qed.

(** *** What holds of the store and of the wire in every state *)

Lemma from_store_more (rows : list Row) (r : Row) (p : Packet) :
  from_store rows p → from_store (rows ++ [r]) p.
Proof.
  destruct p as [a ev payload | to reply]; simpl.
  - intros (Hev & x & Hx & Hp). split; [done |]. exists x.
    split; [| done]. apply elem_of_app. by left.
  - intros H Hs. destruct (H Hs) as (x & Hx & Hp). exists x.
    split; [| done]. apply elem_of_app. by left.
Qed.

Lemma new_row_well_formed (w : World) (u : jsval) (t : jsstring) :
  trim t ≠ [] → well_formed_row (new_row w u (trim t)).
Proof.
  intros Ht. unfold well_formed_row, new_row. simpl.
  split; [done |]. split; [apply trim_idemp |]. by apply jsor_truthy.
Qed.

Lemma error_is_not_success (a : obj) :
  field a "status" = JStr (lit "error") →
  field a "status" = JStr (lit "success") → False.
Proof. intros -> H. discriminate H. Qed.

Lemma server_step_ledger (w : World) (e : ServerEvent) :
  Forall well_formed_row (db_rows w)
  ∧ Forall (from_store (db_rows w)) (wire w)
  ∧ 1 ≤ db_next_id w
  ∧ Forall (λ r, 1 ≤ id r < db_next_id w) (db_rows w) →
  Forall well_formed_row (db_rows (server_step w e))
  ∧ Forall (from_store (db_rows (server_step w e))) (wire (server_step w e))
  ∧ 1 ≤ db_next_id (server_step w e)
  ∧ Forall (λ r, 1 ≤ id r < db_next_id (server_step w e))
      (db_rows (server_step w e)).
Proof.
  intros (Hrows & Hwire & Hid & Hids).
  destruct e as [s | s | s ev d cb | f | ms]; simpl; try done.
  - unfold on_disconnect, handleDisconnection. simpl.
    by destruct (decide _).
  - unfold on_packet. destruct (decide _); [| done].
    destruct (decide _); [| done].
    destruct (on_chat_message_outcome s d cb w)
      as [(Hr & Hn & l & Hl & Hall)
         | (o & t & -> & Ho & Hf & Hr & Hn & l & Hl & Hall)].
    + rewrite Hr, Hn, Hl. repeat split; try done.
      apply Forall_app. split; [done |].
      eapply Forall_impl; [exact Hall |].
      intros p (a & -> & Ha). simpl. intros Hs.
      destruct (error_is_not_success a Ha Hs).
    + cbv zeta in Hr, Hn, Hall. rewrite Hr, Hn, Hl.
      split; [| split; [| split]].
      * apply Forall_app. split; [done |].
        constructor; [| done]. apply new_row_well_formed, Ho.
      * apply Forall_app. split.
        -- eapply Forall_impl; [exact Hwire |].
           intros p. apply from_store_more.
        -- eapply Forall_impl; [exact Hall |].
           intros p [(a & p' & -> & Hp) | ->]; simpl.
           ++ split; [done |]. eexists. split; [| exact Hp].
              apply elem_of_app. right. by apply list_elem_of_singleton.
           ++ intros _. eexists. split; [| done].
              apply elem_of_app. right. by apply list_elem_of_singleton.
      * lia.
      * apply Forall_app. split.
        -- eapply Forall_impl; [exact Hids |]. intros r Hr'. simpl in Hr'. lia.
        -- constructor; [| done]. simpl. lia.
Qed.

Lemma server_run_ledger (es : list ServerEvent) :
  Forall well_formed_row (db_rows (server_run es))
  ∧ Forall (from_store (db_rows (server_run es))) (wire (server_run es))
  ∧ 1 ≤ db_next_id (server_run es)
  ∧ Forall (λ r, 1 ≤ id r < db_next_id (server_run es))
      (db_rows (server_run es)).
Proof.
  unfold server_run.
  assert (H : ∀ w0,
    Forall well_formed_row (db_rows w0)
    ∧ Forall (from_store (db_rows w0)) (wire w0)
    ∧ 1 ≤ db_next_id w0
    ∧ Forall (λ r, 1 ≤ id r < db_next_id w0) (db_rows w0) →
    Forall well_formed_row (db_rows (fold_left server_step es w0))
    ∧ Forall (from_store (db_rows (fold_left server_step es w0)))
        (wire (fold_left server_step es w0))
    ∧ 1 ≤ db_next_id (fold_left server_step es w0)
    ∧ Forall (λ r, 1 ≤ id r < db_next_id (fold_left server_step es w0))
        (db_rows (fold_left server_step es w0))).
  { induction es as [| e es IH]; intros w0 Hw0; simpl; [done |].
    apply IH. by apply server_step_ledger. }
  apply H. simpl. repeat split; try done.
Qed.

(** The store only grows: a step keeps the rows it finds. *)
Lemma server_step_rows (w : World) (e : ServerEvent) :
  db_rows w `prefix_of` db_rows (server_step w e).
Proof.
  destruct e as [s | s | s ev d cb | f | ms]; simpl; try done.
  - unfold on_disconnect, handleDisconnection. simpl.
    by destruct (decide _).
  - unfold on_packet. destruct (decide _); [| done].
    destruct (decide _); [| done].
    destruct (on_chat_message_outcome s d cb w)
      as [(Hr & _) | (o & t & _ & _ & _ & Hr & _)].
    + by rewrite Hr.
    + cbv zeta in Hr. rewrite Hr. by eexists.
Qed.

Lemma server_steps_rows (es : list ServerEvent) (w : World) :
  db_rows w `prefix_of` db_rows (fold_left server_step es w).
Proof.
  revert w. induction es as [| e es IH]; intros w; simpl; [done |].
  etrans; [apply server_step_rows | apply IH].
Qed.

End ServerCoverage.

(** * The chat handler and what happens while the store works *)

Section AwaitFacts.

Import Server Protocol Ledger Await.

Lemma sendMessage_around_save (d : option obj) (sid : option SocketId)
    (w : World) :
  sendMessage d sid w
  = match before_save d w with
    | (Ret None, w0) =>
        (Ret (SendFailure (lit "Message cannot be empty") VALIDATION_ERROR),
         w0)
    | (Ret (Some (u, t)), w0) =>
        match saveMessage u t w0 with
        | (Ret dbResult, w1) => after_save sid dbResult w1
        | (Throw e, w1) => (Throw e, w1)
        end
    | (Throw e, w0) => (Throw e, w0)
    end.
Proof.
  unfold sendMessage, before_save, after_save, bind, prop, call_trim, ret,
    throw.
  destruct d as [o |]; [| reflexivity].
  destruct (field o "text") as [| | b | z | x | ms]; cbn [truthy];
    try reflexivity.
  - by destruct b.
  - by destruct (negb (z =? 0)).
  - destruct x as [| c x]; [reflexivity |].
    destruct (bool_decide (trim (c :: x) = [])); [reflexivity |].
    destruct (saveMessage _ _ w) as [[[data | error] | e] w1];
      reflexivity.
Qed.

Lemma on_chat_message_finish (s : SocketId) (d : option obj) (cb : bool)
    (w : World) :
  (on_chat_message s d cb w).2
  = match sendMessage d (Some s) w with
    | (result, w1) => (finish s cb result w1).2
    end.
Proof.
  unfold on_chat_message, try_catch, bind, finish.
  destruct (sendMessage d (Some s) w) as [[[e c | row bd] | e] w1];
    by destruct cb.
Qed.

(** With nothing handled in between, the handler around its wait is the
    handler taken as one step. *)
Lemma resume_at_once (s : SocketId) (d : option obj) (cb : bool)
    (st : Loop) :
  on_chat_message_during s d cb [] st = ((on_chat_message s d cb st.1).2, st.2).
Proof.
  rewrite on_chat_message_finish, sendMessage_around_save.
  unfold on_chat_message_during, start_chat_message, resume_chat_message.
  destruct (before_save d st.1) as [[[[u t] |] | e] w0]; try reflexivity.
  destruct (saveMessage u t w0) as [[r | e] w1]; [| reflexivity].
  simpl. by destruct (after_save (Some s) r w1).
Qed.

Lemma before_save_with_text (w : World) (o : obj) (t : jsstring) :
  has_text o t →
  before_save (Some o) w
  = (Ret (Some (jsor (field o "username") (JStr (lit "Anonymous")), trim t)),
     w).
Proof.
  intros [Ho Ht]. unfold before_save, bind at 1, prop, ret at 1.
  rewrite (field_lookup _ _ _ Ho), (not_blank_truthy _ Ht).
  unfold bind, call_trim, ret.
  by rewrite bool_decide_eq_false_2.
Qed.

(** The handler of a message with a text, the store up: it waits for the
    store, which has the row. *)
Lemma start_with_text (w : World) (s : SocketId) (o : obj) (t : jsstring)
    (cb : bool) :
  has_text o t → db_fault w = None →
  ∃ w1,
    start_chat_message s (Some o) cb w
    = AwaitingStore (DbOk (new_row w (field o "username") (trim t))) w1
    ∧ db_rows w1 = db_rows w ++ [new_row w (field o "username") (trim t)]
    ∧ wire w1 = wire w ∧ clients w1 = clients w
    ∧ io_sockets w1 = io_sockets w.
Proof.
  intros Ho Hf. unfold start_chat_message.
  rewrite (before_save_with_text w o t Ho).
  destruct (saveMessage_up w
              (jsor (field o "username") (JStr (lit "Anonymous")))
              (trim t) Hf)
    as (w1 & Hsave & Hrows & _ & Hwire & Hcl & Hio).
  rewrite Hsave. unfold new_row in *. rewrite jsor_idemp in *.
  exists w1. by repeat split.
Qed.

(** *** The registry and the counter of the store, turn by turn *)

Lemma before_save_pure (d : option obj) (w : World) :
  (before_save d w).2 = w.
Proof.
  unfold before_save, bind, prop, call_trim, ret, throw.
  destruct d as [o |]; [| reflexivity].
  destruct (field o "text") as [| | b | z | x | ms]; cbn [truthy];
    try reflexivity.
  - by destruct b.
  - by destruct (negb (z =? 0)).
  - destruct x as [| c x]; [reflexivity |].
    by destruct (bool_decide (trim (c :: x) = [])).
Qed.

(** What the handler does after [sendMessage] leaves the store and the
    registry alone. *)
Lemma finish_keeps (s : SocketId) (cb : bool) (r : outcome SendResult)
    (w : World) :
  let w' := (finish s cb r w).2 in
  clients w' = clients w ∧ io_sockets w' = io_sockets w
  ∧ db_next_id w' = db_next_id w ∧ db_rows w' = db_rows w.
Proof.
  cbv zeta. unfold finish.
  destruct r as [[e c | row bd] | e]; destruct cb; try done.
  unfold acknowledgementCallback, bind, effect. cbn [snd].
  match goal with
  | |- context [sendToClient s ?ev ?p ?w0] =>
      pose proof (sendToClient_events w0 s ev p)
        as (Hr & _ & Hn & _ & Hc & Hi & _)
  end.
  by rewrite Hr, Hn, Hc, Hi.
Qed.

Lemma after_save_keeps (sid : option SocketId) (r : DbResult) (w : World) :
  let w' := (after_save sid r w).2 in
  clients w' = clients w ∧ io_sockets w' = io_sockets w
  ∧ db_next_id w' = db_next_id w ∧ db_rows w' = db_rows w.
Proof.
  cbv zeta. unfold after_save. destruct r as [row | e]; [| done].
  unfold bind, effect, ret. cbn [snd].
  pose proof (announce_events w sid (broadcastDataOf row))
    as (Hr & _ & Hn & _ & Hc & Hi & _).
  by destruct (given sid).
Qed.

Lemma resume_keeps (s : SocketId) (cb : bool) (r : DbResult) (w : World) :
  let w' := resume_chat_message s cb r w in
  clients w' = clients w ∧ io_sockets w' = io_sockets w
  ∧ db_next_id w' = db_next_id w ∧ db_rows w' = db_rows w.
Proof.
  cbv zeta. unfold resume_chat_message.
  pose proof (after_save_keeps (Some s) r w) as Ha. cbv zeta in Ha.
  destruct (after_save (Some s) r w) as [res w1]. cbn [snd] in Ha.
  destruct (finish_keeps s cb res w1) as (-> & -> & -> & ->). exact Ha.
Qed.

Lemma start_keeps (s : SocketId) (d : option obj) (cb : bool) (w : World) :
  let w' := paused_world (start_chat_message s d cb w) in
  clients w' = clients w ∧ io_sockets w' = io_sockets w
  ∧ db_next_id w ≤ db_next_id w'.
Proof.
  cbv zeta. unfold start_chat_message.
  pose proof (before_save_pure d w) as Hb.
  destruct (before_save d w) as [[[[u t] |] | e] w0]; cbn [snd] in Hb;
    subst w0; cbn [paused_world].
  - pose proof (keeps_saveMessage u t w) as [Hc Hi].
    pose proof (saveMessage_next_id w u t) as Hn.
    assert (Hle : db_next_id w ≤ db_next_id (saveMessage u t w).2)
      by (rewrite Hn; destruct (db_fault w); lia).
    destruct (saveMessage u t w) as [[r | e] w1]; cbn [snd] in *;
      cbn [paused_world]; [done |].
    destruct (finish_keeps s cb (Throw e) w1) as (-> & -> & -> & _). done.
  - destruct (finish_keeps s cb
                (Ret (SendFailure (lit "Message cannot be empty")
                        VALIDATION_ERROR)) w) as (-> & -> & -> & _).
    split; [done |]. split; [done | lia].
  - destruct (finish_keeps s cb (Throw e) w) as (-> & -> & -> & _).
    split; [done |]. split; [done | lia].
Qed.

Lemma start_keeps_next_id (s : SocketId) (d : option obj) (cb : bool)
    (st : Loop) (w1 : World) :
  loop_in_step st →
  paused_world (start_chat_message s d cb st.1) = w1 →
  1 ≤ db_next_id w1.
Proof.
  intros [_ Hid] <-. destruct (start_keeps s d cb st.1) as (_ & _ & Hn). lia.
Qed.

Lemma server_step_next_id (w : World) (e : ServerEvent) :
  db_next_id w ≤ db_next_id (server_step w e).
Proof.
  destruct e as [s | s | s ev d cb | f | ms]; simpl; try lia.
  - unfold on_disconnect, handleDisconnection. simpl.
    destruct (decide _); simpl; lia.
  - unfold on_packet. destruct (decide _); [| lia].
    destruct (decide _); [| lia].
    destruct (on_chat_message_outcome s d cb w)
      as [(_ & Hn & _) | (o & t & _ & _ & _ & _ & Hn & _)];
      cbv zeta in Hn; rewrite Hn; lia.
Qed.

Lemma turn_in_step (st : Loop) (t : Turn) :
  loop_in_step st → loop_in_step (turn st t).
Proof.
  intros [Hreg Hid]. destruct st as [w q]. cbn [fst snd] in *.
  destruct t as [e | s d cb | k]; cbn [turn fst snd].
  - split; [by apply server_step_in_step |].
    pose proof (server_step_next_id w e). cbn [fst]. lia.
  - destruct (decide _); [| done].
    destruct (start_keeps s d cb w) as (Hc & Hi & Hn).
    destruct (start_chat_message s d cb w) as [w1 | r w1];
      cbn [paused_world] in *; unfold loop_in_step, registry_in_step;
      cbn [fst]; rewrite Hc, Hi; (split; [done | lia]).
  - destruct (q !! k) as [h |]; [| done].
    destruct (resume_keeps (waiting_socket h) (waiting_callback h)
                (waiting_result h) w) as (Hc & Hi & Hn & _).
    unfold loop_in_step, registry_in_step. cbn [fst].
    rewrite Hc, Hi, Hn. done.
Qed.

Lemma turns_in_step (l : list Turn) (st : Loop) :
  loop_in_step st → loop_in_step (turns l st).
Proof.
  revert st. induction l as [| t l IH]; intros st Hst; simpl; [done |].
  apply IH. by apply turn_in_step.
Qed.

Lemma event_loop_in_step (l : list Turn) : loop_in_step (event_loop l).
Proof.
  apply turns_in_step. split; [| done].
  unfold registry_in_step. simpl. set_solver.
Qed.

(** The handler goes on after the store has the row: who is sent what, by
    whether the sender is still connected. *)
Lemma resume_stored (w : World) (s : SocketId) (cb : bool) (row : Row) :
  registry_in_step w → s ≠ "" →
  db_rows (resume_chat_message s cb (DbOk row) w) = db_rows w
  ∧ (∀ s', delivered s' (wire (resume_chat_message s cb (DbOk row) w))
           = delivered s' (wire w)
             ++ (if decide (s ∈ io_sockets w) then share w s cb row s'
                 else []))
  ∧ acks s (wire (resume_chat_message s cb (DbOk row) w))
    = acks s (wire w) ++ (if cb then [successAck row] else []).
Proof.
  intros Hreg Hne. unfold registry_in_step in Hreg.
  unfold resume_chat_message, after_save, bind, effect, ret, given.
  destruct (decide (s = "")) as [| _]; [done |].
  unfold finish, broadcastExcept.
  destruct (clients w !! s) as [c |] eqn:Hc.
  - assert (Hin : s ∈ io_sockets w).
    { rewrite <- Hreg. apply elem_of_dom. by eexists. }
    destruct cb.
    + unfold acknowledgementCallback, bind, effect, sendToClient. simpl.
      rewrite Hc. simpl. split; [done |]. split.
      * intros s'.
        rewrite delivered_snoc_event, delivered_snoc_ack, delivered_snoc_event.
        rewrite <- app_assoc. f_equal.
        destruct (decide (s ∈ io_sockets w)) as [_ |]; [| done].
        unfold share.
        destruct (decide (s' = s)) as [-> | Hs'].
        -- destruct (decide (s ∈ _ ∖ _)) as [Hx | _]; [set_solver |].
           destruct (decide (s ∈ _ ∩ _)) as [_ | Hx]; [done | set_solver].
        -- destruct (decide (s' ∈ _ ∩ _)) as [Hx | _]; [set_solver |].
           rewrite app_nil_r.
           destruct (decide (s' ∈ _ ∖ _)) as [Hx | Hx];
             destruct (decide (s' ∈ io_sockets _)) as [Hy | Hy];
             try done; set_solver.
      * by rewrite acks_snoc_event, acks_snoc_ack, acks_snoc_event.
    + simpl. split; [done |]. split.
      * intros s'. rewrite delivered_snoc_event. f_equal.
        destruct (decide (s ∈ io_sockets w)) as [_ |]; [| done].
        unfold share.
        destruct (decide (s' = s)) as [-> | Hs'].
        -- destruct (decide (s ∈ _ ∖ _)) as [Hx | _]; [set_solver | done].
        -- destruct (decide (s' ∈ _ ∖ _)) as [Hx | Hx];
             destruct (decide (s' ∈ io_sockets _)) as [Hy | Hy];
             try done; set_solver.
      * by rewrite acks_snoc_event, app_nil_r.
  - assert (Hout : s ∉ io_sockets w).
    { rewrite <- Hreg. by apply not_elem_of_dom. }
    destruct (decide (s ∈ io_sockets w)) as [| _]; [done |].
    destruct cb.
    + unfold acknowledgementCallback, bind, effect, sendToClient. simpl.
      rewrite Hc. simpl. split; [done |]. split.
      * intros s'. by rewrite delivered_snoc_ack, app_nil_r.
      * by rewrite acks_snoc_ack.
    + simpl. split; [done |]. split; [| by rewrite app_nil_r].
      intros s'. by rewrite app_nil_r.
Qed.

End AwaitFacts.

Section ServerExtras.

Import Server Protocol Ledger.

Lemma connected_registered (es : list ServerEvent) (s : SocketId) :
  s ∈ io_sockets (server_run es) ↔ is_Some (clients (server_run es) !! s).
Proof.
  rewrite <- elem_of_dom.
  assert (H : registry_in_step (server_run es)).
  { apply reachable_in_step. by exists es. }
  unfold registry_in_step in H. by rewrite H.
Qed.

(** X1.  In every state the server reaches, [getClientCount] is the number
    of connected sockets.  A socket that connects is counted once, also
    when its id is already registered; a disconnect takes one off the count
    and undoes the connect; the disconnect of a socket that is not
    connected changes nothing of the registry. *)
Theorem registry_follows_connections (es : list ServerEvent) (s : SocketId) :
  let w := server_run es in
  getClientCount w = size (io_sockets w)
  ∧ (s ∉ io_sockets w →
     getClientCount (on_connection s w) = S (getClientCount w)
     ∧ clients (on_disconnect s (on_connection s w)) = clients w
     ∧ clients (on_disconnect s w) = clients w)
  ∧ (s ∈ io_sockets w →
     getClientCount (on_connection s w) = getClientCount w
     ∧ S (getClientCount (on_disconnect s w)) = getClientCount w
     ∧ clients (on_disconnect s w) !! s = None).
Proof.
  cbv zeta. pose proof (connected_registered es s) as Hs.
  assert (Hstep : registry_in_step (server_run es)).
  { apply reachable_in_step. by exists es. }
  unfold registry_in_step in Hstep.
  unfold getClientCount.
  split; [| split].
  - by rewrite <- Hstep, size_dom.
  - intros Hout.
    assert (Hnone : clients (server_run es) !! s = None).
    { apply eq_None_not_Some. by rewrite <- Hs. }
    split; [| split].
    + simpl. by rewrite map_size_insert_None.
    + unfold on_disconnect, handleDisconnection. simpl.
      rewrite lookup_insert_eq.
      destruct (decide _) as [_ | Hno]; simpl.
      * rewrite delete_insert_eq. by apply delete_id.
      * destruct Hno. by eexists.
    + unfold on_disconnect, handleDisconnection. simpl.
      rewrite Hnone. by destruct (decide _) as [[x Hx] | _].
  - intros Hin. apply Hs in Hin as Hsome. destruct Hsome as [c Hc].
    split; [| split].
    + simpl. rewrite map_size_insert_Some; [done | by eexists].
    + unfold on_disconnect, handleDisconnection. simpl.
      rewrite Hc. destruct (decide _) as [_ | Hno]; simpl.
      * rewrite map_size_delete_Some by (by eexists).
        assert (size (clients (server_run es)) ≠ 0)%nat; [| lia].
        intros H0. apply map_size_empty_inv in H0.
        rewrite H0 in Hc. by rewrite lookup_empty in Hc.
      * destruct Hno. by eexists.
    + unfold on_disconnect, handleDisconnection. simpl.
      rewrite Hc. destruct (decide _) as [_ | Hno]; simpl.
      * apply lookup_delete_eq.
      * destruct Hno. by eexists.
Qed.

(** X2.  In every state the server reaches, [sendToClient] answers [true]
    exactly for a connected socket, delivers the event to that socket and to
    no other, and for any other id leaves the world as it is. *)
Theorem sendToClient_reaches_only_its_client (es : list ServerEvent)
    (s : SocketId) (ev : string) (data : obj) :
  let w := server_run es in
  (sendToClient s ev data w).1 = bool_decide (s ∈ io_sockets w)
  ∧ (s ∉ io_sockets w → (sendToClient s ev data w).2 = w)
  ∧ ∀ s', delivered s' (wire (sendToClient s ev data w).2)
          = delivered s' (wire w)
            ++ (if decide (s' = s ∧ s ∈ io_sockets w)
                then [(ev, data)] else []).
Proof.
  cbv zeta. pose proof (connected_registered es s) as Hs.
  unfold sendToClient.
  destruct (clients (server_run es) !! s) as [c |] eqn:Hc.
  - assert (Hin : s ∈ io_sockets (server_run es)) by (apply Hs; by eexists).
    split; [| split].
    + simpl. by rewrite bool_decide_eq_true_2.
    + done.
    + intros s'. simpl. rewrite delivered_snoc_event. f_equal.
      destruct (decide (s' ∈ _)) as [Hx | Hx];
        destruct (decide (s' = s ∧ _)) as [Hy | Hy]; try done.
      * destruct Hy. split; [| done].
        apply elem_of_intersection in Hx as [Hx _].
        by apply elem_of_singleton in Hx.
      * destruct Hx. destruct Hy as [-> _]. set_solver.
  - assert (Hout : s ∉ io_sockets (server_run es)).
    { rewrite Hs. by intros [x Hx]. }
    split; [| split].
    + simpl. by rewrite bool_decide_eq_false_2.
    + done.
    + intros s'. simpl.
      destruct (decide _) as [[_ Hy] | _]; [done |].
      by rewrite app_nil_r.
Qed.

(** X3.  A connected client sends a message with a text and the store
    takes it, in any state the server reaches by handling events, starting
    chat handlers and letting waiting handlers go on in any order.  The row
    is stored when the handler calls the store and gives control back.
    After any further turns of the event loop, when the store has answered,
    the handler looks the sender up in the registry of that moment: if the
    sender is still connected, every other socket connected then is sent
    the broadcast data of the row, once, and the sender is sent only its own
    copy, marked [isOwnMessage], when it asked for a reply; if the sender
    has disconnected in the meantime, nobody is sent anything, though the
    row is stored.  With no turn taken in between, this is the handler
    taken as one step. *)
Theorem successful_send_is_shared (past mid : list Await.Turn) (s : SocketId)
    (o : obj) (t : jsstring) (cb : bool) :
  let st := Await.event_loop past in
  let w := st.1 in
  has_text o t → db_fault w = None → s ∈ io_sockets w → s ≠ "" →
  let row := new_row w (field o "username") (trim t) in
  ∃ w1,
    Await.start_chat_message s (Some o) cb w
    = Await.AwaitingStore (DbOk row) w1
    ∧ db_rows w1 = db_rows w ++ [row]
    ∧ wire w1 = wire w
    ∧ let w2 := (Await.turns mid (w1, st.2)).1 in
      let w' := (Await.on_chat_message_during s (Some o) cb mid st).1 in
      w' = Await.resume_chat_message s cb (DbOk row) w2
      ∧ db_rows w' = db_rows w2
      ∧ (∀ s', delivered s' (wire w')
               = delivered s' (wire w2)
                 ++ (if decide (s ∈ io_sockets w2)
                     then share w2 s cb row s' else []))
      ∧ (mid = [] →
         w' = server_step w (Packet_in s "chat message" (Some o) cb)).
Proof.
  cbv zeta. intros Ho Hf Hin Hne.
  set (st := Await.event_loop past) in *.
  destruct (start_with_text st.1 s o t cb Ho Hf)
    as (w1 & Hstart & Hrows & Hwire & Hcl & Hio).
  exists w1. split; [done |]. split; [done |]. split; [done |].
  assert (Hreg : registry_in_step (Await.turns mid (w1, st.2)).1).
  { apply turns_in_step. split; cbn [fst].
    - unfold registry_in_step. rewrite Hcl, Hio.
      apply (event_loop_in_step past).
    - apply (start_keeps_next_id s (Some o) cb st).
      + apply (event_loop_in_step past).
      + by rewrite Hstart. }
  destruct (resume_stored (Await.turns mid (w1, st.2)).1 s cb
              (new_row st.1 (field o "username") (trim t))
              Hreg Hne) as (Hr & Hall & _).
  assert (Hduring : (Await.on_chat_message_during s (Some o) cb mid st).1
                    = Await.resume_chat_message s cb
                        (DbOk (new_row st.1 (field o "username") (trim t)))
                        (Await.turns mid (w1, st.2)).1).
  { unfold Await.on_chat_message_during. by rewrite Hstart. }
  split; [done |]. rewrite Hduring. split; [exact Hr |]. split; [exact Hall |].
  intros ->. rewrite <- Hduring, resume_at_once.
  cbn [server_step fst]. unfold on_packet.
  destruct (decide (s ∈ io_sockets st.1)) as [_ |]; [| done].
  by destruct (decide ("chat message" = "chat message")).
Qed.

Lemma successful_send_is_shared_witness :
  let mid := [Await.Start "s2" (Some ann_hi) false;
              Await.Handle (Disconnect "s1"); Await.Resume 0] in
  let st :=
    Await.event_loop
      [Await.Handle (Connection "s1"); Await.Handle (Connection "s2")] in
  let w := st.1 in
  let row := new_row w (field ann_hi "username") (trim (lit "hi")) in
  ∃ w1,
    Await.start_chat_message "s1" (Some ann_hi) true w
    = Await.AwaitingStore (DbOk row) w1
    ∧ db_rows w1 = db_rows w ++ [row]
    ∧ wire w1 = wire w
    ∧ let w2 := (Await.turns mid (w1, st.2)).1 in
      let w' :=
        (Await.on_chat_message_during "s1" (Some ann_hi) true mid st).1 in
      w' = Await.resume_chat_message "s1" true (DbOk row) w2
      ∧ db_rows w' = db_rows w2
      ∧ (∀ s', delivered s' (wire w')
               = delivered s' (wire w2)
                 ++ (if decide ("s1" ∈ io_sockets w2)
                     then share w2 "s1" true row s' else []))
      ∧ (mid = [] →
         w' = server_step w
                (Packet_in "s1" "chat message" (Some ann_hi) true)).
Proof.
  apply (successful_send_is_shared
           [Await.Handle (Connection "s1"); Await.Handle (Connection "s2")]
           [Await.Start "s2" (Some ann_hi) false;
            Await.Handle (Disconnect "s1"); Await.Resume 0]
           "s1" ann_hi (lit "hi") true).
  - split; done.
  - reflexivity.
  - unfold Await.event_loop, Await.turns. simpl. set_solver.
  - done.
Defined.



(** X5.  A payload that is absent, or whose text is a truthy value that is
    not a string, makes the handler reply with the internal error, when a
    reply was asked for, and do nothing else: [Message.create] is not
    called, no row is stored and no socket is sent an event. *)
Theorem malformed_message_is_refused (w : World) (s : SocketId)
    (d : option obj) (cb : bool) :
  malformed d →
  let w' := (on_chat_message s d cb w).2 in
  w' = (if cb then set_wire (λ l, l ++ [Ack s internalErrorAck]) w else w)
  ∧ db_calls w' = db_calls w
  ∧ db_rows w' = db_rows w
  ∧ acks s (wire w')
    = acks s (wire w) ++ (if cb then [internalErrorAck] else [])
  ∧ ∀ s', delivered s' (wire w') = delivered s' (wire w).
Proof.
  cbv zeta. intros Hd.
  destruct (sendMessage_malformed w d (Some s) Hd) as [e H].
  destruct cb.
  - rewrite (on_chat_message_thrown _ _ _ _ _ H). simpl.
    repeat split; try done.
    + by rewrite acks_snoc_ack.
    + intros s'. by rewrite delivered_snoc_ack.
  - rewrite on_chat_message_silent, H. simpl.
    repeat split; try done. by rewrite app_nil_r.
Qed.

Lemma malformed_message_is_refused_witness :
  (on_chat_message "s1" (Some numeric_text) true two_clients).2
  = set_wire (λ l, l ++ [Ack "s1" internalErrorAck]) two_clients.
Proof.
  assert (Hd : malformed (Some numeric_text)).
  { right. exists numeric_text, (JNum 42). repeat split; done. }
  destruct (malformed_message_is_refused two_clients "s1"
              (Some numeric_text) true Hd) as [H _].
  exact H.
Defined.

(** X6.  In every state the server reaches, every stored message has a
    text that is not empty and has no blanks at its ends, and a sender whose
    name is truthy; and the store only grows: what happens later keeps the
    rows, in their order. *)
Theorem stored_messages_are_well_formed (es es' : list ServerEvent) :
  Forall well_formed_row (db_rows (server_run es))
  ∧ db_rows (server_run es) `prefix_of` db_rows (server_run (es ++ es')).
Proof.
  split; [apply server_run_ledger |].
  unfold server_run. rewrite fold_left_app. apply server_steps_rows.
Qed.

(** X7.  In every state the server reaches, every event on the wire is a
    "chat message" that carries the broadcast data of a stored row, with or
    without the own-message marker, and every reply that reports success is
    the acknowledgement of a stored row: nothing is announced or
    acknowledged that was not stored. *)
Theorem wire_tells_only_of_stored_messages (es : list ServerEvent) :
  Forall (from_store (db_rows (server_run es))) (wire (server_run es)).
Proof. apply server_run_ledger. Qed.

End ServerExtras.

(** * Starting up, the health probe and the earlier server *)

Section StartupFacts.

Import Startup.

Lemma attempts_success (authenticate : nat → outcome unit) (retries : nat)
    (delay : Z) (k : nat) :
  ∀ i todo,
    (k < todo)%nat → (i + todo = retries)%nat →
    refused authenticate i (i + k) → authenticate (i + k)%nat = Ret tt →
    attempts authenticate retries delay i todo
    = (Ret true, paced (S k) delay).
Proof.
  induction k as [| k IH]; intros i todo Hk Hsum Hre Hok.
  - destruct todo as [| todo]; [lia |]. simpl.
    rewrite Nat.add_0_r in Hok. by rewrite Hok.
  - destruct todo as [| todo]; [lia |]. simpl.
    destruct (Hre i) as [e He]; [lia |]. rewrite He.
    rewrite (IH (S i) todo); [| lia | lia | |].
    + simpl. destruct (Nat.ltb_spec i (retries - 1)) as [_ | Hge]; [| lia].
      done.
    + intros j Hj. apply Hre. lia.
    + by replace (S i + k)%nat with (i + S k)%nat by lia.
Qed.

Lemma attempts_failure (authenticate : nat → outcome unit) (retries : nat)
    (delay : Z) (todo : nat) :
  ∀ i,
    (i + todo = retries)%nat → refused authenticate i (i + todo) →
    attempts authenticate retries delay i todo
    = (Throw (lit "Failed to connect to database"), paced todo delay).
Proof.
  induction todo as [| todo IH]; intros i Hsum Hre; [done |].
  simpl. destruct (Hre i) as [e He]; [lia |]. rewrite He.
  rewrite (IH (S i)); [| lia |].
  - simpl. destruct todo as [| m].
    + destruct (Nat.ltb_spec i (retries - 1)) as [Hlt | _]; [lia | done].
    + destruct (Nat.ltb_spec i (retries - 1)) as [_ | Hge]; [done | lia].
  - intros j Hj. apply Hre. lia.
Qed.

(** X8.  [connectDatabaseWithRetry] stops at the first call of
    [authenticate] that succeeds, when that is one of the first [retries]
    calls: it returns [true] after exactly that many calls, having paused
    for [delay] after each refused call and not after the successful
    one. *)
Theorem connect_stops_at_first_success (authenticate : nat → outcome unit)
    (retries : nat) (delay : Z) (k : nat) :
  (k < retries)%nat → refused authenticate 0 k → authenticate k = Ret tt →
  connectDatabaseWithRetry authenticate retries delay
  = (Ret true, concat (replicate k [Authenticate; Sleep delay])
               ++ [Authenticate]).
Proof.
  intros Hk Hre Hok. unfold connectDatabaseWithRetry.
  by rewrite (attempts_success authenticate retries delay k 0 retries).
Qed.

Lemma connect_stops_at_first_success_witness :
  connectDatabaseWithRetry (up_from 2) 3 2000
  = (Ret true, [Authenticate; Sleep 2000; Authenticate; Sleep 2000;
                Authenticate]).
Proof.
  apply (connect_stops_at_first_success (up_from 2) 3 2000 2).
  - lia.
  - intros k Hk. exists (lit "connect ECONNREFUSED"). unfold up_from.
    destruct (Nat.ltb_spec k 2) as [_ | Hge]; [done | lia].
  - reflexivity.
Defined.

(** X9.  When the database refuses the first [retries] calls,
    [connectDatabaseWithRetry] throws 'Failed to connect to database' after
    exactly [retries] calls, with a pause between two calls and none after
    the last; with no retries it throws without calling at all. *)
Theorem connect_gives_up_after_retries (authenticate : nat → outcome unit)
    (retries : nat) (delay : Z) :
  refused authenticate 0 retries →
  connectDatabaseWithRetry authenticate retries delay
  = (Throw (lit "Failed to connect to database"), paced retries delay)
  ∧ length (filter (λ x, x = Authenticate) (paced retries delay)) = retries
  ∧ length (filter (λ x, x = Sleep delay) (paced retries delay))
    = (retries - 1)%nat
  ∧ last (paced retries delay) ≠ Some (Sleep delay).
Proof.
  intros Hre. split.
  { unfold connectDatabaseWithRetry. by apply attempts_failure. }
  destruct retries as [| m]; [done |]. clear Hre.
  unfold paced. rewrite !filter_app, !length_app, last_snoc.
  assert (H : length (filter (λ x, x = Authenticate)
                        (concat (replicate m [Authenticate; Sleep delay])))
              = m
              ∧ length (filter (λ x, x = Sleep delay)
                          (concat (replicate m [Authenticate; Sleep delay])))
                = m).
  { induction m as [| m [IH1 IH2]]; [done |]. simpl.
    rewrite !filter_cons.
    destruct (decide (Authenticate = Authenticate)) as [_ |]; [| done].
    destruct (decide (Sleep delay = Authenticate)) as [| _]; [done |].
    destruct (decide (Authenticate = Sleep delay)) as [| _]; [done |].
    destruct (decide (Sleep delay = Sleep delay)) as [_ |]; [| done].
    simpl. by rewrite IH1, IH2. }
  destruct H as [-> ->].
  rewrite !filter_cons, !filter_nil.
  destruct (decide (Authenticate = Authenticate)) as [_ |]; [| done].
  destruct (decide (Authenticate = Sleep delay)) as [| _]; [done |].
  simpl. repeat split; try lia. done.
Qed.

Lemma connect_gives_up_after_retries_witness :
  connectDatabaseWithRetry (up_from 5) 3 2000
  = (Throw (lit "Failed to connect to database"),
     [Authenticate; Sleep 2000; Authenticate; Sleep 2000; Authenticate]).
Proof.
  assert (Hre : refused (up_from 5) 0 3).
  { intros k Hk. exists (lit "connect ECONNREFUSED"). unfold up_from.
    destruct (Nat.ltb_spec k 5) as [_ | Hge]; [done | lia]. }
  destruct (connect_gives_up_after_retries (up_from 5) 3 2000 Hre) as [H _].
  exact H.
Defined.

(** X10.  [start] listens only after a call of [authenticate] among the
    first three has succeeded and [sync] has succeeded; after three refused
    calls it exits with code 1, four seconds of pauses behind it, without
    having synced or listened. *)
Theorem start_listens_only_when_connected (authenticate : nat → outcome unit)
    (sync listen : outcome unit) :
  (Listen ∈ start authenticate sync listen →
   (∃ k, (k < 3)%nat ∧ authenticate k = Ret tt) ∧ sync = Ret tt)
  ∧ (refused authenticate 0 3 →
     start authenticate sync listen
     = [Authenticate; Sleep 2000; Authenticate; Sleep 2000; Authenticate;
        Exit 1]).
Proof.
  split.
  - unfold start, connectDatabaseWithRetry. simpl.
    destruct (authenticate 0%nat) as [[] | e0] eqn:H0; simpl.
    { destruct sync as [[] | e]; simpl.
      - intros _. split; [| done]. exists 0%nat. split; [lia | done].
      - intros H. exfalso. set_solver. }
    destruct (authenticate 1%nat) as [[] | e1] eqn:H1; simpl.
    { destruct sync as [[] | e]; simpl.
      - intros _. split; [| done]. exists 1%nat. split; [lia | done].
      - intros H. exfalso. set_solver. }
    destruct (authenticate 2%nat) as [[] | e2] eqn:H2; simpl.
    { destruct sync as [[] | e]; simpl.
      - intros _. split; [| done]. exists 2%nat. split; [lia | done].
      - intros H. exfalso. set_solver. }
    intros H. exfalso. set_solver.
  - intros Hre. unfold start.
    destruct (connect_gives_up_after_retries authenticate 3 2000 Hre)
      as [-> _].
    reflexivity.
Qed.

End StartupFacts.

Section HealthFacts.

Import Health.

(** X11.  The health route answers 200 with the status 'healthy' whatever
    the adapters report: when the database refuses the probe, the answer
    still says 'healthy' and carries the refusal in the database entry; the
    503 answer is never given.  The page therefore shows ' Healthy' whenever
    the server answers, and ' Issues Detected' only for a body whose status
    is not the string 'healthy'. *)
Theorem health_route_always_says_healthy
    (databaseAdapter : option (outcome unit))
    (socketAdapter : option Server.World) (d : StatusDiv) :
  code (health databaseAdapter socketAdapter) = 200
  ∧ status (health databaseAdapter socketAdapter) = lit "healthy"
  ∧ (∀ e, databaseAdapter = Some (Throw e) →
       ∃ websocket,
         health databaseAdapter socketAdapter
         = Healthy {| healthy := false; message := e |} websocket)
  ∧ (∀ w, socketAdapter = Some w →
       ∃ database,
         health databaseAdapter socketAdapter
         = Healthy database (SocketHealthy (size (Server.clients w))))
  ∧ textContent (probe databaseAdapter socketAdapter d) = lit " Healthy"
  ∧ (∀ st, st ≠ JStr (lit "healthy") →
       textContent (checkServerHealth (Body st) d) = lit " Issues Detected")
  ∧ textContent (checkServerHealth Unreachable d)
    = CROSS_MARK ++ lit " Server Unreachable".
Proof.
  unfold probe, health.
  assert (Hpage : ∀ st, st ≠ JStr (lit "healthy") →
            textContent (checkServerHealth (Body st) d)
            = lit " Issues Detected").
  { intros st Hst. unfold checkServerHealth.
    destruct (strict_eq st (JStr (lit "healthy"))) eqn:Heq; [| done].
    by apply (strict_eq_str st (lit "healthy")) in Heq. }
  destruct databaseAdapter as [[[] | e0] |]; simpl.
  - repeat split; try done.
    + intros w ->. by eexists.
  - repeat split; try done.
    + intros e [= <-]. by eexists.
    + intros w ->. by eexists.
  - repeat split; try done.
    + intros w ->. by eexists.
Qed.

End HealthFacts.

Section LegacyFacts.

Import Server Legacy.








End LegacyFacts.

(** * Further properties of the page *)

Section HistoryFacts.

Import Client History.

Lemma insert_by_date_perm (m : Item) (l : list Item) :
  insert_by_date m l ≡ₚ m :: l.
Proof.
  induction l as [| x l IH]; simpl; [done |].
  destruct (createdAt m <=? createdAt x); [done |].
  rewrite IH. apply Permutation_swap.
Qed.

Lemma sort_perm (l : list Item) : sort l ≡ₚ l.
Proof.
  induction l as [| m l IH]; simpl; [done |].
  rewrite insert_by_date_perm. by rewrite IH.
Qed.

Lemma insert_by_date_ascending (m : Item) (l : list Item) :
  ascending l → ascending (insert_by_date m l).
Proof.
  induction l as [| x l IH]; simpl; [done |].
  intros [Hx Hl].
  destruct (Z.leb_spec (createdAt m) (createdAt x)) as [Hle | Hgt]; simpl.
  - split; [| done]. constructor; [done |].
    eapply Forall_impl; [exact Hx |]. intros y Hy. simpl in Hy. lia.
  - split; [| by apply IH].
    rewrite insert_by_date_perm. constructor; [lia | done].
Qed.

Lemma sort_ascending (l : list Item) : ascending (sort l).
Proof.
  induction l as [| m l IH]; simpl; [done |].
  by apply insert_by_date_ascending.
Qed.

Lemma at_time_insert (t : Z) (m : Item) (l : list Item) :
  at_time t (insert_by_date m l) = at_time t (m :: l).
Proof.
  unfold at_time. induction l as [| x l IH]; simpl; [done |].
  destruct (Z.leb_spec (createdAt m) (createdAt x)) as [Hle | Hgt]; [done |].
  rewrite (filter_cons _ x), IH, !filter_cons.
  destruct (decide (createdAt x = t)) as [Hx |];
    destruct (decide (createdAt m = t)) as [Hm |]; try done.
  lia.
Qed.

Lemma at_time_sort (t : Z) (l : list Item) : at_time t (sort l) = at_time t l.
Proof.
  induction l as [| m l IH]; simpl; [done |].
  rewrite at_time_insert. unfold at_time in *. rewrite !filter_cons.
  by rewrite IH.
Qed.

Lemma render_entry (m : Item) (s : State) :
  render m s
  = appendChild (entry_of (myName s) (next_node s) m)
      (set_next_node (S (next_node s)) s).
Proof.
  unfold render, createMessageElement, entry_of.
  cbn [m_id m_sender m_text m_createdAt m_isPending m_status].
  by destruct (strict_eq (username m) (JStr (myName s))).
Qed.

Lemma render_all (l : list Item) (s : State) :
  fold_left (λ s m, render m s) l s
  = set_messagesEl (messagesEl s ++ entries_of (myName s) (next_node s) l)
      (set_next_node (next_node s + length l) s).
Proof.
  revert s. induction l as [| m l IH]; intros s.
  - destruct s. unfold set_messagesEl, set_next_node. simpl.
    by rewrite app_nil_r, Nat.add_0_r.
  - simpl fold_left. rewrite IH, render_entry.
    destruct s. unfold set_messagesEl, set_next_node, appendChild. simpl.
    by rewrite <- app_assoc, Nat.add_succ_r.
Qed.

(** X16.  When the history arrives, the page appends one entry for each
    row after the entries it already shows, in ascending order of the time
    of the rows, rows of the same time in the order the server sent them;
    an entry is marked as the user's own exactly when the sender of the row
    is the user's name, and none is pending or has a button.  The pending
    map and the packets sent stay as they are.  When the answer does not
    come or is not [ok], the page only shows a notice. *)
Theorem history_is_appended_oldest_first (items : list Item) (s : State) :
  let s' := loadPreviousMessages (Items items) s in
  messagesEl s'
  = messagesEl s ++ entries_of (myName s) (next_node s) (sort items)
  ∧ sort items ≡ₚ items
  ∧ ascending (sort items)
  ∧ (∀ t, at_time t (sort items) = at_time t items)
  ∧ pendingMessages s' = pendingMessages s
  ∧ emitted s' = emitted s
  ∧ notifications s' = notifications s
  ∧ (∀ r, r = Unreachable ∨ r = NotOk →
       loadPreviousMessages r s
       = showNotification (lit "Could not load previous messages") true s).
Proof.
  cbv zeta. unfold loadPreviousMessages. rewrite render_all.
  split; [done |]. split; [apply sort_perm |].
  split; [apply sort_ascending |].
  split; [intros t; apply at_time_sort |].
  repeat split; try done. by intros r [-> | ->].
Qed.

End HistoryFacts.

Section TypingFacts.

Import History Client Outbox Page.

Lemma said_snoc (l : list string) (ev : string) :
  said (l ++ [ev])
  = match said l with
    | Some false => if decide (ev = "typing") then Some true else None
    | Some true => if decide (ev = "stop_typing") then Some false else None
    | None => None
    end.
Proof. unfold said. by rewrite fold_left_app. Qed.

Lemma same_typing_refl (s : State) : same_typing s s.
Proof. by repeat split. Qed.

Lemma same_typing_trans (s1 s2 s3 : State) :
  same_typing s1 s2 → same_typing s2 s3 → same_typing s1 s3.
Proof.
  intros (H1 & H2 & H3 & H4) (H1' & H2' & H3' & H4').
  repeat split; congruence.
Qed.

Lemma same_typing_acknowledged (p : Pending) (a : obj) (s : State) :
  same_typing s (acknowledged p a s).
Proof. unfold acknowledged. by destruct (strict_eq _ _). Qed.

Lemma same_typing_handleAcknowledgement (t : jsstring) (a : obj) (s : State) :
  same_typing s (handleAcknowledgement t a s).
Proof.
  unfold handleAcknowledgement.
  destruct (pendingMessages s !! t) as [p |]; [| apply same_typing_refl].
  eapply same_typing_trans; [| apply same_typing_acknowledged].
  by repeat split.
Qed.

Lemma same_typing_retry_acknowledged (n b : nat) (a : obj) (s : State) :
  same_typing s (retry_acknowledged n b a s).
Proof. unfold retry_acknowledged. by destruct (strict_eq _ _). Qed.

Lemma same_typing_on_ack (i : nat) (a : obj) (s : State) :
  same_typing s (on_ack i a s).
Proof.
  unfold on_ack. destruct (acks s !! i) as [[t | n b] |];
    [| | apply same_typing_refl].
  - eapply same_typing_trans; [| apply same_typing_handleAcknowledgement].
    by repeat split.
  - eapply same_typing_trans; [| apply same_typing_retry_acknowledged].
    by repeat split.
Qed.

Lemma same_typing_click_retry (n b : nat) (s : State) :
  same_typing s (click_retry n b s).
Proof.
  unfold click_retry. destruct (find_button n b s) as [r |];
    [| apply same_typing_refl].
  destruct (disabled r); [apply same_typing_refl |].
  rewrite retry_onclick_once. unfold socket_emit, update_li.
  repeat split. cbn [emitted set_emitted]. rewrite signals_snoc.
  cbn [event]. destruct (decide _) as [[H | H] |]; [done | done |].
  by rewrite app_nil_r.
Qed.

Lemma same_typing_handleIncomingMessage (msg : obj) (s : State) :
  same_typing s (handleIncomingMessage msg s).
Proof.
  unfold handleIncomingMessage.
  destruct (_ && _); [apply same_typing_refl |].
  by destruct (strict_eq _ _).
Qed.

Lemma same_typing_on_user_typing (data : obj) (s : State) :
  same_typing s (on_user_typing data s).
Proof.
  unfold on_user_typing, showTypingIndicator.
  destruct (strict_eq _ _); [apply same_typing_refl |].
  destruct (truthy _); [done |].
  by destruct (indicator s) as [[? ?] |].
Qed.

Lemma same_typing_setUsername (s : State) : same_typing s (setUsername s).
Proof. unfold setUsername. by destruct (trim (usernameInput s)). Qed.

Lemma same_typing_loadPreviousMessages (r : Fetched) (s : State) :
  same_typing s (loadPreviousMessages r s).
Proof.
  destruct r as [| | items]; [done | done |].
  unfold loadPreviousMessages. by rewrite render_all.
Qed.

Lemma same_typing_inv (s s' : State) :
  same_typing s s' →
  said (signals (emitted s)) = Some (isTyping s) ∧ debounced s →
  said (signals (emitted s')) = Some (isTyping s') ∧ debounced s'.
Proof.
  intros (H1 & H2 & H3 & H4) [Hs Hd]. unfold debounced in *.
  by rewrite H1, H2, H3, H4.
Qed.

Lemma handleTyping_inv (s : State) :
  said (signals (emitted s)) = Some (isTyping s) ∧ debounced s →
  said (signals (emitted (handleTyping s))) = Some (isTyping (handleTyping s))
  ∧ debounced (handleTyping s).
Proof.
  intros [Hs Hd]. unfold handleTyping.
  destruct (myName s) as [| c name]; [done |].
  unfold debounced in *.
  destruct (isTyping s) eqn:Ht.
  - cbn. rewrite Ht. split; [done |]. split; [done | lia].
  - unfold socket_emit. cbn [emitted set_emitted isTyping set_isTyping
      set_typingTimeout typingTimeout now].
    rewrite signals_snoc. cbn [event].
    destruct (decide _) as [_ | H]; [| destruct H; by left].
    rewrite said_snoc, Hs.
    split; [done |]. split; [done | lia].
Qed.

Lemma wait_inv (ms : Z) (s : State) :
  said (signals (emitted s)) = Some (isTyping s) ∧ debounced s →
  said (signals (emitted (wait ms s))) = Some (isTyping (wait ms s))
  ∧ debounced (wait ms s).
Proof.
  intros [Hs Hd]. unfold wait, debounced in *.
  cbn [typingTimeout set_now now].
  destruct (typingTimeout s) as [d |] eqn:Htimer.
  - destruct Hd as [Ht Hd].
    destruct (Z.leb_spec d (now s + Z.max 0 ms)) as [Hle | Hgt].
    + unfold typingTimeout_fires.
      cbn [isTyping set_typingTimeout set_now]. rewrite Ht.
      unfold socket_emit.
      cbn [emitted set_emitted isTyping set_isTyping set_typingTimeout
           typingTimeout set_now now].
      rewrite signals_snoc. cbn [event].
      destruct (decide _) as [_ | H]; [| destruct H; by right].
      by rewrite said_snoc, Hs, Ht.
    + cbn. rewrite Htimer. split; [done |]. split; [done | lia].
  - cbn. by rewrite Htimer.
Qed.

Lemma sendMessage_inv (s : State) :
  said (signals (emitted s)) = Some (isTyping s) ∧ debounced s →
  said (signals (emitted (sendMessage s))) = Some (isTyping (sendMessage s))
  ∧ debounced (sendMessage s).
Proof.
  intros [Hs Hd]. unfold sendMessage.
  destruct (trim (msgInput s)) as [| c text]; [done |].
  unfold debounced in *.
  destruct (isTyping s) eqn:Ht.
  - unfold socket_emit, createMessageElement, appendChild.
    cbn [emitted set_emitted isTyping set_isTyping set_typingTimeout
         typingTimeout set_now now set_msgInput set_acks set_ack_ids
         set_pendingMessages set_messagesEl set_next_node set_tempIdCounter].
    rewrite !signals_snoc. cbn [event].
    destruct (decide ("chat message" = "typing" ∨ _)) as [[H | H] | _];
      [done | done |].
    destruct (decide _) as [_ | H]; [| destruct H; by right].
    by rewrite app_nil_r, said_snoc, Hs.
  - unfold socket_emit, createMessageElement, appendChild.
    cbn [emitted set_emitted isTyping set_isTyping set_typingTimeout
         typingTimeout set_now now set_msgInput set_acks set_ack_ids
         set_pendingMessages set_messagesEl set_next_node set_tempIdCounter].
    rewrite !signals_snoc. cbn [event].
    destruct (decide ("chat message" = "typing" ∨ _)) as [[H | H] | _];
      [done | done |].
    rewrite app_nil_r, Hs.
    rewrite Ht. split; [done |].
    destruct (typingTimeout s) as [d |]; [by destruct Hd | done].
Qed.

Lemma client_step_typing (s : State) (e : ClientEvent) :
  said (signals (emitted s)) = Some (isTyping s) ∧ debounced s →
  said (signals (emitted (client_step s e)))
  = Some (isTyping (client_step s e))
  ∧ debounced (client_step s e).
Proof.
  intros H. destruct e as [v | v | | | key | n b | ms | i a | msg | data];
    unfold client_step.
  - apply handleTyping_inv.
    apply (same_typing_inv s (set_msgInput v s)); [by repeat split | done].
  - apply (same_typing_inv s (set_usernameInput v s));
      [by repeat split | done].
  - apply (same_typing_inv s); [apply same_typing_setUsername | done].
  - by apply sendMessage_inv.
  - destruct (decide _); [by apply sendMessage_inv | done].
  - apply (same_typing_inv s); [apply same_typing_click_retry | done].
  - by apply wait_inv.
  - apply (same_typing_inv s); [apply same_typing_on_ack | done].
  - apply (same_typing_inv s); [apply same_typing_handleIncomingMessage | done].
  - apply (same_typing_inv s); [apply same_typing_on_user_typing | done].
Qed.

Lemma page_run_typing (es : list PageEvent) (name : jsstring) :
  said (signals (emitted (page_run es (load name))))
  = Some (isTyping (page_run es (load name)))
  ∧ debounced (page_run es (load name)).
Proof.
  unfold page_run.
  assert (H : ∀ s,
    said (signals (emitted s)) = Some (isTyping s) ∧ debounced s →
    said (signals (emitted (fold_left page_step es s)))
    = Some (isTyping (fold_left page_step es s))
    ∧ debounced (fold_left page_step es s)).
  { induction es as [| e es IH]; intros s Hs; simpl; [done |].
    apply IH. destruct e as [e | r]; simpl.
    - by apply client_step_typing.
    - apply (same_typing_inv s);
        [apply same_typing_loadPreviousMessages | done]. }
  apply H. by split.
Qed.

(** X14.  In every state the page reaches, the typing signals it has sent
    alternate, beginning with a start: no start follows a start and no stop
    comes without a start before it.  The last signal says whether the page
    holds the user to be typing, and the debounce timer is armed exactly
    while it does, with a deadline at most one second away. *)
Theorem typing_signals_alternate (es : list PageEvent) (name : jsstring) :
  let s := page_run es (load name) in
  said (signals (emitted s)) = Some (isTyping s)
  ∧ match typingTimeout s with
    | Some deadline => isTyping s = true ∧ deadline ≤ now s + 1000
    | None => isTyping s = false
    end.
Proof. apply page_run_typing. Qed.

(** X15.  From every state the page reaches, a second without input ends
    the typing: the page is idle afterwards, and it has sent one stop
    signal if it held the user to be typing and no signal otherwise. *)
Theorem typing_stops_after_a_quiet_second (es : list PageEvent)
    (name : jsstring) (d : Z) :
  1000 ≤ d →
  let s := page_run es (load name) in
  idle (wait d s)
  ∧ signals (emitted (wait d s))
    = signals (emitted s) ++ (if isTyping s then ["stop_typing"] else []).
Proof.
  cbv zeta. intros Hd.
  destruct (page_run_typing es name) as [_ Hdeb].
  set (s := page_run es (load name)) in *.
  unfold debounced in Hdeb. unfold wait, idle.
  cbn [typingTimeout set_now now].
  destruct (typingTimeout s) as [dl |] eqn:Htimer.
  - destruct Hdeb as [Ht Hdl].
    destruct (Z.leb_spec dl (now s + Z.max 0 d)) as [_ | Hgt]; [| lia].
    unfold typingTimeout_fires.
    cbn [isTyping set_typingTimeout set_now]. rewrite Ht.
    unfold socket_emit.
    cbn [emitted set_emitted isTyping set_isTyping set_typingTimeout
         typingTimeout set_now now].
    rewrite signals_snoc. cbn [event].
    destruct (decide _) as [_ | H]; [| destruct H; by right].
    done.
  - cbn. rewrite Htimer, Hdeb. by rewrite app_nil_r.
Qed.

Lemma typing_stops_after_a_quiet_second_witness :
  let s := page_run [Ui (Input (lit "h"))] (load (lit "Ann")) in
  isTyping s = true
  ∧ idle (wait 1000 s)
  ∧ signals (emitted (wait 1000 s)) = ["typing"; "stop_typing"].
Proof.
  cbv zeta. split; [reflexivity |].
  apply (typing_stops_after_a_quiet_second [Ui (Input (lit "h"))]
           (lit "Ann") 1000).
  lia.
Defined.

End TypingFacts.

Section PageInvariant.

Import History Client Outbox Page.

(** *** Lists of entries *)

Lemma elem_of_map {A B} (f : A → B) (l : list A) (x : A) :
  x ∈ l → f x ∈ map f l.
Proof.
  induction l as [| y l IH]; simpl; intros Hx.
  - by apply elem_of_nil in Hx.
  - apply elem_of_cons in Hx as [-> | Hx]; apply elem_of_cons; auto.
Qed.

Lemma elem_of_map_inv {A B} (f : A → B) (l : list A) (y : B) :
  y ∈ map f l → ∃ x, x ∈ l ∧ y = f x.
Proof.
  induction l as [| z l IH]; simpl; intros Hy.
  - by apply elem_of_nil in Hy.
  - apply elem_of_cons in Hy as [-> | Hy].
    + exists z. split; [apply elem_of_cons; by left | done].
    + destruct (IH Hy) as (x & Hx & ->). exists x.
      split; [apply elem_of_cons; by right | done].
Qed.

Lemma same_node_same_entry (l : list Li) (e e' : Li) :
  NoDup (map node l) → e ∈ l → e' ∈ l → node e = node e' → e = e'.
Proof.
  induction l as [| x l IH]; simpl; intros Hnd He He' Hn.
  - by apply elem_of_nil in He.
  - apply NoDup_cons in Hnd as [Hx Hnd].
    apply elem_of_cons in He as [-> | He];
      apply elem_of_cons in He' as [-> | He'].
    + done.
    + destruct Hx. rewrite Hn. by apply elem_of_map.
    + destruct Hx. rewrite <- Hn. by apply elem_of_map.
    + by apply IH.
Qed.

Lemma map_node_at_node (n : nat) (f : Li → Li) (l : list Li) :
  keeps_node f → map node (map (at_node n f) l) = map node l.
Proof.
  intros Hf. rewrite map_map. apply map_ext. intros e.
  unfold at_node. by destruct (decide _).
Qed.

Lemma at_node_other (n : nat) (f : Li → Li) (e : Li) :
  node e ≠ n → at_node n f e = e.
Proof. intros H. unfold at_node. by destruct (decide _). Qed.

Lemma at_node_same (n : nat) (f : Li → Li) (e : Li) :
  node e = n → at_node n f e = f e.
Proof. intros H. unfold at_node. by destruct (decide _). Qed.

(** *** The invariant, piece by piece *)

Lemma inv_update (n : nat) (f : Li → Li) (l : list Li) (k : nat)
    (P : gmap jsstring Pending) (A : gmap nat Callback) (C : list obj) :
  page_inv l k P A C → keeps_node f →
  (∀ e, e ∈ l → node e = n → entry_ok e → entry_ok (f e)) →
  (∀ t p, P !! t = Some p → li p ≠ n) →
  page_inv (map (at_node n f) l) k P A C.
Proof.
  intros [Hnd Hal Hok Hps Hpa Hra Hss] Hf Hentry Hfree. constructor.
  - by rewrite map_node_at_node.
  - by apply Forall_at_node.
  - apply Forall_forall. intros x Hx.
    apply elem_of_map_inv in Hx as (e & He & ->).
    rewrite Forall_forall in Hok.
    unfold at_node. destruct (decide _) as [Hn | Hn]; [| by apply Hok].
    apply Hentry; [done | done | by apply Hok].
  - intros t p Hp. destruct (Hps t p Hp) as [Hsend (e & He & Haw)].
    split; [done |]. exists e. split; [| done].
    rewrite <- (at_node_other n f e).
    + by apply elem_of_map.
    + destruct Haw as [-> _]. by apply (Hfree t).
  - done.
  - done.
  - done.
Qed.

Lemma inv_append (e : Li) (l : list Li) (k : nat)
    (P : gmap jsstring Pending) (A : gmap nat Callback) (C : list obj) :
  page_inv l k P A C → node e = k → entry_ok e →
  page_inv (l ++ [e]) (S k) P A C.
Proof.
  intros [Hnd Hal Hok Hps Hpa Hra Hss] Hn He. constructor.
  - rewrite map_app. apply NoDup_app. split; [done |]. split.
    + intros x Hx Hx'. simpl in Hx'. apply list_elem_of_singleton in Hx'.
      apply elem_of_map_inv in Hx as (y & Hy & ->).
      rewrite Forall_forall in Hal. specialize (Hal y Hy). simpl in Hal. lia.
    + simpl. apply NoDup_singleton.
  - apply Forall_app. split; [by apply Forall_older |].
    constructor; [simpl; lia | done].
  - apply Forall_app. split; [done |]. by constructor.
  - intros t p Hp. destruct (Hps t p Hp) as [Hsend (x & Hx & Haw)].
    split; [done |]. exists x. split; [| done]. apply elem_of_app. by left.
  - done.
  - intros i n b Hi. destruct (Hra i n b Hi) as [Hlt Hfree].
    split; [lia | done].
  - done.
Qed.

Lemma inv_bump (l : list Li) (k : nat)
    (P : gmap jsstring Pending) (A : gmap nat Callback) (C : list obj) :
  page_inv l k P A C → page_inv l (S k) P A C.
Proof.
  intros [Hnd Hal Hok Hps Hpa Hra Hss]. constructor; try done.
  - by apply Forall_older.
  - intros i n b Hi. destruct (Hra i n b Hi) as [Hlt Hfree].
    split; [lia | done].
Qed.

Lemma inv_pending_insert (t : jsstring) (p : Pending) (l : list Li) (k : nat)
    (P : gmap jsstring Pending) (A : gmap nat Callback) (C : list obj) :
  page_inv l k P A C → sendable (text p) →
  (∃ e, e ∈ l ∧ awaits p e) →
  (∀ t' p', P !! t' = Some p' → li p' ≠ li p) →
  (∀ i n b, A !! i = Some (RetryAckOf n b) → n ≠ li p) →
  page_inv l k (<[t := p]> P) A C.
Proof.
  intros [Hnd Hal Hok Hps Hpa Hra Hss] Hsend Hshown Hnew Hretry.
  constructor; try done.
  - intros t' p' Hp'. destruct (decide (t' = t)) as [-> | Hne].
    + rewrite lookup_insert_eq in Hp'. by inversion Hp'; subst.
    + rewrite lookup_insert_ne in Hp' by done. by apply (Hps t').
  - intros t1 t2 p1 p2 H1 H2 Hli.
    destruct (decide (t1 = t)) as [-> | Hne1];
      destruct (decide (t2 = t)) as [-> | Hne2]; try done.
    + rewrite lookup_insert_eq in H1. rewrite lookup_insert_ne in H2 by done.
      inversion H1; subst. by destruct (Hnew t2 p2 H2).
    + rewrite lookup_insert_eq in H2. rewrite lookup_insert_ne in H1 by done.
      inversion H2; subst. by destruct (Hnew t1 p1 H1).
    + rewrite lookup_insert_ne in H1, H2 by done. by apply (Hpa t1 t2 p1 p2).
  - intros i n b Hi. destruct (Hra i n b Hi) as [Hlt Hfree].
    split; [done |]. intros t' p' Hp'.
    destruct (decide (t' = t)) as [-> | Hne].
    + rewrite lookup_insert_eq in Hp'. inversion Hp'; subst.
      intros Heq. by apply (Hretry i n b).
    + rewrite lookup_insert_ne in Hp' by done. by apply (Hfree t').
Qed.

Lemma inv_pending_delete (t : jsstring) (l : list Li) (k : nat)
    (P : gmap jsstring Pending) (A : gmap nat Callback) (C : list obj) :
  page_inv l k P A C → page_inv l k (delete t P) A C.
Proof.
  intros [Hnd Hal Hok Hps Hpa Hra Hss]. constructor; try done.
  - intros t' p' Hp'. apply lookup_delete_Some in Hp' as [_ Hp'].
    by apply (Hps t').
  - intros t1 t2 p1 p2 H1 H2.
    apply lookup_delete_Some in H1 as [_ H1].
    apply lookup_delete_Some in H2 as [_ H2].
    by apply Hpa.
  - intros i n b Hi. destruct (Hra i n b Hi) as [Hlt Hfree].
    split; [done |]. intros t' p' Hp'.
    apply lookup_delete_Some in Hp' as [_ Hp']. by apply (Hfree t').
Qed.

Lemma inv_acks_insert (i : nat) (cb : Callback) (l : list Li) (k : nat)
    (P : gmap jsstring Pending) (A : gmap nat Callback) (C : list obj) :
  page_inv l k P A C →
  (∀ n b, cb = RetryAckOf n b →
          (n < k)%nat ∧ ∀ t p, P !! t = Some p → li p ≠ n) →
  page_inv l k P (<[i := cb]> A) C.
Proof.
  intros [Hnd Hal Hok Hps Hpa Hra Hss] Hcb. constructor; try done.
  intros j n b Hj. destruct (decide (j = i)) as [-> | Hne].
  - rewrite lookup_insert_eq in Hj. inversion Hj; subst. by apply (Hcb n b).
  - rewrite lookup_insert_ne in Hj by done. by apply (Hra j n b).
Qed.

Lemma inv_acks_delete (i : nat) (l : list Li) (k : nat)
    (P : gmap jsstring Pending) (A : gmap nat Callback) (C : list obj) :
  page_inv l k P A C → page_inv l k P (delete i A) C.
Proof.
  intros [Hnd Hal Hok Hps Hpa Hra Hss]. constructor; try done.
  intros j n b Hj. apply lookup_delete_Some in Hj as [_ Hj].
  by apply (Hra j n b).
Qed.

Lemma inv_sent (u t : jsstring) (l : list Li) (k : nat)
    (P : gmap jsstring Pending) (A : gmap nat Callback) (C : list obj) :
  page_inv l k P A C → sendable t →
  page_inv l k P A (C ++ [chatPayload u t]).
Proof.
  intros [Hnd Hal Hok Hps Hpa Hra Hss] Ht. constructor; try done.
  apply Forall_app. split; [done |]. constructor; [| done].
  by exists u, t.
Qed.

Lemma same_page_ok (s s' : State) : same_page s s' → page_ok s → page_ok s'.
Proof.
  intros (H1 & H2 & H3 & H4 & H5). unfold page_ok.
  by rewrite H1, H2, H3, H4, H5.
Qed.


(** *** The steps of the page *)

Ltac node_kept :=
  repeat apply keeps_node_compose;
  first [apply keeps_node_set_classes | apply keeps_node_set_buttons
        | apply keeps_node_update].

Lemma entry_ok_no_buttons (e : Li) : buttons e = [] → entry_ok e.
Proof.
  intros H. unfold entry_ok. rewrite H. split; [simpl; lia | constructor].
Qed.

Lemma status_only_buttons (st : jsstring) (e : Li) :
  buttons (updateMessageElement (statusOnly st) e) = buttons e.
Proof.
  unfold updateMessageElement, statusOnly.
  cbn [u_sender u_text u_createdAt u_status u_id truthy andb].
  by destruct st.
Qed.

Lemma status_only_content (st : jsstring) (e : Li) :
  content (updateMessageElement (statusOnly st) e) = content e.
Proof.
  unfold updateMessageElement, statusOnly.
  cbn [u_sender u_text u_createdAt u_status u_id truthy andb].
  by destruct st.
Qed.

Lemma timestamp_drops_buttons (u : Updates) (d : option Z) (e : Li) :
  u_createdAt u = Some d → buttons (updateMessageElement u e) = [].
Proof.
  intros H. unfold updateMessageElement. rewrite H.
  by destruct (truthy (u_sender u) && truthy (u_text u)),
       (truthy (u_status u)), (truthy (u_id u)).
Qed.

Lemma entry_ok_map (g : RetryButton → RetryButton) (e e' : Li) :
  content e' = content e → buttons e' = map g (buttons e) →
  (∀ r, bound_text (g r) = bound_text r
        ∧ bound_username (g r) = bound_username r) →
  entry_ok e → entry_ok e'.
Proof.
  intros Hc Hb Hg [Hlen Hall]. unfold entry_ok.
  rewrite Hb, Hc, length_map. split; [done |].
  apply Forall_forall. intros x Hx.
  apply elem_of_map_inv in Hx as (r & Hr & ->).
  rewrite Forall_forall in Hall. destruct (Hg r) as [-> ->]. by apply Hall.
Qed.

Lemma entry_ok_filter (q : RetryButton → Prop) `{∀ r, Decision (q r)}
    (e e' : Li) :
  content e' = content e → buttons e' = filter q (buttons e) →
  entry_ok e → entry_ok e'.
Proof.
  intros Hc Hb [Hlen Hall]. unfold entry_ok. rewrite Hb, Hc. split.
  - pose proof (length_filter q (buttons e)). lia.
  - apply Forall_forall. intros x Hx.
    apply list_elem_of_filter in Hx as [_ Hx].
    rewrite Forall_forall in Hall. by apply Hall.
Qed.

Lemma button_state_keeps (d : bool) (lb : jsstring) (b : nat)
    (r : RetryButton) :
  bound_text (if decide (btn r = b) then button_state d lb r else r)
  = bound_text r
  ∧ bound_username (if decide (btn r = b) then button_state d lb r else r)
    = bound_username r.
Proof. by destruct (decide _). Qed.

Lemma entry_ok_retrying (b : nat) (e : Li) :
  entry_ok e → entry_ok (retrying b e).
Proof.
  apply (entry_ok_map
           (λ r, if decide (btn r = b)
                 then button_state true (lit "Retrying...") r else r)).
  - unfold retrying, compose. by rewrite status_only_content.
  - unfold retrying, compose. by rewrite status_only_buttons.
  - intros r. apply button_state_keeps.
Qed.

Lemma entry_ok_failed_again (b : nat) (a : obj) (e : Li) :
  entry_ok e → entry_ok (failed_again b a e).
Proof.
  apply (entry_ok_map
           (λ r, if decide (btn r = b)
                 then button_state false (lit "Retry") r else r)).
  - unfold failed_again, compose, set_button, set_buttons.
    cbn [content]. by rewrite status_only_content.
  - unfold failed_again, compose, set_button, set_buttons.
    cbn [buttons]. by rewrite status_only_buttons.
  - intros r. apply button_state_keeps.
Qed.

Lemma entry_ok_delivered_by_retry (b : nat) (e : Li) :
  entry_ok e → entry_ok (delivered_by_retry b e).
Proof.
  apply (entry_ok_filter (λ r, btn r ≠ b)).
  - unfold delivered_by_retry, compose, remove_button, set_buttons.
    cbn [content set_classes]. by rewrite status_only_content.
  - unfold delivered_by_retry, compose, remove_button, set_buttons.
    cbn [buttons set_classes]. by rewrite status_only_buttons.
Qed.

Lemma entry_ok_failed_first (a : obj) (nn : nat) (p : Pending) (e : Li) :
  awaits p e → sendable (text p) →
  entry_ok (failed_first a nn (username p) (text p) e).
Proof.
  intros (_ & _ & Hb & Hc) Hsend. unfold entry_ok, failed_first, compose.
  unfold set_buttons. cbn [buttons content].
  rewrite !status_only_buttons, !status_only_content.
  cbn [buttons content set_classes]. rewrite Hb, Hc.
  split; [simpl; lia |]. constructor; [| done]. by split.
Qed.

Lemma sendMessage_page (s : State) :
  trim (msgInput s) ≠ [] →
  ∃ e0,
    messagesEl (sendMessage s) = messagesEl s ++ [e0]
    ∧ awaits {| li := next_node s; username := senderName s;
               text := trim (msgInput s) |} e0
    ∧ next_node (sendMessage s) = S (next_node s)
    ∧ pendingMessages (sendMessage s)
      = <[tempId_of (tempIdCounter s) :=
            {| li := next_node s; username := senderName s;
               text := trim (msgInput s) |}]> (pendingMessages s)
    ∧ acks (sendMessage s)
      = <[ack_ids s := AckOf (tempId_of (tempIdCounter s))]> (acks s)
    ∧ chat_payloads (emitted (sendMessage s))
      = chat_payloads (emitted s)
        ++ [chatPayload (senderName s) (trim (msgInput s))].
Proof.
  intros Htext. unfold sendMessage.
  destruct (trim (msgInput s)) as [| c text] eqn:Ht; [done |].
  destruct (isTyping s); cbn -[chatPayload tempId_of senderName];
    eexists; (split; [reflexivity |]); (split; [by repeat split |]);
    do 3 (split; [reflexivity |]);
    unfold chat_payloads; rewrite !filter_app, !map_app, <- ?app_assoc;
    reflexivity.
Qed.

Lemma page_ok_sendMessage (s : State) : page_ok s → page_ok (sendMessage s).
Proof.
  intros Hok. destruct (decide (trim (msgInput s) = [])) as [Hb | Hb].
  - unfold sendMessage. rewrite Hb. by apply (same_page_ok s).
  - destruct (sendMessage_page s Hb) as (e0 & Hl & Haw & Hnn & Hp & Ha & Hc).
    unfold page_ok. rewrite Hl, Hnn, Hp, Ha, Hc.
    pose proof Hok as [Hnd Hal Hokk Hps Hpa Hra Hss].
    assert (Hsend : sendable (trim (msgInput s)))
      by (split; [done | apply trim_idemp]).
    apply inv_sent; [| done].
    apply inv_acks_insert; [| by intros n b [=]].
    apply inv_pending_insert.
    + apply inv_append; [done | apply Haw |].
      apply entry_ok_no_buttons, Haw.
    + done.
    + exists e0. split; [| done]. apply elem_of_app. right.
      by apply list_elem_of_singleton.
    + intros t' p' Hp'. cbn [li].
      destruct (Hps t' p' Hp') as [_ (x & Hx & Hxn & _)].
      rewrite Forall_forall in Hal. specialize (Hal x Hx). simpl in Hal. lia.
    + intros i n b Hi. destruct (Hra i n b Hi) as [Hlt _]. cbn [li]. lia.
Qed.

Lemma handleAcknowledgement_failed_page (t : jsstring) (a : obj) (s : State)
    (p : Pending) :
  pendingMessages s !! t = Some p → ¬ is_success a →
  messagesEl (handleAcknowledgement t a s)
  = map (at_node (li p)
           (failed_first a (next_node s) (username p) (text p)))
      (messagesEl s)
  ∧ next_node (handleAcknowledgement t a s) = S (next_node s)
  ∧ pendingMessages (handleAcknowledgement t a s)
    = delete t (pendingMessages s)
  ∧ acks (handleAcknowledgement t a s) = acks s
  ∧ emitted (handleAcknowledgement t a s) = emitted s.
Proof.
  intros Hp Ha.
  destruct (handleAcknowledgement_failure t a s p Hp Ha) as [Hl He].
  split; [done |].
  unfold handleAcknowledgement, acknowledged.
  rewrite Hp, (is_success_false _ Ha). by repeat split.
Qed.

Lemma handleAcknowledgement_succeeded_page (t : jsstring) (a : obj)
    (s : State) (p : Pending) :
  pendingMessages s !! t = Some p → is_success a →
  messagesEl (handleAcknowledgement t a s)
  = map (at_node (li p)
           (set_classes (class_add "me")
            ∘ set_classes (class_remove "pending")
            ∘ updateMessageElement
                {| u_id := field a "messageId";
                   u_sender := field a "sender";
                   u_text := field a "text";
                   u_createdAt := Some (newDate (field a "timestamp"));
                   u_status := JStr (CHECK_MARK ++ lit " Delivered") |}))
      (messagesEl s)
  ∧ next_node (handleAcknowledgement t a s) = next_node s
  ∧ pendingMessages (handleAcknowledgement t a s)
    = delete t (pendingMessages s)
  ∧ acks (handleAcknowledgement t a s) = acks s
  ∧ emitted (handleAcknowledgement t a s) = emitted s.
Proof.
  intros Hp Ha. unfold handleAcknowledgement, acknowledged.
  rewrite Hp, (is_success_true _ Ha).
  split; [| by repeat split].
  unfold update_li. cbn [messagesEl set_messagesEl showNotification
    set_notifications set_pendingMessages].
  rewrite !map_map. apply map_ext. intros e.
  rewrite !at_node_compose by node_kept. done.
Qed.

Lemma page_ok_handleAcknowledgement (t : jsstring) (a : obj) (s : State) :
  page_ok s → page_ok (handleAcknowledgement t a s).
Proof.
  intros Hok. destruct (pendingMessages s !! t) as [p |] eqn:Hp.
  2: { by rewrite handleAcknowledgement_absent. }
  pose proof Hok as [Hnd Hal Hokk Hps Hpa Hra Hss].
  destruct (Hps t p Hp) as [Hsend (e0 & He0 & Haw)].
  assert (Hfree : ∀ t' p', delete t (pendingMessages s) !! t' = Some p' →
                           li p' ≠ li p).
  { intros t' p' Hp' Heq. apply lookup_delete_Some in Hp' as [Hne Hp'].
    destruct Hne. by apply (Hpa t t' p p'). }
  assert (Hthe : ∀ e, e ∈ messagesEl s → node e = li p → e = e0).
  { intros e He Hn. apply (same_node_same_entry (messagesEl s)); try done.
    destruct Haw as [-> _]. done. }
  destruct (decide (is_success a)) as [Ha | Ha].
  - destruct (handleAcknowledgement_succeeded_page t a s p Hp Ha)
      as (Hl & Hnn & Hpp & Hack & Hem).
    unfold page_ok. rewrite Hl, Hnn, Hpp, Hack, Hem.
    apply inv_update; [by apply inv_pending_delete | node_kept | | done].
    intros e He Hn _. apply entry_ok_no_buttons.
    unfold compose, set_classes. cbn [buttons].
    by apply (timestamp_drops_buttons _ (newDate (field a "timestamp"))).
  - destruct (handleAcknowledgement_failed_page t a s p Hp Ha)
      as (Hl & Hnn & Hpp & Hack & Hem).
    unfold page_ok. rewrite Hl, Hnn, Hpp, Hack, Hem.
    apply inv_bump.
    apply inv_update;
      [by apply inv_pending_delete | apply keeps_node_failed_first | | done].
    intros e He Hn _. rewrite (Hthe e He Hn).
    by apply entry_ok_failed_first.
Qed.

Lemma find_button_Some (n b : nat) (s : State) (r : RetryButton) :
  find_button n b s = Some r →
  ∃ e, e ∈ messagesEl s ∧ node e = n ∧ r ∈ buttons e.
Proof.
  unfold find_button.
  destruct (list_find _ (messagesEl s)) as [[i e] |] eqn:He; simpl; [| done].
  destruct (list_find _ (buttons e)) as [[j r'] |] eqn:Hr; simpl; [| done].
  intros [= ->].
  apply list_find_Some in He as (Hi & Hn & _).
  apply list_find_Some in Hr as (Hj & _ & _).
  exists e. split; [by eapply list_elem_of_lookup_2 |].
  split; [done | by eapply list_elem_of_lookup_2].
Qed.

Lemma click_retry_page (n b : nat) (s : State) (r : RetryButton) :
  find_button n b s = Some r → disabled r = false →
  messagesEl (click_retry n b s)
  = map (at_node n (retrying (btn r))) (messagesEl s)
  ∧ next_node (click_retry n b s) = next_node s
  ∧ pendingMessages (click_retry n b s) = pendingMessages s
  ∧ acks (click_retry n b s)
    = <[ack_ids s := RetryAckOf n (btn r)]> (acks s)
  ∧ chat_payloads (emitted (click_retry n b s))
    = chat_payloads (emitted s)
      ++ [chatPayload (bound_username r) (bound_text r)].
Proof.
  intros Hf Hd. unfold click_retry. rewrite Hf, Hd, retry_onclick_once.
  unfold socket_emit, update_li.
  cbn [messagesEl next_node pendingMessages acks emitted set_emitted set_acks
       set_ack_ids set_messagesEl ack_ids].
  repeat split. rewrite chat_payloads_snoc. cbn [event payload].
  by destruct (decide _).
Qed.

Lemma page_ok_click_retry (n b : nat) (s : State) :
  page_ok s → page_ok (click_retry n b s).
Proof.
  intros Hok. destruct (find_button n b s) as [r |] eqn:Hf.
  2: { unfold click_retry. by rewrite Hf. }
  destruct (disabled r) eqn:Hd.
  { unfold click_retry. by rewrite Hf, Hd. }
  destruct (click_retry_page n b s r Hf Hd) as (Hl & Hnn & Hp & Ha & Hc).
  destruct (find_button_Some n b s r Hf) as (e & He & Hn & Hr).
  pose proof Hok as [Hnd Hal Hokk Hps Hpa Hra Hss].
  assert (Hfree : ∀ t p, pendingMessages s !! t = Some p → li p ≠ n).
  { intros t p Hp' Heq.
    destruct (Hps t p Hp') as [_ (e0 & He0 & Hn0 & _ & Hb0 & _)].
    assert (e = e0).
    { apply (same_node_same_entry (messagesEl s)); try done. congruence. }
    subst e0. rewrite Hb0 in Hr. by apply elem_of_nil in Hr. }
  assert (Hsend : sendable (bound_text r)).
  { rewrite Forall_forall in Hokk. destruct (Hokk e He) as [_ Hall].
    rewrite Forall_forall in Hall. by apply Hall. }
  unfold page_ok. rewrite Hl, Hnn, Hp, Ha, Hc.
  apply inv_sent; [| done].
  apply inv_acks_insert.
  - apply inv_update; [done | apply keeps_node_retrying | | done].
    intros x _ _. apply entry_ok_retrying.
  - intros n' b' [= <- <-]. split; [| done].
    rewrite Forall_forall in Hal. specialize (Hal e He). simpl in Hal. lia.
Qed.

Lemma page_ok_retry_acknowledged (i n b : nat) (a : obj) (s : State) :
  acks s !! i = Some (RetryAckOf n b) → page_ok s →
  page_ok (retry_acknowledged n b a (set_acks (delete i (acks s)) s)).
Proof.
  intros Hi Hok. pose proof Hok as [Hnd Hal Hokk Hps Hpa Hra Hss].
  destruct (Hra i n b Hi) as [_ Hfree].
  destruct (decide (is_success a)) as [Ha | Ha].
  - rewrite retry_acknowledged_success_once by done.
    unfold page_ok, update_li.
    cbn [messagesEl next_node pendingMessages acks emitted set_acks
         set_messagesEl].
    apply inv_update;
      [by apply inv_acks_delete | apply keeps_node_delivered_by_retry
      | | done].
    intros x _ _. apply entry_ok_delivered_by_retry.
  - rewrite retry_acknowledged_failure_once by done.
    unfold page_ok, update_li.
    cbn [messagesEl next_node pendingMessages acks emitted set_acks
         set_messagesEl].
    apply inv_update;
      [by apply inv_acks_delete | apply keeps_node_failed_again | | done].
    intros x _ _. apply entry_ok_failed_again.
Qed.

Lemma page_ok_on_ack (i : nat) (a : obj) (s : State) :
  page_ok s → page_ok (on_ack i a s).
Proof.
  intros Hok. unfold on_ack.
  destruct (acks s !! i) as [[t | n b] |] eqn:Hi; [| | done].
  - apply page_ok_handleAcknowledgement. unfold page_ok.
    cbn [messagesEl next_node pendingMessages acks emitted set_acks].
    by apply inv_acks_delete.
  - by apply (page_ok_retry_acknowledged i).
Qed.

Lemma handleIncomingMessage_page (msg : obj) (s : State) :
  handleIncomingMessage msg s = s
  ∨ ∃ e,
      messagesEl (handleIncomingMessage msg s) = messagesEl s ++ [e]
      ∧ node e = next_node s ∧ buttons e = []
      ∧ next_node (handleIncomingMessage msg s) = S (next_node s)
      ∧ pendingMessages (handleIncomingMessage msg s) = pendingMessages s
      ∧ acks (handleIncomingMessage msg s) = acks s
      ∧ emitted (handleIncomingMessage msg s) = emitted s.
Proof.
  unfold handleIncomingMessage.
  destruct (_ && _); [by left |]. right.
  destruct (strict_eq _ _); eexists; by repeat split.
Qed.

Lemma page_ok_handleIncomingMessage (msg : obj) (s : State) :
  page_ok s → page_ok (handleIncomingMessage msg s).
Proof.
  intros Hok.
  destruct (handleIncomingMessage_page msg s)
    as [-> | (e & Hl & Hn & Hb & Hnn & Hp & Ha & Hem)]; [done |].
  unfold page_ok. rewrite Hl, Hnn, Hp, Ha, Hem.
  apply inv_append; [done | done | by apply entry_ok_no_buttons].
Qed.

Lemma same_page_handleTyping (s : State) : same_page s (handleTyping s).
Proof.
  unfold handleTyping. destruct (myName s); [done |].
  destruct (isTyping s); [done |].
  unfold socket_emit. repeat split.
  cbn [emitted set_emitted set_typingTimeout set_isTyping].
  rewrite chat_payloads_snoc. cbn [event].
  destruct (decide _); [done |]. by rewrite app_nil_r.
Qed.

Lemma same_page_wait (ms : Z) (s : State) : same_page s (wait ms s).
Proof.
  unfold wait. cbn [typingTimeout set_now].
  destruct (typingTimeout s) as [d |]; [| done].
  destruct (d <=? _); [| done].
  unfold typingTimeout_fires. cbn [isTyping set_typingTimeout set_now].
  destruct (isTyping s); [| done].
  unfold socket_emit. repeat split.
  cbn [emitted set_emitted set_typingTimeout set_isTyping set_now].
  rewrite chat_payloads_snoc. cbn [event].
  destruct (decide _); [done |]. by rewrite app_nil_r.
Qed.

Lemma same_page_setUsername (s : State) : same_page s (setUsername s).
Proof. unfold setUsername. by destruct (trim (usernameInput s)). Qed.

Lemma same_page_on_user_typing (data : obj) (s : State) :
  same_page s (on_user_typing data s).
Proof.
  unfold on_user_typing, showTypingIndicator.
  destruct (strict_eq _ _); [done |]. destruct (truthy _); [done |].
  by destruct (indicator s) as [[? ?] |].
Qed.

Lemma inv_entries (name : jsstring) (items : list Item)
    (P : gmap jsstring Pending) (A : gmap nat Callback) (C : list obj) :
  ∀ l k, page_inv l k P A C →
         page_inv (l ++ entries_of name k items) (k + length items) P A C.
Proof.
  induction items as [| m items IH]; intros l k Hinv; simpl.
  - by rewrite app_nil_r, Nat.add_0_r.
  - replace (k + S (length items))%nat with (S k + length items)%nat by lia.
    replace (l ++ entry_of name k m :: entries_of name (S k) items)
      with ((l ++ [entry_of name k m]) ++ entries_of name (S k) items)
      by (by rewrite <- app_assoc).
    apply IH. apply inv_append; [done | done |].
    by apply entry_ok_no_buttons.
Qed.

Lemma page_ok_loadPreviousMessages (r : Fetched) (s : State) :
  page_ok s → page_ok (loadPreviousMessages r s).
Proof.
  intros Hok. destruct r as [| | items]; [done | done |].
  unfold loadPreviousMessages. rewrite render_all. unfold page_ok.
  cbn [messagesEl next_node pendingMessages acks emitted set_messagesEl
       set_next_node].
  by apply inv_entries.
Qed.

Lemma page_step_ok (s : State) (e : PageEvent) :
  page_ok s → page_ok (page_step s e).
Proof.
  intros Hok. destruct e as [e | r]; [| by apply page_ok_loadPreviousMessages].
  destruct e as [v | v | | | key | n b | ms | i a | msg | data];
    unfold page_step, client_step.
  - apply (same_page_ok (set_msgInput v s)); [apply same_page_handleTyping |].
    done.
  - done.
  - apply (same_page_ok s); [apply same_page_setUsername | done].
  - by apply page_ok_sendMessage.
  - destruct (decide _); [by apply page_ok_sendMessage | done].
  - by apply page_ok_click_retry.
  - apply (same_page_ok s); [apply same_page_wait | done].
  - by apply page_ok_on_ack.
  - by apply page_ok_handleIncomingMessage.
  - apply (same_page_ok s); [apply same_page_on_user_typing | done].
Qed.

Lemma page_run_ok (es : list PageEvent) (name : jsstring) :
  page_ok (page_run es (load name)).
Proof.
  unfold page_run.
  assert (H : ∀ s, page_ok s → page_ok (fold_left page_step es s)).
  { induction es as [| e es IH]; intros s Hs; simpl; [done |].
    apply IH. by apply page_step_ok. }
  apply H. constructor; simpl; try done. apply NoDup_nil_2.
Qed.


(** *** What the invariant gives *)

(** X17.  In every state the page reaches: the entries of the list are
    distinct elements; an entry has at most one retry button; every message
    that awaits its reply has exactly one entry, which is in the pending
    state, has no button and shows the sender and the text of the message;
    and two messages that await their replies have different entries. *)
Theorem pending_messages_keep_their_entry (es : list PageEvent)
    (name : jsstring) :
  let s := page_run es (load name) in
  NoDup (map node (messagesEl s))
  ∧ Forall (λ e, (length (buttons e) ≤ 1)%nat) (messagesEl s)
  ∧ (∀ t p, pendingMessages s !! t = Some p →
       ∃ e, e ∈ messagesEl s
            ∧ node e = li p ∧ classList e = ["pending"] ∧ buttons e = []
            ∧ content e = (JStr (username p), JStr (text p))
            ∧ ∀ e', e' ∈ messagesEl s → node e' = li p → e' = e)
  ∧ (∀ t t' p p',
       pendingMessages s !! t = Some p → pendingMessages s !! t' = Some p' →
       li p = li p' → t = t').
Proof.
  cbv zeta. destruct (page_run_ok es name) as [Hnd Hal Hok Hps Hpa Hra Hss].
  split; [done |]. split; [| split; [| done]].
  - eapply Forall_impl; [exact Hok |]. by intros e [H _].
  - intros t p Hp. destruct (Hps t p Hp) as [_ (e & He & Hn & Hc & Hb & Hct)].
    exists e. repeat split; try done.
    intros e' He' Hn'.
    apply (same_node_same_entry (messagesEl (page_run es (load name))));
      try done.
    congruence.
Qed.

(** X18.  In every state the page reaches, every "chat message" it has
    sent, first send or retry, carries a text that is not empty and has no
    blanks at its ends, so that the server never refuses it as empty. *)
Theorem page_sends_only_sendable_text (es : list PageEvent)
    (name : jsstring) :
  let s := page_run es (load name) in
  Forall (λ c, ∃ u t, c = chatPayload u t ∧ t ≠ [] ∧ trim t = t)
    (chat_payloads (emitted s))
  ∧ (∀ c w sid,
       c ∈ chat_payloads (emitted s) →
       ∃ r w1,
         Server.sendMessage (Some c) sid w = (Ret r, w1)
         ∧ ∀ e, r ≠ Server.SendFailure e Server.VALIDATION_ERROR).
Proof.
  cbv zeta. destruct (page_run_ok es name) as [Hnd Hal Hok Hps Hpa Hra Hss].
  split.
  - eapply Forall_impl; [exact Hss |].
    intros c (u & t & -> & Ht & Htt). by exists u, t.
  - intros c w sid Hc. rewrite Forall_forall in Hss.
    destruct (Hss c Hc) as (u & t & -> & Ht & Htt).
    assert (Ho : Protocol.has_text (chatPayload u t) t).
    { split; [done |]. by rewrite Htt. }
    rewrite (sendMessage_with_text w _ t sid Ho).
    destruct (Server.db_fault w) as [e |] eqn:Hf.
    + destruct (saveMessage_down w
                  (jsor (field (chatPayload u t) "username")
                     (JStr (lit "Anonymous"))) (trim t) e Hf)
        as (w1 & -> & _).
      do 2 eexists. split; [done |]. intros e' He'.
      apply codes_distinct. congruence.
    + destruct (saveMessage_up w
                  (jsor (field (chatPayload u t) "username")
                     (JStr (lit "Anonymous"))) (trim t) Hf)
        as (w1 & -> & _).
      do 2 eexists. split; [done |]. by intros e'.
Qed.

Lemma page_step_nodes (s : State) (e : PageEvent) :
  map node (messagesEl s) `prefix_of` map node (messagesEl (page_step s e)).
Proof.
  destruct e as [e | r].
  2: { destruct r as [| | items]; [done | done |].
       unfold page_step, loadPreviousMessages. rewrite render_all.
       cbn [messagesEl set_messagesEl set_next_node].
       rewrite map_app. by apply prefix_app_r. }
  destruct e as [v | v | | | key | n b | ms | i a | msg | data];
    unfold page_step, client_step.
  - destruct (same_page_handleTyping (set_msgInput v s)) as [-> _]. done.
  - done.
  - destruct (same_page_setUsername s) as [-> _]. done.
  - destruct (decide (trim (msgInput s) = [])) as [Hb | Hb].
    + unfold sendMessage. by rewrite Hb.
    + destruct (sendMessage_page s Hb) as (e0 & -> & _).
      rewrite map_app. by apply prefix_app_r.
  - destruct (decide _); [| done].
    destruct (decide (trim (msgInput s) = [])) as [Hb | Hb].
    + unfold sendMessage. by rewrite Hb.
    + destruct (sendMessage_page s Hb) as (e0 & -> & _).
      rewrite map_app. by apply prefix_app_r.
  - destruct (find_button n b s) as [r |] eqn:Hf.
    2: { unfold click_retry. by rewrite Hf. }
    destruct (disabled r) eqn:Hd.
    { unfold click_retry. by rewrite Hf, Hd. }
    destruct (click_retry_page n b s r Hf Hd) as (-> & _).
    rewrite map_node_at_node; [done | apply keeps_node_retrying].
  - destruct (same_page_wait ms s) as [-> _]. done.
  - unfold on_ack. destruct (acks s !! i) as [[t | n b] |]; [| | done].
    + set (s1 := set_acks (delete i (acks s)) s).
      change (messagesEl s) with (messagesEl s1).
      destruct (pendingMessages s1 !! t) as [p |] eqn:Hp.
      2: { by rewrite handleAcknowledgement_absent. }
      destruct (decide (is_success a)) as [Ha | Ha].
      * destruct (handleAcknowledgement_succeeded_page t a s1 p Hp Ha)
          as (-> & _).
        rewrite map_node_at_node; [done | node_kept].
      * destruct (handleAcknowledgement_failed_page t a s1 p Hp Ha)
          as (-> & _).
        rewrite map_node_at_node; [done | apply keeps_node_failed_first].
    + destruct (decide (is_success a)) as [Ha | Ha].
      * rewrite retry_acknowledged_success_once by done.
        unfold update_li. cbn [messagesEl set_messagesEl set_acks].
        rewrite map_node_at_node;
          [done | apply keeps_node_delivered_by_retry].
      * rewrite retry_acknowledged_failure_once by done.
        unfold update_li. cbn [messagesEl set_messagesEl set_acks].
        rewrite map_node_at_node; [done | apply keeps_node_failed_again].
  - destruct (handleIncomingMessage_page msg s) as [-> | (e & -> & _)];
      [done |].
    rewrite map_app. by apply prefix_app_r.
  - destruct (same_page_on_user_typing data s) as [-> _]. done.
Qed.

(** X19.  Whatever happens to the page, in whatever state, the entries it
    shows stay in the list, in their order: an entry is never removed,
    replaced by another element or moved; new entries come at the end. *)
Theorem entries_are_never_removed (es : list PageEvent) (s : State) :
  map node (messagesEl s) `prefix_of` map node (messagesEl (page_run es s)).
Proof.
  unfold page_run. revert s.
  induction es as [| e es IH]; intros s; simpl; [done |].
  etrans; [apply page_step_nodes | apply IH].
Qed.

End PageInvariant.

(** * A message from the page to the server and back *)

Section RoundTrip.

Import Protocol Outbox Page.

Lemma sendMessage_emits (s : Client.State) :
  trim (Client.msgInput s) ≠ [] →
  last (Client.emitted (Client.sendMessage s))
  = Some {| Client.event := "chat message";
            Client.payload :=
              Client.chatPayload (Client.senderName s)
                (trim (Client.msgInput s));
            Client.ack_id := Some (Client.ack_ids s) |}.
Proof.
  intros Htext. unfold Client.sendMessage.
  destruct (trim (Client.msgInput s)) as [| c text] eqn:Ht; [done |].
  destruct (Client.isTyping s);
    cbn -[Client.chatPayload Client.tempId_of Client.senderName];
    by rewrite last_snoc.
Qed.

Lemma handleIncomingMessage_own_entry (msg : obj) (s : Client.State) :
  truthy (field msg "isOwnMessage") = true →
  ∃ e,
    Client.messagesEl (Client.handleIncomingMessage msg s)
    = Client.messagesEl s ++ [e]
    ∧ Client.messageId e = field msg "id"
    ∧ Client.content e = (field msg "sender", field msg "text")
    ∧ Client.status e = Some (lit " " ++ Client.CHECK_MARK ++ lit " Sent")
    ∧ Client.pendingMessages (Client.handleIncomingMessage msg s)
      = Client.pendingMessages s.
Proof.
  intros Hown. unfold Client.handleIncomingMessage.
  rewrite Hown, andb_false_r. cbn [Client.createMessageElement].
  destruct (strict_eq _ _); eexists; repeat split.
Qed.

(** X20.  A message from a page to the server and back, for a sender name
    that holds no markup.  The page, in any state it reaches, sends the
    trimmed text of the box.  The server, in any state it reaches by
    handling events, starting chat handlers and letting waiting handlers go
    on, with the store up and the page's socket connected, stores one row
    with that text and gives control back; whatever turns the event loop
    takes before the store answers, the handler then replies with the row,
    and sends the sender its own copy if the sender is still connected and
    nothing to anybody if it is not.  When the reply and the own copy reach
    the page, the page shows the message twice: the entry it made on
    sending, now with the id of the row and the status 'Delivered', and a
    second entry written from the same id, sender and text, with the status
    'Sent'.  The message no longer awaits a reply. *)
Theorem message_round_trip (evs : list PageEvent) (name : jsstring)
    (past mid : list Await.Turn) (sid : string) :
  let s := page_run evs (Client.load name) in
  let st := Await.event_loop past in
  let w := st.1 in
  trim (Client.msgInput s) ≠ [] → plain (Client.senderName s) = true →
  Server.db_fault w = None → sid ∈ Server.io_sockets w → sid ≠ "" →
  let u := Client.senderName s in
  let t := trim (Client.msgInput s) in
  let row := new_row w (JStr u) t in
  let own :=
    <["isOwnMessage" := JBool true]> (Server.broadcastDataOf row) in
  let s1 := Client.client_step s Client.ClickSend in
  let s3 :=
    Client.client_run
      [Client.AckIn (Client.ack_ids s) (Server.successAck row);
       Client.ChatMessageIn own] s1 in
  last (Client.emitted s1)
  = Some {| Client.event := "chat message";
            Client.payload := Client.chatPayload u t;
            Client.ack_id := Some (Client.ack_ids s) |}
  ∧ (∃ w1,
       Await.start_chat_message sid (Some (Client.chatPayload u t)) true w
       = Await.AwaitingStore (Server.DbOk row) w1
       ∧ Server.db_rows w1 = Server.db_rows w ++ [row]
       ∧ let w2 := (Await.turns mid (w1, st.2)).1 in
         let w' :=
           Await.resume_chat_message sid true (Server.DbOk row) w2 in
         Server.acks sid (Server.wire w')
         = Server.acks sid (Server.wire w2) ++ [Server.successAck row]
         ∧ (sid ∈ Server.io_sockets w2 →
            Server.delivered sid (Server.wire w')
            = Server.delivered sid (Server.wire w2)
              ++ [("chat message", own)])
         ∧ (sid ∉ Server.io_sockets w2 →
            ∀ s', Server.delivered s' (Server.wire w')
                  = Server.delivered s' (Server.wire w2)))
  ∧ ∃ e e',
      Client.messagesEl s3 = Client.messagesEl s ++ [e; e']
      ∧ Client.messageId e = JNum (Server.id row)
      ∧ Client.messageId e' = JNum (Server.id row)
      ∧ Client.content e = (Server.username row, JStr t)
      ∧ Client.content e' = (Server.username row, JStr t)
      ∧ Client.classList e = ["me"]
      ∧ Client.status e
        = Some (lit " " ++ Client.CHECK_MARK ++ lit " Delivered")
      ∧ Client.status e'
        = Some (lit " " ++ Client.CHECK_MARK ++ lit " Sent")
      ∧ Client.pendingMessages s3
          !! Client.tempId_of (Client.tempIdCounter s) = None.
Proof.
  cbv zeta. intros Htext Hplain Hf Hin Hne.
  set (s := page_run evs (Client.load name)) in *.
  set (u := Client.senderName s) in *.
  set (t := trim (Client.msgInput s)) in *.
  set (st := Await.event_loop past) in *.
  set (row := new_row st.1 (JStr u) t).
  (* the page sends *)
  split; [by apply sendMessage_emits |].
  (* the server stores, waits, replies and shares *)
  assert (Ho : has_text (Client.chatPayload u t) t).
  { split; [done |]. subst t. by rewrite trim_idemp. }
  assert (Hrow : new_row st.1
                   (field (Client.chatPayload u t) "username") (trim t)
                 = row).
  { subst row t. by rewrite trim_idemp. }
  split.
  { destruct (start_with_text st.1 sid (Client.chatPayload u t) t true Ho Hf)
      as (w1 & Hstart & Hrows & Hwire & Hcl & Hio).
    rewrite Hrow in Hstart, Hrows.
    exists w1. split; [exact Hstart |]. split; [exact Hrows |].
    assert (Hreg : registry_in_step (Await.turns mid (w1, st.2)).1).
    { apply turns_in_step. split; cbn [fst].
      - unfold registry_in_step. rewrite Hcl, Hio.
        apply (event_loop_in_step past).
      - apply (start_keeps_next_id sid (Some (Client.chatPayload u t)) true
                 st).
        + apply (event_loop_in_step past).
        + by rewrite Hstart. }
    destruct (resume_stored (Await.turns mid (w1, st.2)).1 sid true
                row Hreg Hne) as (_ & Hall & Hacks).
    split; [exact Hacks |]. split.
    - intros Hstill. rewrite (Hall sid).
      destruct (decide _) as [_ |]; [| done].
      unfold Ledger.share. by destruct (decide (sid = sid)).
    - intros Hgone s'. rewrite (Hall s').
      destruct (decide _) as [|_]; [done |]. by rewrite app_nil_r. }
  (* the page handles the reply and its own copy *)
  destruct (page_run_ok evs name) as [Hnd Hal Hok Hps Hpa Hra Hss].
  fold s in Hnd, Hal, Hok, Hps, Hpa, Hra, Hss.
  destruct (sendMessage_page s Htext) as (e0 & Hl & Haw & Hnn & Hp & Ha & Hc).
  fold u t in Haw, Hp.
  set (p := {| Client.li := Client.next_node s; Client.username := u;
               Client.text := t |}) in *.
  set (tempId := Client.tempId_of (Client.tempIdCounter s)) in *.
  set (s1 := Client.sendMessage s) in *.
  assert (Hid : 1 ≤ Server.id row).
  { subst row. simpl. apply (event_loop_in_step past). }
  assert (Hname : truthy (Server.username row) = true).
  { subst row. simpl. by apply jsor_truthy. }
  assert (Hsucc : is_success (Server.successAck row)) by reflexivity.
  set (s1' := Client.set_acks (delete (Client.ack_ids s) (Client.acks s1)) s1).
  assert (Hp1 : Client.pendingMessages s1' !! tempId = Some p).
  { subst s1'. cbn [Client.pendingMessages Client.set_acks].
    rewrite Hp. apply lookup_insert_eq. }
  destruct (handleAcknowledgement_succeeded_page tempId
              (Server.successAck row) s1' p Hp1 Hsucc)
    as (Hl2 & _ & Hp2 & _ & _).
  set (s2 := Client.handleAcknowledgement tempId (Server.successAck row) s1')
    in *.
  assert (Hs2 : Client.client_step s1
                  (Client.AckIn (Client.ack_ids s) (Server.successAck row))
                = s2).
  { unfold Client.client_step, Client.on_ack. rewrite Ha, lookup_insert_eq.
    fold s1. rewrite <- Ha. done. }
  assert (Hown : truthy (field (<["isOwnMessage" := JBool true]>
                                  (Server.broadcastDataOf row))
                           "isOwnMessage") = true) by reflexivity.
  destruct (handleIncomingMessage_own_entry _ s2 Hown)
    as (e' & Hl3 & Hid' & Hc' & Hst' & Hp3).
  set (F := Client.set_classes (Client.class_add "me")
            ∘ Client.set_classes (Client.class_remove "pending")
            ∘ Client.updateMessageElement
                {| Client.u_id := field (Server.successAck row) "messageId";
                   Client.u_sender := field (Server.successAck row) "sender";
                   Client.u_text := field (Server.successAck row) "text";
                   Client.u_createdAt :=
                     Some (Client.newDate
                             (field (Server.successAck row) "timestamp"));
                   Client.u_status :=
                     JStr (Client.CHECK_MARK ++ lit " Delivered") |}) in *.
  exists (F e0), e'.
  assert (Hlist : Client.messagesEl s2 = Client.messagesEl s ++ [F e0]).
  { rewrite Hl2. subst s1'. cbn [Client.messagesEl Client.set_acks].
    rewrite Hl, map_app. cbn [map].
    destruct Haw as (Hn0 & _).
    rewrite (at_node_same (Client.li p) F e0 Hn0).
    rewrite map_at_node_others; [done |].
    eapply Forall_impl; [exact Hal |]. intros x Hx.
    change (Client.li p) with (Client.next_node s). simpl in Hx. lia. }
  assert (Hs3 : Client.client_run
                   [Client.AckIn (Client.ack_ids s) (Server.successAck row);
                    Client.ChatMessageIn
                      (<["isOwnMessage" := JBool true]>
                         (Server.broadcastDataOf row))]
                   (Client.client_step s Client.ClickSend)
                 = Client.handleIncomingMessage
                     (<["isOwnMessage" := JBool true]>
                        (Server.broadcastDataOf row)) s2).
  { rewrite <- Hs2. reflexivity. }
  rewrite Hs3.
  split.
  { rewrite Hl3, Hlist, <- app_assoc. done. }
  destruct Haw as (Hn0 & Hcl0 & Hb0 & Hc0).
  assert (Htt : truthy (JStr t) = true).
  { subst t. by destruct (trim (Client.msgInput s)). }
  assert (Htid : truthy (JNum (Server.id row)) = true).
  { unfold truthy. apply negb_true_iff, Z.eqb_neq. lia. }
  change (field (Server.successAck row) "messageId")
    with (JNum (Server.id row)) in F.
  change (field (Server.successAck row) "sender")
    with (Server.username row) in F.
  change (field (Server.successAck row) "text") with (JStr t) in F.
  split; [| split; [| split; [| split; [| split; [| split; [| split]]]]]].
  - subst F. unfold compose, Client.set_classes, Client.updateMessageElement.
    cbn [Client.messageId Client.u_id Client.u_sender Client.u_text
         Client.u_createdAt Client.u_status].
    by rewrite Htid.
  - by rewrite Hid'.
  - subst F. unfold compose, Client.set_classes, Client.updateMessageElement.
    cbn [Client.content Client.u_id Client.u_sender Client.u_text
         Client.u_createdAt Client.u_status].
    rewrite Htid, Hname, Htt. reflexivity.
  - by rewrite Hc'.
  - subst F. unfold compose, Client.set_classes, Client.updateMessageElement.
    cbn [Client.classList Client.u_id Client.u_sender Client.u_text
         Client.u_createdAt Client.u_status].
    rewrite Htid, Hname, Htt. cbn [andb Client.classList]. rewrite Hcl0.
    reflexivity.
  - subst F. unfold compose, Client.set_classes, Client.updateMessageElement.
    cbn [Client.status Client.u_id Client.u_sender Client.u_text
         Client.u_createdAt Client.u_status].
    rewrite Htid, Hname, Htt. reflexivity.
  - done.
  - rewrite Hp3, Hp2. apply lookup_delete_eq.
Qed.

Lemma message_round_trip_witness :
  let s := page_run [Ui (Client.Input (lit " hi "))] (Client.load (lit "Ann")) in
  let row := {| Server.id := 1; Server.username := JStr (lit "Ann");
                Server.text := lit "hi"; Server.createdAt := 0;
                Server.updatedAt := 0 |} in
  plain (Client.senderName s) = true
  ∧ ∃ e e',
      Client.messagesEl
        (Client.client_run
           [Client.AckIn (Client.ack_ids s) (Server.successAck row);
            Client.ChatMessageIn
              (<["isOwnMessage" := JBool true]>
                 (Server.broadcastDataOf row))]
           (Client.client_step s Client.ClickSend))
      = Client.messagesEl s ++ [e; e']
      ∧ Client.messageId e = JNum 1
      ∧ Client.messageId e' = JNum 1.
Proof.
  cbv zeta. split; [reflexivity |].
  destruct (message_round_trip [Ui (Client.Input (lit " hi "))] (lit "Ann")
              [Await.Handle (Server.Connection "s1");
               Await.Handle (Server.Connection "s2")]
              [Await.Handle (Server.Disconnect "s2")] "s1")
    as (_ & _ & e & e' & Hl & Hid & Hid' & _).
  - done.
  - reflexivity.
  - reflexivity.
  - unfold Await.event_loop, Await.turns. simpl. set_solver.
  - done.
  - exists e, e'. split; [exact Hl |]. split; [exact Hid | exact Hid'].
Defined.

End RoundTrip.

(** * The name, the route of the history and the markup *)

Section NameFacts.

Import History Client Outbox Page.

Lemma myName_handleAcknowledgement (t : jsstring) (a : obj) (s : State) :
  myName (handleAcknowledgement t a s) = myName s.
Proof.
  unfold handleAcknowledgement, acknowledged.
  destruct (pendingMessages s !! t) as [p |]; [| done].
  by destruct (strict_eq _ _).
Qed.

Lemma myName_handleTyping (s : State) : myName (handleTyping s) = myName s.
Proof.
  unfold handleTyping. destruct (myName s) eqn:Hn; [done |].
  by destruct (isTyping s).
Qed.

Lemma myName_page_step (s : State) (e : PageEvent) :
  myName (page_step s e) = myName s
  ∨ (e = Ui ClickSetUsername
     ∧ myName (page_step s e) = trim (usernameInput s)
     ∧ trim (usernameInput s) ≠ []).
Proof.
  destruct e as [e | r].
  2: { left. destruct r as [| | items]; [done | done |].
       unfold page_step, loadPreviousMessages. by rewrite render_all. }
  destruct e as [v | v | | | key | n b | ms | i a | msg | data];
    unfold page_step, client_step.
  - left. by rewrite myName_handleTyping.
  - by left.
  - unfold setUsername.
    destruct (trim (usernameInput s)) as [| c x] eqn:Hn; [by left |].
    right. by repeat split.
  - left. unfold sendMessage.
    destruct (trim (msgInput s)); [done |]. by destruct (isTyping s).
  - left. destruct (decide _); [| done]. unfold sendMessage.
    destruct (trim (msgInput s)); [done |]. by destruct (isTyping s).
  - left. unfold click_retry.
    destruct (find_button n b s) as [r |]; [| done].
    by destruct (disabled r).
  - left. unfold wait, typingTimeout_fires. cbn [typingTimeout set_now].
    destruct (typingTimeout s) as [d |]; [| done].
    destruct (d <=? _); [| done].
    cbn [isTyping set_typingTimeout set_now]. by destruct (isTyping s).
  - left. unfold on_ack. destruct (acks s !! i) as [[t | n b] |]; [| | done].
    + by rewrite myName_handleAcknowledgement.
    + unfold retry_acknowledged. by destruct (strict_eq _ _).
  - left. unfold handleIncomingMessage.
    destruct (_ && _); [done |]. by destruct (strict_eq _ _).
  - left. unfold on_user_typing, showTypingIndicator.
    destruct (strict_eq _ _); [done |]. destruct (truthy _); [done |].
    by destruct (indicator s) as [[? ?] |].
Qed.

(** X21.  The name of the user changes only when the name is set with an
    input that is not blank, and then to the trimmed input; whatever else
    happens to the page leaves it as it is.  So a name, once there, is
    never lost. *)
Theorem name_changes_only_when_set (es : list PageEvent) (s : State) :
  (∀ e, myName (page_step s e) = myName s
        ∨ (e = Ui ClickSetUsername
           ∧ myName (page_step s e) = trim (usernameInput s)
           ∧ trim (usernameInput s) ≠ []))
  ∧ (myName s ≠ [] → myName (page_run es s) ≠ []).
Proof.
  split; [apply myName_page_step |].
  unfold page_run. revert s.
  induction es as [| e es IH]; intros s Hs; simpl; [done |].
  apply IH. destruct (myName_page_step s e) as [-> | (_ & -> & H)]; done.
Qed.

End NameFacts.

Section RouteFacts.

Import Routes.

(** X22.  The route of the history and the page.  While the store answers
    the query, the route gives its rows and the page appends one entry for
    each, oldest first, without a notice.  When the store refuses the
    query the route answers 500 with the error of the store, and without
    an adapter 503; either way the page shows no entry and the notice
    'Could not load previous messages'. *)
Theorem history_route_feeds_the_page
    (databaseAdapter : option (outcome (list Server.Row)))
    (s : Client.State) :
  let s' :=
    History.loadPreviousMessages (fetched (api_messages databaseAdapter)) s in
  (∀ rows, databaseAdapter = Some (Ret rows) →
     api_messages databaseAdapter = Rows rows
     ∧ Client.messagesEl s'
       = Client.messagesEl s
         ++ History.entries_of (Client.myName s) (Client.next_node s)
              (History.sort (map item_of rows))
     ∧ Client.notifications s' = Client.notifications s)
  ∧ (∀ e, databaseAdapter = Some (Throw e) →
       api_messages databaseAdapter = Refused 500 e)
  ∧ (databaseAdapter = None →
     api_messages databaseAdapter
     = Refused 503 (lit "Database adapter not ready"))
  ∧ ((∀ rows, databaseAdapter ≠ Some (Ret rows)) →
     s' = Client.showNotification (lit "Could not load previous messages")
            true s
     ∧ Client.messagesEl s' = Client.messagesEl s).
Proof.
  cbv zeta. split; [| split; [| split]].
  - intros rows ->. unfold api_messages, getMessages, fetched.
    split; [done |]. unfold History.loadPreviousMessages.
    by rewrite render_all.
  - by intros e ->.
  - by intros ->.
  - intros Hno. destruct databaseAdapter as [[rows | e] |]; try done.
    by destruct (Hno rows).
Qed.

End RouteFacts.

Section MarkupFacts.

Import Html.

Lemma escape_unit_cases (c : N) :
  (c = 38%N ∧ escape_unit c = [38; 97; 109; 112; 59]%N)
  ∨ (c = 60%N ∧ escape_unit c = [38; 108; 116; 59]%N)
  ∨ (c = 62%N ∧ escape_unit c = [38; 103; 116; 59]%N)
  ∨ (c = 160%N ∧ escape_unit c = [38; 110; 98; 115; 112; 59]%N)
  ∨ (c ≠ 38%N ∧ c ≠ 60%N ∧ c ≠ 62%N ∧ c ≠ 160%N ∧ escape_unit c = [c]).
Proof.
  unfold escape_unit.
  destruct (N.eqb_spec c 38) as [-> | H1]; [by left |].
  destruct (N.eqb_spec c 60) as [-> | H2]; [right; by left |].
  destruct (N.eqb_spec c 62) as [-> | H3]; [right; right; by left |].
  destruct (N.eqb_spec c 160) as [-> | H4];
    [right; right; right; by left |].
  by repeat right.
Qed.

Lemma escapeHtml_cons (c : N) (l : jsstring) :
  escapeHtml (c :: l) = escape_unit c ++ escapeHtml l.
Proof. done. Qed.

Lemma escapeHtml_nonempty (c : N) (l : jsstring) : escapeHtml (c :: l) ≠ [].
Proof.
  rewrite escapeHtml_cons.
  by destruct (escape_unit_cases c)
    as [[_ ->] | [[_ ->] | [[_ ->] | [[_ ->] | (_ & _ & _ & _ & ->)]]]].
Qed.

Lemma escapeHtml_inj (a : jsstring) :
  ∀ b, escapeHtml a = escapeHtml b → a = b.
Proof.
  induction a as [| x a IH]; intros [| y b] H.
  - done.
  - symmetry in H. by apply escapeHtml_nonempty in H.
  - by apply escapeHtml_nonempty in H.
  - rewrite !escapeHtml_cons in H.
    destruct (escape_unit_cases x)
      as [[-> Hx] | [[-> Hx] | [[-> Hx] | [[-> Hx]
         | (Hx1 & Hx2 & Hx3 & Hx4 & Hx)]]]];
      destruct (escape_unit_cases y)
        as [[-> Hy] | [[-> Hy] | [[-> Hy] | [[-> Hy]
           | (Hy1 & Hy2 & Hy3 & Hy4 & Hy)]]]];
      rewrite ?Hx, ?Hy in H; simpl in H; inversion H; subst;
      try done; f_equal; by apply IH.
Qed.

(** X23.  [escapeHtml] of a string has no angle bracket, so the text of a
    message never opens or closes a tag in the markup of its entry; and
    different texts have different markup, so nothing of the text is
    lost. *)
Theorem escapeHtml_leaves_no_markup (text : jsstring) :
  (60 ∉ escapeHtml text)%N
  ∧ (62 ∉ escapeHtml text)%N
  ∧ ∀ other, escapeHtml text = escapeHtml other → text = other.
Proof.
  split; [| split; [| apply escapeHtml_inj]].
  - induction text as [| c l IH]; [apply not_elem_of_nil |].
    rewrite escapeHtml_cons, elem_of_app. intros [H | H]; [| done].
    destruct (escape_unit_cases c)
      as [[_ Hc] | [[_ Hc] | [[_ Hc] | [[_ Hc] | (_ & Hn & _ & _ & Hc)]]]];
      rewrite Hc in H; simpl in H;
      repeat (apply elem_of_cons in H as [H | H]; [by inversion H |]);
      try (by apply elem_of_nil in H).
    all: apply list_elem_of_singleton in H; by subst.
  - induction text as [| c l IH]; [apply not_elem_of_nil |].
    rewrite escapeHtml_cons, elem_of_app. intros [H | H]; [| done].
    destruct (escape_unit_cases c)
      as [[_ Hc] | [[_ Hc] | [[_ Hc] | [[_ Hc] | (_ & _ & Hn & _ & Hc)]]]];
      rewrite Hc in H; simpl in H;
      repeat (apply elem_of_cons in H as [H | H]; [by inversion H |]);
      try (by apply elem_of_nil in H).
    all: apply list_elem_of_singleton in H; by subst.
Qed.

End MarkupFacts.

(** ** The sender's own copy and the guard of incoming messages *)

Section OwnCopy.

Import Client Outbox Replay.

(** The conjuncts of a statement about a run, each by evaluation. *)
Local Ltac evaluated :=
  repeat match goal with |- _ ∧ _ => split end; vm_compute; reflexivity.

Lemma click_retry_nodes (n b : nat) (s : State) :
  map node (messagesEl (click_retry n b s)) = map node (messagesEl s).
Proof.
  unfold click_retry. destruct (find_button n b s) as [r |]; [| done].
  destruct (disabled r); [done |]. rewrite retry_onclick_once.
  apply map_node_at_node, keeps_node_retrying.
Qed.

Lemma retry_acknowledged_nodes (n b : nat) (a : obj) (s : State) :
  map node (messagesEl (retry_acknowledged n b a s)) = map node (messagesEl s).
Proof.
  destruct (decide (is_success a)) as [Ha | Ha].
  - rewrite (retry_acknowledged_success_once _ _ _ _ Ha).
    apply map_node_at_node, keeps_node_delivered_by_retry.
  - rewrite (retry_acknowledged_failure_once _ _ _ _ Ha).
    apply map_node_at_node, keeps_node_failed_again.
Qed.

Lemma own_copy_appended (msg : obj) (s : State) :
  truthy (field msg "isOwnMessage") = true →
  ∃ e,
    messagesEl (handleIncomingMessage msg s) = messagesEl s ++ [e]
    ∧ node e = next_node s
    ∧ status e = Some (lit " " ++ CHECK_MARK ++ lit " Sent")
    ∧ (field msg "sender" = JStr (myName s) →
       attemptState e = Some Delivered).
Proof.
  intros Hown. unfold handleIncomingMessage.
  rewrite Hown, andb_false_r. cbn [createMessageElement m_sender m_isPending].
  destruct (strict_eq _ _) eqn:Heq; eexists; repeat split.
  intros Hs. apply strict_eq_str in Hs. congruence.
Qed.

(** C8 (the code at the failing input).  The retry itself reuses the
    entry: neither a click on a retry button nor the reply to a retry adds,
    removes or reorders an entry of the list, and neither touches the
    counter of temporary ids or the pending map.  But the server sends the
    sender of every stored message its own copy, marked isOwnMessage, and
    the page appends every message so marked as a new entry, with the status
    'Sent' and, under the sender's own name, the class of a delivered entry.
    So when Ann's send of "hi" fails because the store is down, and she
    retries once the store is up: the failed entry has one enabled button
    bound to her name and text; the click disables it, sends the same
    payload again and uses no new temporary id, and a second click does
    nothing; the server stores one row, replies with it and sends the own
    copy; after the reply the list holds the one entry, delivered and
    without a button; after the own copy it holds two entries, both
    delivered, with the same sender and text. *)
Theorem retried_message_is_shown_twice :
  (∀ n b s,
     map node (messagesEl (click_retry n b s)) = map node (messagesEl s)
     ∧ same_outbox s (click_retry n b s))
  ∧ (∀ n b a s,
       map node (messagesEl (retry_acknowledged n b a s))
       = map node (messagesEl s)
       ∧ same_outbox s (retry_acknowledged n b a s))
  ∧ (∀ msg s,
       truthy (field msg "isOwnMessage") = true →
       ∃ e,
         messagesEl (handleIncomingMessage msg s) = messagesEl s ++ [e]
         ∧ node e = next_node s
         ∧ status e = Some (lit " " ++ CHECK_MARK ++ lit " Sent")
         ∧ (field msg "sender" = JStr (myName s) →
            attemptState e = Some Delivered))
  ∧ (∃ e r,
       messagesEl page_failed = [e]
       ∧ node e = 0%nat ∧ attemptState e = Some Failed
       ∧ buttons e = [r]
       ∧ the_button 1 false (lit "Ann") (lit "hi") r
       ∧ tempIdCounter page_failed = 2%N)
  ∧ (∃ e r,
       messagesEl page_retrying = [e]
       ∧ node e = 0%nat ∧ attemptState e = Some Pending_
       ∧ buttons e = [r]
       ∧ the_button 1 true (lit "Ann") (lit "hi") r
       ∧ tempIdCounter page_retrying = 2%N
       ∧ pendingMessages page_retrying = pendingMessages page_failed
       ∧ chat_payloads (emitted page_retrying)
         = [chatPayload (lit "Ann") (lit "hi");
            chatPayload (lit "Ann") (lit "hi")]
       ∧ client_step page_retrying (ClickRetry 0 1) = page_retrying)
  ∧ (∃ row,
       Server.db_rows server_stored = [row]
       ∧ Server.acks "s1" (Server.wire server_stored)
         = [Server.errorAck (lit "connect ECONNREFUSED")
              Server.DATABASE_ERROR;
            Server.successAck row]
       ∧ Server.delivered "s1" (Server.wire server_stored)
         = [("chat message",
             <["isOwnMessage" := JBool true]> (Server.broadcastDataOf row))])
  ∧ (∃ e,
       messagesEl page_acknowledged = [e]
       ∧ node e = 0%nat ∧ attemptState e = Some Delivered
       ∧ buttons e = [])
  ∧ ∃ e e',
      messagesEl page_final = [e; e']
      ∧ node e = 0%nat ∧ node e' = 2%nat
      ∧ attemptState e = Some Delivered
      ∧ attemptState e' = Some Delivered
      ∧ content e = (JStr (lit "Ann"), JStr (lit "hi"))
      ∧ content e' = (JStr (lit "Ann"), JStr (lit "hi"))
      ∧ buttons e = [] ∧ buttons e' = []
      ∧ tempIdCounter page_final = 2%N
      ∧ pendingMessages page_final = ∅.
Proof.
  split; [| split; [| split]].
  - intros n b s. split;
      [apply click_retry_nodes | apply click_retry_outbox].
  - intros n b a s. split;
      [apply retry_acknowledged_nodes | apply retry_acknowledged_outbox].
  - apply own_copy_appended.
  - unfold the_button. split; [| split; [| split; [| split]]].
    + eexists _, _. evaluated.
    + eexists _, _. evaluated.
    + eexists. evaluated.
    + eexists. evaluated.
    + eexists _, _. evaluated.
Qed.

(** C9 (the code at the failing input).  The guard of
    [handleIncomingMessage] drops every message that carries the page's own
    name and the broadcast marker without the own-message marker, from any
    state of the page and whatever is pending.  The server never sends such
    a message to the client that sent it: [broadcastExcept] leaves the
    sender out, and the copy the sender gets is marked isOwnMessage.  So the
    messages the guard drops come from other clients that use the same
    name.  When two users named Ann are connected and the first sends "hi",
    the first is sent the marked copy and the second the broadcast; the
    page of the second Ann, handling it, stays as it was, with an empty
    list, while the page of a user named Bob shows it.  Every message whose
    sender differs from the page's name, or that is no broadcast, or that
    is marked as the page's own, is appended as an entry that was never
    pending, and the pending map is left alone. *)
Theorem broadcast_under_own_name_is_lost :
  (∀ msg s,
     field msg "sender" = JStr (myName s) → foreign_broadcast msg →
     handleIncomingMessage msg s = s)
  ∧ (∀ w s ev data,
       Server.delivered s (Server.wire (Server.broadcastExcept s ev data w))
       = Server.delivered s (Server.wire w))
  ∧ (∃ row,
       Server.db_rows ann_sent = [row]
       ∧ Server.username row = JStr (lit "Ann")
       ∧ Server.delivered "s1" (Server.wire ann_sent)
         = [("chat message",
             <["isOwnMessage" := JBool true]> (Server.broadcastDataOf row))]
       ∧ Server.delivered "s2" (Server.wire ann_sent)
         = [("chat message", Server.broadcastDataOf row)]
       ∧ last_event "s2" ann_sent = Server.broadcastDataOf row
       ∧ foreign_broadcast (Server.broadcastDataOf row)
       ∧ client_step (load (lit "Ann"))
           (ChatMessageIn (last_event "s2" ann_sent))
         = load (lit "Ann")
       ∧ messagesEl (load (lit "Ann")) = []
       ∧ ∃ e,
           messagesEl
             (client_step (load (lit "Bob"))
                (ChatMessageIn (last_event "s2" ann_sent)))
           = [e]
           ∧ content e = (JStr (lit "Ann"), JStr (lit "hi")))
  ∧ (∀ msg s,
       field msg "sender" ≠ JStr (myName s)
       ∨ truthy (field msg "isBroadcast") = false
       ∨ truthy (field msg "isOwnMessage") = true →
       rendered_directly msg s).
Proof.
  split; [| split; [| split]].
  - apply handleIncomingMessage_dropped.
  - intros w s ev data. unfold Server.broadcastExcept.
    destruct (Server.clients w !! s); [| done].
    unfold Server.socket_broadcast_emit. cbn [Server.wire Server.set_wire].
    rewrite delivered_snoc_event.
    destruct (decide (s ∈ Server.io_sockets w ∖ {[s]})) as [Hin |];
      [set_solver | by rewrite app_nil_r].
  - unfold foreign_broadcast. eexists.
    repeat match goal with |- _ ∧ _ => split end;
      try (vm_compute; reflexivity).
    eexists. evaluated.
  - apply handleIncomingMessage_shown.
Qed.

End OwnCopy.
